(** * Closed-loop reachability for neural feedback loops

    Part I embeds the drivers of the repository
    ([partition/analyzers/Analyzer.py], [nn_closed_loop/example_cfg.py],
    [closed_loop/ClosedLoopExperiments.py]) as state-passing programs over
    a store of Python dictionaries.  The reachability engine those drivers
    call (constraints, dynamics, propagators, partitioners, the closed-loop
    analyzer) is not part of the sources; it is modelled from the
    specification, over exact rationals, and plugged into the drivers
    through an explicit library interface.

    Part II states and proves the properties. *)

From Stdlib Require Import QArith Qminmax Lqa Ascii String.
From stdpp Require Import gmap strings list fin_maps.

Set Default Proof Using "Type".

(* ===================================================================== *)
(** * Part I.a  The reachability engine (modelled from the specification) *)
(* ===================================================================== *)

Module Engine.

Open Scope Q_scope.

Abbreviation vec := (list Q).
Abbreviation mat := (list (list Q)).

(** ** Vectors and matrices *)

(** Modelled from the spec: the shape-carrying vector type is absent; a
    vector is a list of rationals and binary operations follow the shorter
    operand.  Real numbers are exact rationals, and a sum is kept in lowest
    terms. *)
Definition qadd (a b : Q) : Q := Qred (a + b).

Definition vadd (x y : vec) : vec := zip_with qadd x y.

(** Modelled from the spec: inner product of a matrix row with a vector. *)
Definition dot (w x : vec) : Q := foldr Qplus 0 (zip_with Qmult w x).

(** Modelled from the spec: matrix-vector product [M·x]. *)
Definition mv (M : mat) (x : vec) : vec := map (fun row => dot row x) M.

(** Modelled from the spec: [W⁺ = max(W,0)] and [W⁻ = min(W,0)] (§4.4). *)
Definition mpos (M : mat) : mat := map (map (fun w => Qmax w 0)) M.
Definition mneg (M : mat) : mat := map (map (fun w => Qmin w 0)) M.

(** Modelled from the spec: elementwise order on vectors of one dimension;
    a dimension mismatch is rejected. *)
Fixpoint vle (x y : vec) : bool :=
  match x, y with
  | [], [] => true
  | a :: x', b :: y' => Qle_bool a b && vle x' y'
  | _, _ => false
  end.

(** ** Constraints (§3, §4.1): the box variant *)

(** Modelled from the spec: [Box(lb, ub)], the axis-aligned constraint. *)
Record box := Box { lb : vec; ub : vec }.

(** Modelled from the spec: [contains(p) → bool], point-in-set. *)
Definition contains (S : box) (p : vec) : bool := vle (lb S) p && vle p (ub S).

(** Modelled from the spec: inclusion of boxes, [S ⊆ S']. *)
Definition box_subset (S S' : box) : bool := vle (lb S') (lb S) && vle (ub S) (ub S').

(** Modelled from the spec: the image [M·S] of a box by the signed-matrix
    interval rules, [M⁺·lb + M⁻·ub] below and [M⁺·ub + M⁻·lb] above. *)
Definition linear_image (M : mat) (S : box) : box :=
  Box (vadd (mv (mpos M) (lb S)) (mv (mneg M) (ub S)))
      (vadd (mv (mpos M) (ub S)) (mv (mneg M) (lb S))).

(** Modelled from the spec: the translation [S ⊕ {d}]. *)
Definition translate (d : vec) (S : box) : box :=
  Box (vadd (lb S) d) (vadd (ub S) d).

(** Modelled from the spec: [affine_image(M, d)], the box of
    [{M·x + d : x ∈ S}]. *)
Definition affine_image (M : mat) (d : vec) (S : box) : box :=
  translate d (linear_image M S).

(** Modelled from the spec: [minkowski_add(box)]. *)
Definition minkowski_add (S S' : box) : box :=
  Box (vadd (lb S) (lb S')) (vadd (ub S) (ub S')).

(** Modelled from the spec: [volume()], the product of the side lengths. *)
Definition volume (S : box) : Q :=
  foldr Qmult 1 (zip_with Qminus (ub S) (lb S)).

(** Modelled from the spec: the smallest box enclosing two boxes, and
    [hull(cells)] of a finite list of them. *)
Definition join (S S' : box) : box :=
  Box (zip_with Qmin (lb S) (lb S')) (zip_with Qmax (ub S) (ub S')).

Definition hull (cells : list box) : box :=
  match cells with
  | [] => Box [] []
  | c :: cs => foldl join c cs
  end.

(** The propositional reading of [contains], and the ambient dimension of
    a box. *)
Definition inside (S : box) (p : vec) : Prop :=
  Forall2 Qle (lb S) p /\ Forall2 Qle p (ub S).

Definition dim_is (n : nat) (S : box) : Prop :=
  length (lb S) = n /\ length (ub S) = n.

(** ** Network (§3, §4.3) *)

Inductive activation := ReLU | Linear.

Record layer := Layer { W : mat; bias : vec; act : activation }.

Abbreviation network := (list layer).

Definition relu (x : Q) : Q := Qmax x 0.

Definition activate (a : activation) (x : vec) : vec :=
  match a with ReLU => map relu x | Linear => x end.

(** Modelled from the spec: [eval(x)], the forward evaluation of the
    network on a concrete point. *)
Definition eval (net : network) (x : vec) : vec :=
  foldl (fun x l => activate (act l) (vadd (mv (W l) x) (bias l))) x net.

(** ** Dynamics (§3, §4.2) *)

Record dynamics := Dynamics {
  dynA : mat; dynB : mat; dync : vec;
  u_min : vec; u_max : vec;
  dt : Q
}.

(** Modelled from the spec: saturation, the elementwise clipping of
    actuator commands to [[u_min, u_max]]. *)
Fixpoint clip (u lo hi : vec) : vec :=
  match u, lo, hi with
  | a :: u', l :: lo', h :: hi' => Qmin (Qmax a l) h :: clip u' lo' hi'
  | _, _, _ => []
  end.

Definition sat (dyn : dynamics) (u : vec) : vec := clip u (u_min dyn) (u_max dyn).

Definition clip_box (dyn : dynamics) (U : box) : box :=
  Box (sat dyn (lb U)) (sat dyn (ub U)).

(** Modelled from the spec: one step of the plant,
    [x' = A·x + B·u + c]. *)
Definition plant (dyn : dynamics) (x u : vec) : vec :=
  vadd (vadd (mv (dynA dyn) x) (mv (dynB dyn) u)) (dync dyn).

(** Modelled from the spec: the closed loop [u_t = sat(f_net(x_t))]. *)
Definition closed_loop (dyn : dynamics) (net : network) (x : vec) : vec :=
  plant dyn x (sat dyn (eval net x)).

(** Modelled from the spec: [simulate(x0, controller, T) → [x0,…,x_T]]. *)
Fixpoint simulate (dyn : dynamics) (net : network) (x : vec) (T : nat) : list vec :=
  x :: match T with
       | O => []
       | S T' => simulate dyn net (closed_loop dyn net x) T'
       end.

(** ** Propagators (§4.4) *)

(** Modelled from the spec: the common contract [bound(input_set) →
    output_box] as a function of the network and the input box. *)
Definition propagator := network -> box -> box.

(** Modelled from the spec: one layer of interval-bound propagation,
    [L = W⁺·l + W⁻·u + b], [U = W⁺·u + W⁻·l + b], followed by the
    activation on both bounds. *)
Definition ibp_layer (S : box) (l : layer) : box :=
  let pre := affine_image (W l) (bias l) S in
  Box (activate (act l) (lb pre)) (activate (act l) (ub pre)).

Definition IBP : propagator := fun net S => foldl ibp_layer S net.

(** Modelled from the spec: the contract every propagator variant
    implements, the bound is a sound over-approximation of
    [{f_net(x) : x ∈ input_set}]. *)
Definition sound_propagator (P : propagator) : Prop :=
  forall (net : network) (S : box) (x : vec),
    contains S x = true -> contains (P net S) (eval net x) = true.

(** ** Closed-loop step (§4.5) *)

(** Modelled from the spec: [U = clip(P.bound(S), u_min, u_max)], then
    [S' = A·S ⊕ B·U ⊕ {c}] with both affine images by the signed-matrix
    rules. *)
Definition step (P : propagator) (dyn : dynamics) (net : network) (S : box) : box :=
  let U := clip_box dyn (P net S) in
  translate (dync dyn)
    (minkowski_add (linear_image (dynA dyn) S) (linear_image (dynB dyn) U)).

(** ** Partitioners (§4.6) *)

(** Modelled from the spec: a partitioner subdivides the current set into
    cells. *)
Definition partitioner := box -> list box.

(** Modelled from the spec: the cells cover the parent set. *)
Definition covers (part : partitioner) : Prop :=
  forall (S : box) (x : vec),
    contains S x = true -> exists c, In c (part S) /\ contains c x = true.

Definition NoPartitioner : partitioner := fun S => [S].

(** Modelled from the spec: the [k] equal parts of the interval [[l, u]];
    no part for [k = 0]. *)
Definition split_interval (l u : Q) (k : nat) : list (Q * Q) :=
  let w := (u - l) / inject_Z (Z.of_nat k) in
  map (fun i => (l + inject_Z (Z.of_nat i) * w, l + inject_Z (Z.of_nat (S i)) * w))
      (seq 0 k).

(** Modelled from the spec: the uniform grid, dimension [i] split into
    [k_i] equal parts; a dimension without a count is left whole.  The
    cells are all combinations of the parts. *)
Fixpoint grid (l u : vec) (ks : list nat) : list box :=
  match l, u with
  | a :: l', b :: u' =>
      flat_map (fun part : Q * Q =>
                  map (fun c => Box (fst part :: lb c) (snd part :: ub c))
                      (grid l' u' (tail ks)))
               (match ks with
                | k :: _ => split_interval a b k
                | [] => [(a, b)]
                end)
  | _, _ => [Box [] []]
  end.

Definition UniformPartitioner (ks : list nat) : partitioner :=
  fun S => grid (lb S) (ub S) ks.

(** Modelled from the spec: [bound_step(S_t, P, dyn)], the hull of the
    per-cell next-step boxes. *)
Definition bound_step (part : partitioner) (P : propagator)
    (dyn : dynamics) (net : network) (S : box) : box :=
  hull (map (step P dyn net) (part S)).

(** ** Analyzer (§4.7) *)

(** Modelled from the spec: the forward analysis applies [bound_step] for
    [t = 0 … T−1] and stores [[S_0 … S_T]]. *)
Fixpoint tube (part : partitioner) (P : propagator) (dyn : dynamics)
    (net : network) (S0 : box) (T : nat) : list box :=
  S0 :: match T with
        | O => []
        | S T' => tube part P dyn net (bound_step part P dyn net S0) T'
        end.

(** ** Sampling and the error metric (§4.7, §9 (c)) *)

(** Modelled from the spec: the random number generator is the only
    mutable global state; its algorithm is not specified, a linear
    congruential generator on 31 bits stands for it. *)
Definition rng_next (s : Z) : Z := ((1103515245 * s + 12345) mod 2147483648)%Z.

Definition uniform01 (s : Z) : Q := Qmake s 2147483648.

(** Modelled from the spec: one sample of a box, dimension by dimension. *)
Fixpoint sample_point (l u : vec) (s : Z) : vec * Z :=
  match l, u with
  | a :: l', b :: u' =>
      let s1 := rng_next s in
      let '(p, s2) := sample_point l' u' s1 in
      (qadd a ((b - a) * uniform01 s1) :: p, s2)
  | _, _ => ([], s)
  end.

(** Modelled from the spec: [sample(N)]. *)
Fixpoint sample (S0 : box) (N : nat) (s : Z) : list vec * Z :=
  match N with
  | O => ([], s)
  | S N' =>
      let '(p, s1) := sample_point (lb S0) (ub S0) s in
      let '(ps, s2) := sample S0 N' s1 in
      (p :: ps, s2)
  end.

(** Modelled from the spec: the sampled range of a list of points, the
    smallest box around them. *)
Definition samples_to_range (ps : list vec) : box := hull (map (fun p => Box p p) ps).

(** Modelled from the spec: the sampled reachable boxes at times
    [1 … T], from the simulated trajectories of the sampled initial
    states. *)
Fixpoint sampled_sets (dyn : dynamics) (net : network) (xs : list vec) (T : nat)
    : list box :=
  match T with
  | O => []
  | S T' =>
      let xs' := map (closed_loop dyn net) xs in
      samples_to_range xs' :: sampled_sets dyn net xs' T'
  end.

(** Modelled from the spec: the per-step error, the box-area ratio between
    the estimated and the sampled reachable set. *)
Definition area_ratio (estimated sampled : box) : Q := volume estimated / volume sampled.

Definition mean (es : list Q) : Q := foldr Qplus 0 es / inject_Z (Z.of_nat (length es)).

(** Modelled from the spec: [get_error], from [M] sampled trajectories:
    the errors [[e_1 … e_T]] of the tube [[S_0 … S_T]], the error of the
    last step and the mean over the timesteps. *)
Definition per_step_errors (dyn : dynamics) (net : network) (M : nat)
    (S0 : box) (sets : list box) (T : nat) (s : Z) : list Q * Z :=
  let '(xs, s') := sample S0 M s in
  (zip_with area_ratio (tail sets) (sampled_sets dyn net xs T), s').

Definition get_error (dyn : dynamics) (net : network) (M : nat)
    (S0 : box) (sets : list box) (T : nat) (s : Z) : (Q * Q * list Q) * Z :=
  let '(es, s') := per_step_errors dyn net M S0 sets T s in
  ((List.last es 0, mean es, es), s').

End Engine.

(* ===================================================================== *)
(** * Part I.b  Python values, the store and the effects of the drivers *)
(* ===================================================================== *)

(** Dictionaries are objects: a configuration loaded from YAML is a
    dictionary whose entries may refer to further dictionaries, and the
    drivers pass these references around.  The store maps a location to
    the current contents of the dictionary that lives there. *)
Abbreviation loc := positive.

Inductive value :=
  | VNone
  | VBool (b : bool)
  | VInt (z : Z)
  | VNum (q : Q)
  | VStr (s : string)
  | VInts (zs : list Z)
  | VRef (l : loc).

Inductive exn :=
  | KeyError (k : value)
  | TypeError
  | AttributeError
  | ValueError
  | NameError (name : string)
  | UnboundLocalError (name : string)
  | NotImplementedError
  | LibraryError (what : string).

Inductive result (A : Type) :=
  | Ok (a : A)
  | Raise (e : exn).
Arguments Ok {A} a.
Arguments Raise {A} e.

(** The world of a run: the store of dictionaries, the state of numpy's
    global random number generator, and the wall clock ([wall] gives the
    successive readings of [time.time()], [now] counts the readings
    taken).  Standard output and the files written by the plotting code
    are left out. *)
Record world := World {
  heap : gmap loc (gmap string value);
  rng : Z;
  wall : nat -> Q;
  now : nat
}.

(** Driver code runs in the world and may raise; the effects performed
    before an exception stay. *)
Definition M (A : Type) : Type := world -> result A * world.

Definition ret {A : Type} (a : A) : M A := fun w => (Ok a, w).

Definition bind {A B : Type} (m : M A) (k : A -> M B) : M B := fun w =>
  match m w with
  | (Ok a, w') => k a w'
  | (Raise e, w') => (Raise e, w')
  end.

Notation "x <- m ;; k" := (bind m (fun x => k))
  (at level 100, m at next level, right associativity).

Definition raise {A : Type} (e : exn) : M A := fun w => (Raise e, w).

(** Code of the libraries that are not among the sources sees of the
    world only the random number generator. *)
Definition G (A : Type) : Type := Z -> result A * Z.

Definition lift {A : Type} (g : G A) : M A := fun w =>
  let '(r, s) := g (rng w) in
  (r, World (heap w) s (wall w) (now w)).

Definition pure_of {A : Type} (r : result A) : M A := fun w => (r, w).

(** [np.random.seed(s)] *)
Definition np_random_seed (s : Z) : M unit := fun w =>
  (Ok tt, World (heap w) s (wall w) (now w)).

(** [time.time()] *)
Definition time_time : M Q := fun w =>
  (Ok (wall w (now w)), World (heap w) (rng w) (wall w) (S (now w))).

(** ** Dictionary operations *)

(** The dictionary a value refers to, for [d[k]], [d.items()], [**d]. *)
Definition deref (err : exn) (v : value) : M (gmap string value) := fun w =>
  match v with
  | VRef l =>
      match heap w !! l with
      | Some d => (Ok d, w)
      | None => (Raise (LibraryError "dangling reference"), w)
      end
  | _ => (Raise err, w)
  end.

(** [v[k]] *)
Definition getitem (v : value) (k : string) : M value :=
  d <- deref TypeError v;;
  match d !! k with
  | Some x => ret x
  | None => raise (KeyError (VStr k))
  end.

(** [v.get(k, None)] *)
Definition get_or_none (v : value) (k : string) : M value :=
  d <- deref AttributeError v;;
  ret (default VNone (d !! k)).

(** A dictionary display [{k1: v1, ...}] creates a new object. *)
Definition new_dict (d : gmap string value) : M value := fun w =>
  let l := fresh (dom (heap w)) in
  (Ok (VRef l), World (<[l := d]> (heap w)) (rng w) (wall w) (now w)).

(** [v.copy()], a shallow copy in a new object. *)
Definition dict_copy (v : value) : M value :=
  d <- deref AttributeError v;;
  new_dict d.

(** [v.pop(k, dflt)] removes the entry from the object [v] refers to. *)
Definition dict_pop (v : value) (k : string) (dflt : value) : M value := fun w =>
  match v with
  | VRef l =>
      match heap w !! l with
      | Some d =>
          match d !! k with
          | Some x => (Ok x, World (<[l := delete k d]> (heap w)) (rng w) (wall w) (now w))
          | None => (Ok dflt, w)
          end
      | None => (Raise (LibraryError "dangling reference"), w)
      end
  | _ => (Raise AttributeError, w)
  end.

(** [v[k] = x] *)
Definition setitem (v : value) (k : string) (x : value) : M unit := fun w =>
  match v with
  | VRef l =>
      match heap w !! l with
      | Some d => (Ok tt, World (<[l := <[k := x]> d]> (heap w)) (rng w) (wall w) (now w))
      | None => (Raise (LibraryError "dangling reference"), w)
      end
  | _ => (Raise TypeError, w)
  end.

(** Truth value of an object in a condition. *)
Definition truthy (v : value) : M bool :=
  match v with
  | VNone => ret false
  | VBool b => ret b
  | VInt z => ret (negb (z =? 0)%Z)
  | VNum q => ret (negb (Qeq_bool q 0))
  | VStr s => ret (negb (String.eqb s EmptyString))
  | VInts zs => ret (match zs with [] => false | _ => true end)
  | VRef _ => d <- deref TypeError v;; ret (negb (bool_decide (d = ∅)))
  end.

Definition is_none (v : value) : bool :=
  match v with VNone => true | _ => false end.

(** [v == "s"] for a string literal. *)
Definition eq_str (v : value) (s : string) : bool :=
  match v with VStr s' => String.eqb s' s | _ => false end.

(** [registry[v]] on a dictionary whose keys are strings: a hashable
    value that is not a key raises [KeyError], an unhashable one
    [TypeError]. *)
Definition registry_lookup {C : Type} (registry : gmap string C) (v : value) : M C :=
  match v with
  | VStr s =>
      match registry !! s with
      | Some c => ret c
      | None => raise (KeyError v)
      end
  | VInts _ | VRef _ => raise TypeError
  | _ => raise (KeyError v)
  end.

(* ===================================================================== *)
(** * Part I.c  partition/analyzers/Analyzer.py *)
(* ===================================================================== *)

Section Analyzer.

Context {Model Partitioner Propagator : Type}.

(** [partitioners.partitioner_dict] and [propagators.propagator_dict]:
    the registries are not among the sources.  A constructor receives the
    keyword arguments [**hyperparams_]. *)
Context (partitioner_dict : gmap string (gmap string value -> G Partitioner)).
Context (propagator_dict : gmap string (gmap string value -> G Propagator)).

(** A propagator instance with its [network] attribute. *)
Record propagator_obj := PropagatorObj {
  instance : Propagator;
  network : option Model
}.

(** [Analyzer]: the attributes [_partitioner] and [_propagator] do not
    exist until a setter has stored them. *)
Record analyzer := Analyzer {
  torch_model : Model;
  _partitioner : option Partitioner;
  _propagator : option propagator_obj
}.

(** [Analyzer.partitioner] (getter) *)
Definition get_partitioner (self : analyzer) : M Partitioner :=
  match _partitioner self with
  | Some p => ret p
  | None => raise AttributeError
  end.

(** [Analyzer.partitioner] (setter) *)
Definition set_partitioner (self : analyzer) (hyperparams : value) : M analyzer :=
  if is_none hyperparams then ret self else
  hyperparams_ <- dict_copy hyperparams;;
  partitioner <- dict_pop hyperparams_ "type" VNone;;
  ctor <- registry_lookup partitioner_dict partitioner;;
  kwargs <- deref TypeError hyperparams_;;
  p <- lift (ctor kwargs);;
  ret (Analyzer (torch_model self) (Some p) (_propagator self)).

(** [Analyzer.propagator] (getter) *)
Definition get_propagator (self : analyzer) : M propagator_obj :=
  match _propagator self with
  | Some p => ret p
  | None => raise AttributeError
  end.

(** [Analyzer.propagator] (setter) *)
Definition set_propagator (self : analyzer) (hyperparams : value) : M analyzer :=
  if is_none hyperparams then ret self else
  hyperparams_ <- dict_copy hyperparams;;
  propagator <- dict_pop hyperparams_ "type" VNone;;
  ctor <- registry_lookup propagator_dict propagator;;
  kwargs <- deref TypeError hyperparams_;;
  p <- lift (ctor kwargs);;
  let obj :=
    if negb (is_none propagator)
    then PropagatorObj p (Some (torch_model self))
    else PropagatorObj p None in
  ret (Analyzer (torch_model self) (_partitioner self) (Some obj)).

(** [Analyzer.__init__] *)
Definition Analyzer_init (torch_model : Model) : M analyzer :=
  self <- set_partitioner (Analyzer torch_model None None) VNone;;
  set_propagator self VNone.

End Analyzer.

Arguments propagator_obj : clear implicits.
Arguments analyzer : clear implicits.

(** ** The queries of the analyzer *)

Section AnalyzerQueries.

Context {Model Partitioner Propagator Range Samples Hull Info : Type}.

(** [partitioner.get_output_range(input_range, propagator)], a method of
    the partitioner classes, and [get_sampled_outputs], [samples_to_range]
    of [partition.utils.utils] and [scipy.spatial.ConvexHull]: none of
    them is among the sources. *)
Context (partitioner_get_output_range :
  Partitioner -> Range -> propagator_obj Model Propagator -> G (Range * Info)).
Context (utils_get_sampled_outputs :
  Range -> propagator_obj Model Propagator -> Z -> G Samples).
Context (utils_samples_to_range : Samples -> G Range).
Context (ConvexHull : Samples -> G Hull).

(** [Analyzer.get_output_range] *)
Definition get_output_range (self : analyzer Model Partitioner Propagator)
    (input_range : Range) : M (Range * Info) :=
  partitioner <- get_partitioner self;;
  propagator <- get_propagator self;;
  r <- lift (partitioner_get_output_range partitioner input_range propagator);;
  let '(output_range, info) := r in
  ret (output_range, info).

(** [Analyzer.get_sampled_outputs]; the default of [N] is 1000. *)
Definition get_sampled_outputs (self : analyzer Model Partitioner Propagator)
    (input_range : Range) (N : Z) : M Samples :=
  propagator <- get_propagator self;;
  lift (utils_get_sampled_outputs input_range propagator N).

(** [Analyzer.samples_to_range] *)
Definition samples_to_range (self : analyzer Model Partitioner Propagator)
    (sampled_outputs : Samples) : M Range :=
  lift (utils_samples_to_range sampled_outputs).

(** [Analyzer.get_exact_output_range] *)
Definition get_exact_output_range (self : analyzer Model Partitioner Propagator)
    (input_range : Range) : M Range :=
  sampled_outputs <- get_sampled_outputs self input_range 1000;;
  samples_to_range self sampled_outputs.

(** [Analyzer.get_exact_hull]; the default of [N] is [int(1e7)]. *)
Definition get_exact_hull (self : analyzer Model Partitioner Propagator)
    (input_range : Range) (N : Z) : M Hull :=
  sampled_outputs <- get_sampled_outputs self input_range N;;
  lift (ConvexHull sampled_outputs).

End AnalyzerQueries.

(** ** Control flow shared by the drivers *)

(** [for x in xs: body], threading the local variables. *)
Fixpoint for_each {X St : Type} (body : X -> St -> M St) (xs : list X) (st : St) : M St :=
  match xs with
  | [] => ret st
  | x :: xs' => st' <- body x st;; for_each body xs' st'
  end.

(** [[f(x) for x in xs]], when [f] has effects. *)
Fixpoint map_each {X Y : Type} (f : X -> M Y) (xs : list X) : M (list Y) :=
  match xs with
  | [] => ret []
  | x :: xs' => y <- f x;; ys <- map_each f xs';; ret (y :: ys)
  end.

(** [params[a][b]] *)
Definition param (params : value) (a b : string) : M value :=
  section <- getitem params a;;
  getitem section b.

(** An integer argument of [np.empty] or [range]. *)
Definition as_count (v : value) : M nat :=
  match v with
  | VInt z => if (z <? 0)%Z then raise ValueError else ret (Z.to_nat z)
  | VBool b => ret (if b then 1%nat else 0%nat)
  | _ => raise TypeError
  end.

(** A local variable that is only assigned on some paths. *)
Definition local {A : Type} (name : string) (x : option A) : M A :=
  match x with
  | Some a => ret a
  | None => raise (UnboundLocalError name)
  end.

(** [ClosedLoopAnalyzer] and [ClosedLoopBackwardAnalyzer] are not among
    the sources: they are taken to extend [Analyzer] with the dynamics and
    to inherit its property setters. *)
Record closed_loop_analyzer (Dyn Model Partitioner Propagator : Type) := ClosedLoopAnalyzer {
  base : analyzer Model Partitioner Propagator;
  cl_dynamics : Dyn
}.
Arguments ClosedLoopAnalyzer {Dyn Model Partitioner Propagator} base cl_dynamics.
Arguments base {Dyn Model Partitioner Propagator} c.
Arguments cl_dynamics {Dyn Model Partitioner Propagator} c.


(** ** Properties of runs *)

(** Every dictionary of [w] is still there in [w'], with the same
    entries. *)
Definition extends (w w' : world) : Prop :=
  forall l, l ∈ dom (heap w) -> heap w' !! l = heap w !! l.

(** Code that changes no dictionary that existed before it ran, whether
    it returns or raises. *)
Definition frames {A : Type} (m : M A) : Prop :=
  forall w r w', m w = (r, w') -> extends w w'.

(** Two worlds with the same dictionaries and the same state of the
    random number generator; the clocks may differ. *)
Definition same_store (w1 w2 : world) : Prop :=
  heap w1 = heap w2 /\ rng w1 = rng w2.

(** Two outcomes agree up to [R]: both return, with results related by
    [R], or both raise the same exception; and the stores are the same. *)
Definition agree {A : Type} (R : A -> A -> Prop) (x y : result A * world) : Prop :=
  match x.1, y.1 with
  | Ok a, Ok b => R a b
  | Raise e, Raise e' => e = e'
  | _, _ => False
  end /\ same_store x.2 y.2.

(** Two pieces of code that agree whenever they start from the same
    store. *)
Definition related {A : Type} (R : A -> A -> Prop) (m1 m2 : M A) : Prop :=
  forall w1 w2, same_store w1 w2 -> agree R (m1 w1) (m2 w2).

(* ===================================================================== *)
(** * Part I.d  nn_closed_loop/example_cfg.py *)
(* ===================================================================== *)

Module ExampleCfg.

(** What [example_cfg.py] imports from the rest of [nn_closed_loop]. *)
Record Lib := {
  Dyn : Type;
  Controller : Type;
  Partitioner : Type;
  Propagator : Type;
  Range : Type;
  Constraint : Type;
  Sets : Type;
  Err : Type;
  Errs : Type;
  (** [dynamics.get_dynamics_instance(type, feedback)] *)
  get_dynamics_instance : value -> value -> G Dyn;
  (** [load_controller(system=dyn.__class__.__name__, model_name=...)] *)
  load_controller : Dyn -> value -> G Controller;
  partitioner_dict : gmap string (gmap string value -> G Partitioner);
  propagator_dict : gmap string (gmap string value -> G Propagator);
  (** [np.array(ast.literal_eval(s))] *)
  array_of_literal : value -> G Range;
  (** [constraints.state_range_to_constraint(range, boundary_type)] *)
  state_range_to_constraint : Range -> value -> G Constraint;
  (** [analyzer.get_reachable_set(initial_set, t_max=...)] *)
  get_reachable_set :
    closed_loop_analyzer Dyn Controller Partitioner Propagator ->
    Constraint -> value -> G (Sets * gmap string value);
  (** [analyzer.get_error(initial_set, reachable_sets, t_max=...)] *)
  get_error :
    closed_loop_analyzer Dyn Controller Partitioner Propagator ->
    Constraint -> Sets -> value -> G (Err * Err * Errs);
  (** [analyzer.get_backprojection_set(target_set, t_max=..., overapprox=...)] *)
  get_backprojection_set :
    closed_loop_analyzer Dyn Controller Partitioner Propagator ->
    Constraint -> value -> value -> G (Sets * gmap string value);
  (** the file name built from the parameters, [analyzer_info["save_name"]] *)
  save_name : Dyn -> gmap string value -> gmap string value -> value -> G string;
  save_name_backward : value -> gmap string value -> gmap string value -> G string;
  (** [analyzer.visualize(...)], forward and backward *)
  visualize :
    closed_loop_analyzer Dyn Controller Partitioner Propagator ->
    Constraint -> Sets -> list value -> gmap string value -> G unit;
  visualize_backward :
    closed_loop_analyzer Dyn Controller Partitioner Propagator ->
    Sets -> Constraint -> gmap string value -> list value -> G unit
}.

(** The entries of [stats]. *)
Inductive stat (L : Lib) :=
  | StFloats (ts : list Q)
  | StErrArray (es : list (option (Err L)))
  | StErrsArray (es : list (option (Errs L)))
  | StSetsArray (ss : list (option (Sets L)))
  | StSets (s : Sets L).
Arguments StFloats {L} ts.
Arguments StErrArray {L} es.
Arguments StErrsArray {L} es.
Arguments StSetsArray {L} ss.
Arguments StSets {L} s.

Abbreviation cl_analyzer L :=
  (closed_loop_analyzer (Dyn L) (Controller L) (Partitioner L) (Propagator L)).

Section ExampleCfg.

Context (L : Lib).

Definition set_cl_partitioner (a : cl_analyzer L) (hyperparams : value) : M (cl_analyzer L) :=
  b <- set_partitioner (partitioner_dict L) (base a) hyperparams;;
  ret (ClosedLoopAnalyzer b (cl_dynamics a)).

Definition set_cl_propagator (a : cl_analyzer L) (hyperparams : value) : M (cl_analyzer L) :=
  b <- set_propagator (propagator_dict L) (base a) hyperparams;;
  ret (ClosedLoopAnalyzer b (cl_dynamics a)).

Definition new_cl_analyzer (controller : Controller L) (dyn : Dyn L) : M (cl_analyzer L) :=
  b <- Analyzer_init (partitioner_dict L) (propagator_dict L) controller;;
  ret (ClosedLoopAnalyzer b dyn).

(** The local variables of the timing loop of [main_forward]. *)
Record timing := Timing {
  times : list Q;
  final_errors : list (option (Err L));
  avg_errors : list (option (Err L));
  all_errors : list (option (Errs L));
  all_reachable_sets : list (option (Sets L));
  reachable_sets : option (Sets L);
  analyzer_info : option (gmap string value)
}.

Definition timing_call (params : value) (analyzer : cl_analyzer L)
    (initial_state_set : Constraint L) (num : nat) (st : timing) : M timing :=
  t_start <- time_time;;
  t_max <- param params "analysis" "t_max";;
  r <- lift (get_reachable_set L analyzer initial_state_set t_max);;
  t_end <- time_time;;
  let times' := <[num := (t_end - t_start)%Q]> (times st) in
  if (num =? 0)%nat then
    t_max <- param params "analysis" "t_max";;
    e <- lift (get_error L analyzer initial_state_set r.1 t_max);;
    ret (Timing times'
            (<[num := Some e.1.1]> (final_errors st))
            (<[num := Some e.1.2]> (avg_errors st))
            (<[num := Some e.2]> (all_errors st))
            (<[num := Some r.1]> (all_reachable_sets st))
            (Some r.1) (Some r.2))
  else
    ret (Timing times' (final_errors st) (avg_errors st) (all_errors st)
            (all_reachable_sets st) (Some r.1) (Some r.2)).

(** [np.empty(params["analysis"]["num_calls"], ...)]; the entries of a
    float array start as 0 here, those of an object array as [None]. *)
Definition empty_array {A : Type} (params : value) (a : A) : M (list A) :=
  n <- param params "analysis" "num_calls";;
  n <- as_count n;;
  ret (replicate n a).

(** [main_forward] *)
Definition main_forward (params : value)
    : M (gmap string (stat L) * gmap string value) :=
  _ <- np_random_seed 0;;
  ty <- param params "system" "type";;
  fb <- param params "system" "feedback";;
  dyn <- lift (get_dynamics_instance L ty fb);;
  model_name <- param params "system" "controller";;
  controller <- lift (load_controller L dyn model_name);;
  analyzer <- new_cl_analyzer controller dyn;;
  hp <- param params "analysis" "partitioner";;
  analyzer <- set_cl_partitioner analyzer hp;;
  hp <- param params "analysis" "propagator";;
  analyzer <- set_cl_propagator analyzer hp;;
  literal <- param params "analysis" "initial_state_range";;
  initial_state_range <- lift (array_of_literal L literal);;
  propagator <- param params "analysis" "propagator";;
  boundary_type <- getitem propagator "boundary_type";;
  initial_state_set <- lift (state_range_to_constraint L initial_state_range boundary_type);;
  estimate_runtime <- param params "analysis" "estimate_runtime";;
  estimate_runtime <- truthy estimate_runtime;;
  r <- (if estimate_runtime then
         times0 <- empty_array params 0%Q;;
         final_errors0 <- empty_array params None;;
         avg_errors0 <- empty_array params None;;
         all_errors0 <- empty_array params None;;
         all_reachable_sets0 <- empty_array params None;;
         n <- param params "analysis" "num_calls";;
         n <- as_count n;;
         st <- for_each (timing_call params analyzer initial_state_set) (seq 0 n)
                (Timing times0 final_errors0 avg_errors0 all_errors0
                   all_reachable_sets0 None None);;
         let stats : gmap string (stat L) :=
           <["reachable_sets" := StSetsArray (all_reachable_sets st)]>
           (<["all_errors" := StErrsArray (all_errors st)]>
           (<["avg_errors" := StErrArray (avg_errors st)]>
           (<["final_step_errors" := StErrArray (final_errors st)]>
           (<["runtimes" := StFloats (times st)]> ∅)))) in
         ret (stats, reachable_sets st, analyzer_info st)
       else
         t_start <- time_time;;
         t_max <- param params "analysis" "t_max";;
         r <- lift (get_reachable_set L analyzer initial_state_set t_max);;
         t_end <- time_time;;
         let stats : gmap string (stat L) := <["reachable_sets" := StSets r.1]> ∅ in
         ret (stats, Some r.1, Some r.2));;
  let '(stats, reachable_sets0, analyzer_info0) := r in
  estimate_error <- param params "analysis" "estimate_error";;
  estimate_error <- truthy estimate_error;;
  _ <- (if estimate_error then
         reachable_sets1 <- local "reachable_sets" reachable_sets0;;
         t_max <- param params "analysis" "t_max";;
         _ <- lift (get_error L analyzer initial_state_set reachable_sets1 t_max);;
         ret tt
       else ret tt);;
  save_plot <- param params "visualization" "save_plot";;
  save_plot <- truthy save_plot;;
  analyzer_info0 <- (if save_plot then
         partitioner <- param params "analysis" "partitioner";;
         partitioner <- deref AttributeError partitioner;;
         propagator <- param params "analysis" "propagator";;
         propagator <- deref AttributeError propagator;;
         t_max <- param params "analysis" "t_max";;
         name <- lift (save_name L dyn partitioner propagator t_max);;
         info <- local "analyzer_info" analyzer_info0;;
         ret (Some (<["save_name" := VStr name]> info))
       else ret analyzer_info0);;
  show_plot <- param params "visualization" "show_plot";;
  show_plot <- truthy show_plot;;
  show <- (if show_plot then ret true else
            save_plot <- param params "visualization" "save_plot";;
            truthy save_plot);;
  _ <- (if show then
         reachable_sets1 <- local "reachable_sets" reachable_sets0;;
         args <- map_each (param params "visualization")
                  ["show_samples"; "show_trajectories"; "show_plot"; "plot_dims";
                   "plot_axis_labels"; "plot_aspect"; "plot_lims"];;
         info <- local "analyzer_info" analyzer_info0;;
         lift (visualize L analyzer initial_state_set reachable_sets1 args info)
       else ret tt);;
  analyzer_info1 <- local "analyzer_info" analyzer_info0;;
  ret (stats, analyzer_info1).

(** [main_backward]; the global [params] it reads is the dictionary the
    main program passes as [args]. *)
Definition main_backward (params : value)
    : M (gmap string (stat L) * gmap string value) :=
  _ <- np_random_seed 0;;
  fb <- param params "system" "feedback";;
  _ <- (if eq_str fb "FullState" then ret tt else raise ValueError);;
  ty <- param params "system" "type";;
  fb <- param params "system" "feedback";;
  dyn <- lift (get_dynamics_instance L ty fb);;
  model_name <- param params "system" "controller";;
  controller <- lift (load_controller L dyn model_name);;
  analyzer <- new_cl_analyzer controller dyn;;
  hp <- param params "analysis" "partitioner";;
  analyzer <- set_cl_partitioner analyzer hp;;
  hp <- param params "analysis" "propagator";;
  analyzer <- set_cl_propagator analyzer hp;;
  literal <- param params "analysis" "final_state_range";;
  final_state_range <- lift (array_of_literal L literal);;
  propagator <- param params "analysis" "propagator";;
  boundary_type <- getitem propagator "boundary_type";;
  target_set <- lift (state_range_to_constraint L final_state_range boundary_type);;
  estimate_runtime <- param params "analysis" "estimate_runtime";;
  estimate_runtime <- truthy estimate_runtime;;
  r <- (if estimate_runtime then
         times <- empty_array params 0%Q;;
         final_errors <- empty_array params 0%Q;;
         avg_errors <- empty_array params (@None (Err L));;
         all_errors <- empty_array params (@None (Errs L));;
         all_backprojection_sets <- empty_array params (@None (Sets L));;
         raise (NameError "num_calls")
       else
         t_max <- param params "analysis" "t_max";;
         overapprox <- param params "analysis" "overapprox";;
         r <- lift (get_backprojection_set L analyzer target_set t_max overapprox);;
         let stats : gmap string (stat L) := <["backprojection_sets" := StSets r.1]> ∅ in
         ret (stats, r.1, r.2));;
  let '(stats, backprojection_sets, analyzer_info0) := r in
  show_policy <- param params "visualization" "show_policy";;
  show_policy <- truthy show_policy;;
  controller_name <- (if show_policy then param params "system" "controller"
                     else ret VNone);;
  save_plot <- param params "visualization" "save_plot";;
  save_plot <- truthy save_plot;;
  analyzer_info1 <- (if save_plot then
         partitioner <- param params "analysis" "partitioner";;
         partitioner <- deref AttributeError partitioner;;
         propagator <- param params "analysis" "propagator";;
         propagator <- deref AttributeError propagator;;
         ty <- param params "system" "type";;
         name <- lift (save_name_backward L ty partitioner propagator);;
         ret (<["save_name" := VStr name]> analyzer_info0)
       else ret analyzer_info0);;
  analysis <- getitem params "analysis";;
  initial_state_range <- get_or_none analysis "initial_state_range";;
  initial_state_set <- (if is_none initial_state_range then ret VNone else
         literal <- param params "analysis" "initial_state_range";;
         _ <- lift (array_of_literal L literal);;
         raise (NameError "LpConstraint"));;
  show_plot <- param params "visualization" "show_plot";;
  show_plot <- truthy show_plot;;
  show <- (if show_plot then ret true else
            save_plot <- param params "visualization" "save_plot";;
            truthy save_plot);;
  _ <- (if show then
         args <- map_each (param params "visualization")
                  ["show_plot"; "show_samples"; "show_samples_from_cells";
                   "show_trajectories"; "show_convex_hulls"; "plot_dims";
                   "plot_axis_labels"; "plot_aspect"; "plot_lims"];;
         show_BReach <- param params "visualization" "show_BReach";;
         lift (visualize_backward L analyzer backprojection_sets target_set analyzer_info1
                 (args ++ [initial_state_set; controller_name; show_BReach]))
       else ret tt);;
  ret (stats, analyzer_info1).

(** The main program, after [setup_parser] has loaded the configuration. *)
Definition main (params : value) : M unit :=
  direction <- param params "analysis" "reachability_direction";;
  _ <- (if eq_str direction "forward"
       then (_ <- main_forward params;; ret tt) else ret tt);;
  direction <- param params "analysis" "reachability_direction";;
  if eq_str direction "backward"
  then (_ <- main_backward params;; ret tt) else ret tt.

End ExampleCfg.

(** The results of two runs compared: the same reachable sets and
    errors, the same info dictionary; the measured runtimes are left out
    of the comparison. *)
Definition same_but_runtimes {L : Lib}
    (r1 r2 : gmap string (stat L) * gmap string value) : Prop :=
  r1.2 = r2.2 /\ forall k : string, k ≠ "runtimes" -> r1.1 !! k = r2.1 !! k.

Definition same_but_times {L : Lib} (st1 st2 : timing L) : Prop :=
  final_errors L st1 = final_errors L st2 /\
  avg_errors L st1 = avg_errors L st2 /\
  all_errors L st1 = all_errors L st2 /\
  all_reachable_sets L st1 = all_reachable_sets L st2 /\
  reachable_sets L st1 = reachable_sets L st2 /\
  analyzer_info L st1 = analyzer_info L st2.

End ExampleCfg.

(* ===================================================================== *)
(** * Part I.e  closed_loop/ClosedLoopExperiments.py *)
(* ===================================================================== *)

Module ClosedLoopExperiments.

(** What [ClosedLoopExperiments.py] imports from the rest of
    [closed_loop]. *)
Record Lib := {
  Model : Type;
  Dyn : Type;
  Partitioner : Type;
  Propagator : Type;
  Range : Type;
  InputConstraint : Type;
  OutputConstraint : Type;
  Err : Type;
  (** [load_model(model_fn)] and [DoubleIntegrator()] *)
  load_model : string -> G Model;
  DoubleIntegrator : G Dyn;
  partitioner_dict : gmap string (gmap string value -> G Partitioner);
  propagator_dict : gmap string (gmap string value -> G Propagator);
  (** [np.array(rows)] and [input_range.shape[:-1]] *)
  np_array : list (list Q) -> Range;
  shape : Range -> list Z;
  (** [LpInputConstraint(range=input_range, p=np.inf)] *)
  LpInputConstraint : Range -> G InputConstraint;
  input_range_of : InputConstraint -> Range;
  (** [LpOutputConstraint(p=np.inf)] *)
  LpOutputConstraint : G OutputConstraint;
  output_range_of : OutputConstraint -> Range;
  (** [analyzer.get_reachable_set(input_constraint, output_constraint, t_max)] *)
  get_reachable_set :
    closed_loop_analyzer Dyn Model Partitioner Propagator ->
    InputConstraint -> OutputConstraint -> Z ->
    G (OutputConstraint * gmap string value);
  (** [analyzer.get_error(input_constraint, output_constraint)] *)
  get_error :
    closed_loop_analyzer Dyn Model Partitioner Propagator ->
    InputConstraint -> OutputConstraint -> G (Err * Err);
  (** [type(p).__name__] *)
  partitioner_name : Partitioner -> string;
  propagator_name : Propagator -> string
}.

(** The entries of a row of the data frame. *)
Inductive cell (L : Lib) :=
  | CRange (r : Range L)
  | CStr (s : string)
  | CErr (e : Err L)
  | CVal (v : value).
Arguments CRange {L} r.
Arguments CStr {L} s.
Arguments CErr {L} e.
Arguments CVal {L} v.

(** An entry of the list [experiments]. *)
Record experiment := Experiment {
  model_fn : string;
  input_range : list (list Q);
  seeds : list nat;
  name : string;
  sample_time : Q
}.

(** [experiments]: the entries that are not commented out. *)
Definition experiments : list experiment :=
  [ Experiment "double_integrator_mpc"
      [ [2.5; 3.0]; [-0.25; 0.25] ]%Q
      (seq 0 1)
      "double Integrator"
      0.1%Q ].

(** [itertools.product] of a list of iterables, the last one varying
    fastest. *)
Fixpoint product {A : Type} (ls : list (list A)) : list (list A) :=
  match ls with
  | [] => [[]]
  | l :: ls' => flat_map (fun x => map (cons x) (product ls')) l
  end.

Abbreviation cl_analyzer L :=
  (closed_loop_analyzer (Dyn L) (Model L) (Partitioner L) (Propagator L)).

Abbreviation row L := (gmap string (cell L)).

Section Experiments.

Context (L : Lib).

Definition set_cl_partitioner (a : cl_analyzer L) (hyperparams : value) : M (cl_analyzer L) :=
  b <- set_partitioner (partitioner_dict L) (base a) hyperparams;;
  ret (ClosedLoopAnalyzer b (cl_dynamics a)).

Definition set_cl_propagator (a : cl_analyzer L) (hyperparams : value) : M (cl_analyzer L) :=
  b <- set_propagator (propagator_dict L) (base a) hyperparams;;
  ret (ClosedLoopAnalyzer b (cl_dynamics a)).

Definition new_cl_analyzer (model : Model L) (dyn : Dyn L) : M (cl_analyzer L) :=
  b <- Analyzer_init (partitioner_dict L) (propagator_dict L) model;;
  ret (ClosedLoopAnalyzer b dyn).

(** [run_and_add_row]; the analyzer object is shared with the caller, so
    the analyzer with the new partitioner and propagator is returned as
    well. *)
Definition run_and_add_row (analyzer : cl_analyzer L) (input_range : Range L)
    (partitioner_hyperparams propagator_hyperparams : value) (t_max : Z)
    : M (cl_analyzer L * (row L * Err L * Err L)) :=
  _ <- np_random_seed 0;;
  analyzer <- set_cl_partitioner analyzer partitioner_hyperparams;;
  analyzer <- set_cl_propagator analyzer propagator_hyperparams;;
  input_constraint <- lift (LpInputConstraint L input_range);;
  output_constraint <- lift (LpOutputConstraint L);;
  r <- lift (get_reachable_set L analyzer input_constraint output_constraint t_max);;
  let '(output_constraint, analyzer_info) := r in
  e <- lift (get_error L analyzer input_constraint output_constraint);;
  let '(error, avg_error) := e in
  propagator <- get_propagator (base analyzer);;
  partitioner <- get_partitioner (base analyzer);;
  let stats : row L :=
    <["num_partitions" := CVal partitioner_hyperparams]>
    (<["avg_error" := CErr avg_error]>
    (<["final_error" := CErr error]>
    (<["partitioner" := CStr (partitioner_name L partitioner)]>
    (<["propagator" := CStr (propagator_name L (instance propagator))]>
    (<["input_range" := CRange (input_range_of L input_constraint)]>
    (<["output_range_estimate" := CRange (output_range_of L output_constraint)]> ∅)))))) in
  partitioner_items <- deref TypeError partitioner_hyperparams;;
  propagator_items <- deref TypeError propagator_hyperparams;;
  let data_row : row L :=
    (CVal <$> propagator_items) ∪ ((CVal <$> partitioner_items) ∪
      ((CVal <$> analyzer_info) ∪ stats)) in
  ret (analyzer, (data_row, avg_error, error)).

(** The defaults of [run_experiment]. *)
Definition default_partitioners : list string := ["None"; "Uniform"].
Definition default_propagators : list string := ["IBP"; "CROWN"; "FastLin"].
Definition default_hyperparams : gmap string (list (string * list value)) :=
  <["Uniform" := [("num_partitions", [VInt 4; VInt 4])]]> (<["None" := []]> ∅).

(** The body of the inner loop of [run_experiment], for one tuple of
    hyperparameter values. *)
Definition run_one (input_range : Range L) (partitioner_hyperparams : value)
    (partitioner_keys : list string) (propagator : string) (t_max : Z)
    (partitioner_vals : list value) (st : cl_analyzer L * list (row L))
    : M (cl_analyzer L * list (row L)) :=
  _ <- for_each (fun kv (_ : unit) => setitem partitioner_hyperparams kv.1 kv.2)
         (zip partitioner_keys partitioner_vals) tt;;
  propagator_hyperparams <- new_dict
    (<["input_shape" := VInts (shape L input_range)]> (<["type" := VStr propagator]> ∅));;
  r <- run_and_add_row st.1 input_range partitioner_hyperparams propagator_hyperparams t_max;;
  ret (r.1, st.2 ++ [r.2.1.1]).

(** The body of the outer loop of [run_experiment], for one pair of
    algorithms. *)
Definition run_pair (input_range : Range L)
    (partitioner_hyperparams_to_use : gmap string (list (string * list value)))
    (t_max : Z) (pair : string * string) (st : cl_analyzer L * list (row L))
    : M (cl_analyzer L * list (row L)) :=
  let '(partitioner, propagator) := pair in
  to_use <- registry_lookup partitioner_hyperparams_to_use (VStr partitioner);;
  let partitioner_keys := map fst to_use in
  partitioner_hyperparams <- new_dict (<["type" := VStr partitioner]> ∅);;
  for_each (run_one input_range partitioner_hyperparams partitioner_keys propagator t_max)
    (product (map snd to_use)) st.

(** [run_experiment]; writing the pickle file is left out. *)
Definition run_experiment (model : option (Model L)) (dynamics : option (Dyn L))
    (df : option (list (row L))) (input_range : option (Range L))
    (partitioners propagators : option (list string))
    (partitioner_hyperparams_to_use : option (gmap string (list (string * list value))))
    (t_max : Z) : M (list (row L)) :=
  match model, dynamics with
  | Some model, Some dynamics =>
      match input_range with
      | None => raise NotImplementedError
      | Some input_range =>
          let '(partitioners, propagators, partitioner_hyperparams_to_use) :=
            match partitioners, propagators, partitioner_hyperparams_to_use with
            | Some ps, Some qs, Some hs => (ps, qs, hs)
            | _, _, _ => (default_partitioners, default_propagators, default_hyperparams)
            end in
          let df := default [] df in
          analyzer <- new_cl_analyzer model dynamics;;
          r <- for_each (run_pair input_range partitioner_hyperparams_to_use t_max)
                 (list_prod partitioners propagators) (analyzer, df);;
          ret r.2
      end
  | _, _ => raise NotImplementedError
  end.

(** [collect_data_for_table]; [partitioner_hyperparams_to_use] is the
    global the main program defines. *)
Definition collect_data_for_table
    (partitioner_hyperparams_to_use : gmap string (list (string * list value)))
    (propagators partitioners : list string) (t_max : Z) : M (list (row L)) :=
  for_each (fun (es : experiment * nat) (df : list (row L)) =>
      let experiment := es.1 in
      model <- lift (load_model L (model_fn experiment));;
      if String.eqb (model_fn experiment) "double_integrator_mpc" then
        dynamics <- lift (DoubleIntegrator L);;
        let init_state_range := np_array L (input_range experiment) in
        run_experiment (Some model) (Some dynamics) (Some df) (Some init_state_range)
          (Some partitioners) (Some propagators) (Some partitioner_hyperparams_to_use)
          t_max
      else raise NotImplementedError)
    (flat_map (fun e => map (pair e) (seeds e)) experiments) [].

End Experiments.

End ClosedLoopExperiments.

(* ===================================================================== *)
(** * Part I.f  The engine behind the interfaces of the drivers *)
(* ===================================================================== *)

Module Instances.

Import Engine.

(** ** State ranges written as literals *)

Definition digit_of (c : ascii) : option Z :=
  let n := nat_of_ascii c in
  if (48 <=? n)%nat && (n <=? 57)%nat then Some (Z.of_nat (n - 48)) else None.

(** The digits at the head of the text: their value, their number and the
    rest of the text. *)
Fixpoint parse_digits (cs : list ascii) (acc : Z) (n : nat) : Z * nat * list ascii :=
  match cs with
  | c :: cs' =>
      match digit_of c with
      | Some d => parse_digits cs' (10 * acc + d)%Z (S n)
      | None => (acc, n, cs)
      end
  | [] => (acc, n, [])
  end.

(** A decimal number, [-]digits[.digits]. *)
Definition parse_number (cs : list ascii) : option (Q * list ascii) :=
  let '(negative, cs) :=
    match cs with
    | "-"%char :: cs' => (true, cs')
    | _ => (false, cs)
    end in
  let '(int_part, n, cs) := parse_digits cs 0 0 in
  if (n =? 0)%nat then None else
  let '(frac, m, cs) :=
    match cs with
    | "."%char :: cs' => parse_digits cs' 0 0
    | _ => (0%Z, 0%nat, cs)
    end in
  let q := Qred (inject_Z int_part + Qmake frac (Pos.pow 10 (Pos.of_nat m)))%Q in
  let q := if (m =? 0)%nat then inject_Z int_part else q in
  Some (if negative then Qopp q else q, cs).

(** One row [[lo,hi]]. *)
Definition parse_row (cs : list ascii) : option (Q * Q * list ascii) :=
  match cs with
  | "["%char :: cs =>
      match parse_number cs with
      | Some (lo, ","%char :: cs) =>
          match parse_number cs with
          | Some (hi, "]"%char :: cs) => Some (lo, hi, cs)
          | _ => None
          end
      | _ => None
      end
  | _ => None
  end.

(** The rows of [[[lo,hi],...]] after the opening bracket. *)
Fixpoint parse_rows (fuel : nat) (cs : list ascii) : option (list (Q * Q)) :=
  match fuel with
  | O => None
  | S fuel' =>
      match parse_row cs with
      | Some (lo, hi, ","%char :: cs') =>
          rows ← parse_rows fuel' cs'; Some ((lo, hi) :: rows)
      | Some (lo, hi, ["]"%char]) => Some [(lo, hi)]
      | _ => None
      end
  end.

(** Modelled from the spec: the state range of a configuration, the
    literal [[[lo_1, hi_1], ..., [lo_n, hi_n]]] read as a box; any other
    text raises [ValueError]. *)
Definition range_of_literal (v : value) : G box := fun s =>
  match v with
  | VStr text =>
      let cs := filter (fun c => c ≠ " "%char) (list_ascii_of_string text) in
      match cs with
      | "["%char :: cs' =>
          match parse_rows (length cs') cs' with
          | Some rows => (Ok (Box (map fst rows) (map snd rows)), s)
          | None => (Raise ValueError, s)
          end
      | _ => (Raise ValueError, s)
      end
  | _ => (Raise ValueError, s)
  end.

(** ** The plant and the registries *)

(** Modelled from the spec: the double integrator of scenario 1,
    [A = [[1,1],[0,1]]], [B = [[0.5],[1]]], [c = 0], [u ∈ [−1, 1]]. *)
Definition double_integrator : dynamics :=
  Dynamics [[1; 1]; [0; 1]]%Q [[0.5]; [1]]%Q [0; 0]%Q [-1]%Q [1]%Q 1%Q.

Definition dynamics_instance (ty feedback : value) : G dynamics := fun s =>
  if eq_str ty "DoubleIntegrator" then (Ok double_integrator, s)
  else (Raise (LibraryError "unknown system"), s).

(** Modelled from the spec: the registry of partitioners, for the
    variants None and Uniform. *)
Definition uniform_of_kwargs (kwargs : gmap string value) : G partitioner := fun s =>
  match kwargs !! "num_partitions" with
  | Some (VInts ks) => (Ok (UniformPartitioner (map Z.to_nat ks)), s)
  | Some (VInt k) => (Ok (UniformPartitioner (repeat (Z.to_nat k) 64)), s)
  | _ => (Raise TypeError, s)
  end.

Definition engine_partitioners : gmap string (gmap string value -> G partitioner) :=
  <["Uniform" := uniform_of_kwargs]>
  (<["None" := fun _ s => (Ok NoPartitioner, s)]> ∅).

(** Modelled from the spec: the registry of propagators; of the four
    variants only interval-bound propagation is modelled. *)
Definition engine_propagators : gmap string (gmap string value -> G propagator) :=
  <["IBP" := fun _ s => (Ok IBP, s)]> ∅.

(** ** The analyzer *)

Definition horizon_of (t_max : value) : result nat :=
  match t_max with
  | VInt z => if (z <? 0)%Z then Raise ValueError else Ok (Z.to_nat z)
  | _ => Raise TypeError
  end.

(** Modelled from the spec: the forward analysis of an analyzer whose
    partitioner and propagator have been set; the info dictionary is
    empty. *)
Definition reachable_set
    (a : closed_loop_analyzer dynamics network partitioner propagator)
    (S0 : box) (t_max : value) : G (list box * gmap string value) := fun s =>
  match _partitioner (base a), _propagator (base a), horizon_of t_max with
  | Some part, Some (PropagatorObj P (Some net)), Ok T =>
      (Ok (tube part P (cl_dynamics a) net S0 T, ∅), s)
  | Some _, Some (PropagatorObj _ (Some _)), Raise e => (Raise e, s)
  | _, _, _ => (Raise AttributeError, s)
  end.

(** Modelled from the spec: the error metric of the analyzer, from
    [samples] sampled trajectories. *)
Definition analyzer_error (samples : nat)
    (a : closed_loop_analyzer dynamics network partitioner propagator)
    (S0 : box) (sets : list box) (t_max : value) : G (Q * Q * list Q) := fun s =>
  match horizon_of t_max with
  | Ok T =>
      let '(e, s') := get_error (cl_dynamics a) (torch_model (base a)) samples S0 sets T s in
      (Ok e, s')
  | Raise e => (Raise e, s)
  end.

(** The interface of [example_cfg.py], served by the engine for the
    forward analysis of boxes.  [controllers] are the controllers a name
    can load. *)
Definition example_lib (controllers : gmap string network) (samples : nat)
    : ExampleCfg.Lib :=
  {| ExampleCfg.Dyn := dynamics;
     ExampleCfg.Controller := network;
     ExampleCfg.Partitioner := partitioner;
     ExampleCfg.Propagator := propagator;
     ExampleCfg.Range := box;
     ExampleCfg.Constraint := box;
     ExampleCfg.Sets := list box;
     ExampleCfg.Err := Q;
     ExampleCfg.Errs := list Q;
     ExampleCfg.get_dynamics_instance := dynamics_instance;
     ExampleCfg.load_controller := fun _ name s =>
       match name with
       | VStr n =>
           match controllers !! n with
           | Some net => (Ok net, s)
           | None => (Raise (LibraryError "no such controller"), s)
           end
       | _ => (Raise TypeError, s)
       end;
     ExampleCfg.partitioner_dict := engine_partitioners;
     ExampleCfg.propagator_dict := engine_propagators;
     ExampleCfg.array_of_literal := range_of_literal;
     ExampleCfg.state_range_to_constraint := fun range boundary_type s =>
       if eq_str boundary_type "box" then (Ok range, s)
       else (Raise (LibraryError "boundary type"), s);
     ExampleCfg.get_reachable_set := reachable_set;
     ExampleCfg.get_error := analyzer_error samples;
     ExampleCfg.get_backprojection_set := fun _ _ _ _ s =>
       (Raise (LibraryError "backward analysis"), s);
     ExampleCfg.save_name := fun _ _ _ _ s => (Ok "plot.png", s);
     ExampleCfg.save_name_backward := fun _ _ _ s => (Ok "plot.png", s);
     ExampleCfg.visualize := fun _ _ _ _ _ s => (Ok tt, s);
     ExampleCfg.visualize_backward := fun _ _ _ _ _ s => (Ok tt, s) |}.

(** The interface of [ClosedLoopExperiments.py], served by the engine.
    A range is the list of the boxes over time; the output constraint
    carries the tube [[S_0 … S_T]]. *)
Definition experiments_lib (models : gmap string network) (samples : nat)
    : ClosedLoopExperiments.Lib :=
  {| ClosedLoopExperiments.Model := network;
     ClosedLoopExperiments.Dyn := dynamics;
     ClosedLoopExperiments.Partitioner := string * partitioner;
     ClosedLoopExperiments.Propagator := string * propagator;
     ClosedLoopExperiments.Range := list box;
     ClosedLoopExperiments.InputConstraint := box;
     ClosedLoopExperiments.OutputConstraint := list box;
     ClosedLoopExperiments.Err := Q;
     ClosedLoopExperiments.load_model := fun n s =>
       match models !! n with
       | Some net => (Ok net, s)
       | None => (Raise (LibraryError "no such model"), s)
       end;
     ClosedLoopExperiments.DoubleIntegrator := fun s => (Ok double_integrator, s);
     ClosedLoopExperiments.partitioner_dict :=
       <["Uniform" := fun kwargs s =>
           match uniform_of_kwargs kwargs s with
           | (Ok p, s') => (Ok ("ClosedLoopUniformPartitioner", p), s')
           | (Raise e, s') => (Raise e, s')
           end]>
       (<["None" := fun _ s => (Ok ("ClosedLoopNoPartitioner", NoPartitioner), s)]> ∅);
     ClosedLoopExperiments.propagator_dict :=
       <["IBP" := fun _ s => (Ok ("ClosedLoopIBPPropagator", IBP), s)]> ∅;
     ClosedLoopExperiments.np_array := fun rows =>
       [Box (map (fun r => nth 0 r 0%Q) rows) (map (fun r => nth 1 r 0%Q) rows)];
     ClosedLoopExperiments.shape := fun r =>
       [Z.of_nat (length (lb (hd (Box [] []) r)))];
     ClosedLoopExperiments.LpInputConstraint := fun r s => (Ok (hd (Box [] []) r), s);
     ClosedLoopExperiments.input_range_of := fun S0 => [S0];
     ClosedLoopExperiments.LpOutputConstraint := fun s => (Ok [], s);
     ClosedLoopExperiments.output_range_of := fun sets => sets;
     ClosedLoopExperiments.get_reachable_set := fun a S0 _ t_max s =>
       match _partitioner (base a), _propagator (base a) with
       | Some part, Some (PropagatorObj P (Some net)) =>
           (Ok (tube part.2 P.2 (cl_dynamics a) net S0 (Z.to_nat t_max), ∅), s)
       | _, _ => (Raise AttributeError, s)
       end;
     ClosedLoopExperiments.get_error := fun a S0 sets s =>
       let '(e, s') :=
         get_error (cl_dynamics a) (torch_model (base a)) samples S0 sets
           (pred (length sets)) s in
       (Ok (e.1), s');
     ClosedLoopExperiments.partitioner_name := fst;
     ClosedLoopExperiments.propagator_name := fst |}.

(** ** Test data *)

(** A controller with one hidden layer, [u = −relu(x_1) − relu(x_2)]. *)
Definition brake : network :=
  [Layer [[1; 0]; [0; 1]]%Q [0; 0]%Q ReLU; Layer [[-1; -1]]%Q [0]%Q Linear].

(** A controller that commands nothing. *)
Definition idle : network := [Layer [[0; 0]]%Q [0]%Q Linear].

(** A controller whose interval bound covers the whole actuator range on
    the initial set of scenario 1. *)
Definition swing : network := [Layer [[8; 0]]%Q [-22]%Q Linear].

Definition controllers : gmap string network :=
  <["swing" := swing]> (<["idle" := idle]> (<["brake" := brake]> ∅)).

(** A configuration as [setup_parser] loads it: scenario 1 of the
    specification, for the given controller and partitioner
    hyperparameters; the entries of [analysis] come on top of the
    defaults of the scenario. *)
Definition config_heap (controller : string) (partitioner analysis : gmap string value)
    : gmap loc (gmap string value) :=
  let system : gmap string value :=
    <["type" := VStr "DoubleIntegrator"]>
    (<["feedback" := VStr "FullState"]>
    (<["controller" := VStr controller]> ∅)) in
  let propagator : gmap string value :=
    <["type" := VStr "IBP"]> (<["boundary_type" := VStr "box"]> ∅) in
  let defaults : gmap string value :=
    <["reachability_direction" := VStr "forward"]>
    (<["partitioner" := VRef 3]>
    (<["propagator" := VRef 4]>
    (<["initial_state_range" := VStr "[[2.5, 3.0], [-0.25, 0.25]]"]>
    (<["estimate_runtime" := VBool false]>
    (<["num_calls" := VInt 2]>
    (<["t_max" := VInt 5]>
    (<["estimate_error" := VBool false]> ∅))))))) in
  let visualization : gmap string value :=
    <["save_plot" := VBool false]> (<["show_plot" := VBool false]> ∅) in
  let params : gmap string value :=
    <["system" := VRef 2]>
    (<["analysis" := VRef 5]>
    (<["visualization" := VRef 6]> ∅)) in
  <[1%positive := params]> (<[2%positive := system]> (<[3%positive := partitioner]>
  (<[4%positive := propagator]> (<[5%positive := analysis ∪ defaults]>
  (<[6%positive := visualization]> ∅))))).

Definition config_world (controller : string) (partitioner analysis : gmap string value)
    (seed : Z) : world :=
  World (config_heap controller partitioner analysis)
        seed (fun n => inject_Z (Z.of_nat n)) 0.

(** Scenario 1 with the uniform partitioner. *)
Definition scenario_partitioner : gmap string value :=
  <["type" := VStr "Uniform"]> (<["num_partitions" := VInts [4; 4]%Z]> ∅).

Definition scenario_world : world := config_world "brake" scenario_partitioner ∅ 0.

(** An analyzer as [Analyzer.__init__] leaves it. *)
Definition fresh_analyzer : analyzer network partitioner propagator :=
  Analyzer brake None None.

(** Scenario 1 with a direction that does not exist. *)
Definition sideways_world : world :=
  config_world "brake" scenario_partitioner
    (<["reachability_direction" := VStr "sideways"]> ∅) 0.

Definition no_partitioner : gmap string value := <["type" := VStr "None"]> ∅.

(** Scenario 1, run once without partitioning. *)
Definition once_world : world := config_world "brake" no_partitioner ∅ 42.

(** Scenario 1 with a deadline of 0 ms in the configuration. *)
Definition deadline_world : world :=
  config_world "brake" no_partitioner (<["deadline" := VInt 0]> ∅) 42.

(** Scenario 1 in timing mode with [analysis.seed] set to 7. *)
Definition seeded_world : world :=
  config_world "brake" no_partitioner
    (<["seed" := VInt 7]> (<["estimate_runtime" := VBool true]> ∅)) 7.

(** The same configuration met by a run that starts from another
    generator state and another clock. *)
Definition seeded_world_later : world :=
  World (heap seeded_world) 123456789 (fun n => inject_Z (Z.of_nat (2 * n + 100))) 17.

(** The library of the examples and the initial set of scenario 1. *)
Definition lib : ExampleCfg.Lib := example_lib controllers 3.

Definition S0 : box := Box [2.5; -0.25]%Q [3; 0.25]%Q.

(** Scenario 1: the box the specification expects inside [S_1], and the
    first reachable set computed for a controller, by interval-bound
    propagation without partitioning. *)
Definition expected_in_S1 : box := Box [1.75; -1.25]%Q [3.25; 1.25]%Q.

Definition S1 (net : network) : box :=
  bound_step NoPartitioner IBP double_integrator net S0.

(** The first initial state the error metric samples from seed 0. *)
Definition sampled_x0 : list Q := hd [] (sample S0 1 0).1.

(** The library of the experiments, an analyzer and the dictionaries of
    one experiment row. *)
Definition xlib : ClosedLoopExperiments.Lib := experiments_lib controllers 3.

Definition experiment_analyzer : ClosedLoopExperiments.cl_analyzer xlib :=
  ClosedLoopAnalyzer (Analyzer brake None None) double_integrator.

(** The per-step errors of the tube of scenario 1 when the generator
    starts from [seed]. *)
Definition errors_with_seed (seed : Z) : list Q :=
  (get_error double_integrator brake 3 S0
     (tube NoPartitioner IBP double_integrator brake S0 5) 5 seed).1.2.

(** The hyperparameters of the propagator in the example
    configurations. *)
Definition ibp_propagator : gmap string value :=
  <["type" := VStr "IBP"]> (<["boundary_type" := VStr "box"]> ∅).

(** The outcomes of the example runs, evaluated. *)
Definition once_result := Eval vm_compute in
  ExampleCfg.main_forward lib (VRef 1) once_world.

Definition deadline_result := Eval vm_compute in
  ExampleCfg.main_forward lib (VRef 1) deadline_world.

Definition seeded_result := Eval vm_compute in
  ExampleCfg.main_forward lib (VRef 1) seeded_world.

Definition row_result := Eval vm_compute in
  ClosedLoopExperiments.run_and_add_row xlib experiment_analyzer [S0]
      (VRef 3) (VRef 4) 5 once_world.

End Instances.

(* ===================================================================== *)
(** * Part I.g  Configurations for the edge cases of the drivers *)
(* ===================================================================== *)

Module Cases.

(** The world [w] with the dictionary at [l] replaced. *)
Definition with_dict (l : loc) (d : gmap string value) (w : world) : world :=
  World (<[l := d]> (heap w)) (rng w) (wall w) (now w).

(** The top dictionary of the example configurations, and the [analysis]
    dictionary of a world. *)
Definition params_dict : gmap string value :=
  <["system" := VRef 2]> (<["analysis" := VRef 5]> (<["visualization" := VRef 6]> ∅)).

Definition analysis_of (w : world) : gmap string value :=
  default ∅ (heap w !! 5%positive).

Definition system_dict : gmap string value :=
  <["type" := VStr "DoubleIntegrator"]>
  (<["feedback" := VStr "FullState"]>
  (<["controller" := VStr "brake"]> ∅)).

Definition visualization_dict : gmap string value :=
  <["save_plot" := VBool false]> (<["show_plot" := VBool false]> ∅).

(** Scenario 1 with algorithms the registries do not have. *)
Definition unknown_partitioner : gmap string value := <["type" := VStr "SimGuided"]> ∅.

Definition unknown_partitioner_world : world :=
  Instances.config_world "brake" unknown_partitioner ∅ 0.

Definition unknown_propagator : gmap string value :=
  <["type" := VStr "SDP"]> (<["boundary_type" := VStr "box"]> ∅).

Definition unknown_propagator_world : world :=
  with_dict 4 unknown_propagator Instances.once_world.

(** Scenario 1 with [propagator:] left empty in the YAML file. *)
Definition no_propagator_world : world :=
  Instances.config_world "brake" Instances.no_partitioner (<["propagator" := VNone]> ∅) 0.

(** A backward configuration; it still has the [initial_state_range] of
    scenario 1. *)
Definition backward_analysis : gmap string value :=
  <["reachability_direction" := VStr "backward"]>
  (<["final_state_range" := VStr "[[4.5, 5.0], [-0.25, 0.25]]"]>
  (<["overapprox" := VBool true]> ∅)).

Definition backward_world : world :=
  Instances.config_world "brake" Instances.no_partitioner backward_analysis 0.

Definition backward_timing_world : world :=
  Instances.config_world "brake" Instances.no_partitioner
    (<["estimate_runtime" := VBool true]> backward_analysis) 0.

(** The backward configuration for a system with output feedback. *)
Definition output_feedback_system : gmap string value :=
  <["type" := VStr "DoubleIntegrator"]>
  (<["feedback" := VStr "OutputFeedback"]>
  (<["controller" := VStr "brake"]> ∅)).

Definition output_feedback_world : world :=
  with_dict 2 output_feedback_system backward_world.

(** Scenario 1 in timing mode with no call at all, and with two calls. *)
Definition no_calls_world : world :=
  Instances.config_world "brake" Instances.no_partitioner
    (<["estimate_runtime" := VBool true]> (<["num_calls" := VInt 0]> ∅)) 0.

(** The hyperparameters of a table over two partitioners, and the rows
    the experiment computes for them with interval-bound propagation. *)
Definition table_hyperparams : gmap string (list (string * list value)) :=
  <["Uniform" := [("num_partitions", [VInt 1; VInt 2])]]> (<["None" := []]> ∅).

Definition table_result := Eval vm_compute in
  ClosedLoopExperiments.run_experiment Instances.xlib
    (Some Instances.brake) (Some Instances.double_integrator) None
    (Some [Instances.S0]) (Some ["None"; "Uniform"]) (Some ["IBP"])
    (Some table_hyperparams) 2 Instances.once_world.

(** The library of the experiments with a registry that answers to the
    three default propagator names: the linear-relaxation propagators,
    which the engine does not model, are stood in for by interval-bound
    propagation. *)
Definition default_names_lib : ClosedLoopExperiments.Lib :=
  {| ClosedLoopExperiments.Model := ClosedLoopExperiments.Model Instances.xlib;
     ClosedLoopExperiments.Dyn := ClosedLoopExperiments.Dyn Instances.xlib;
     ClosedLoopExperiments.Partitioner := ClosedLoopExperiments.Partitioner Instances.xlib;
     ClosedLoopExperiments.Propagator := ClosedLoopExperiments.Propagator Instances.xlib;
     ClosedLoopExperiments.Range := ClosedLoopExperiments.Range Instances.xlib;
     ClosedLoopExperiments.InputConstraint :=
       ClosedLoopExperiments.InputConstraint Instances.xlib;
     ClosedLoopExperiments.OutputConstraint :=
       ClosedLoopExperiments.OutputConstraint Instances.xlib;
     ClosedLoopExperiments.Err := ClosedLoopExperiments.Err Instances.xlib;
     ClosedLoopExperiments.load_model := ClosedLoopExperiments.load_model Instances.xlib;
     ClosedLoopExperiments.DoubleIntegrator :=
       ClosedLoopExperiments.DoubleIntegrator Instances.xlib;
     ClosedLoopExperiments.partitioner_dict :=
       ClosedLoopExperiments.partitioner_dict Instances.xlib;
     ClosedLoopExperiments.propagator_dict :=
       <["FastLin" := fun _ s => (Ok ("ClosedLoopFastLinPropagator", Engine.IBP), s)]>
       (<["CROWN" := fun _ s => (Ok ("ClosedLoopCROWNPropagator", Engine.IBP), s)]>
       (ClosedLoopExperiments.propagator_dict Instances.xlib));
     ClosedLoopExperiments.np_array := ClosedLoopExperiments.np_array Instances.xlib;
     ClosedLoopExperiments.shape := ClosedLoopExperiments.shape Instances.xlib;
     ClosedLoopExperiments.LpInputConstraint :=
       ClosedLoopExperiments.LpInputConstraint Instances.xlib;
     ClosedLoopExperiments.input_range_of :=
       ClosedLoopExperiments.input_range_of Instances.xlib;
     ClosedLoopExperiments.LpOutputConstraint :=
       ClosedLoopExperiments.LpOutputConstraint Instances.xlib;
     ClosedLoopExperiments.output_range_of :=
       ClosedLoopExperiments.output_range_of Instances.xlib;
     ClosedLoopExperiments.get_reachable_set :=
       ClosedLoopExperiments.get_reachable_set Instances.xlib;
     ClosedLoopExperiments.get_error := ClosedLoopExperiments.get_error Instances.xlib;
     ClosedLoopExperiments.partitioner_name :=
       ClosedLoopExperiments.partitioner_name Instances.xlib;
     ClosedLoopExperiments.propagator_name :=
       ClosedLoopExperiments.propagator_name Instances.xlib |}.

(** A run of the experiment that names its partitioners and nothing
    else. *)
Definition defaults_result := Eval vm_compute in
  ClosedLoopExperiments.run_experiment default_names_lib
    (Some Instances.brake) (Some Instances.double_integrator) None
    (Some [Instances.S0]) (Some ["None"]) None None 1 Instances.once_world.

(** The library of the examples with a stand-in for the backward
    analysis, which the engine does not model: the backprojection sets it
    returns are the target set alone. *)
Definition backward_lib : ExampleCfg.Lib :=
  {| ExampleCfg.Dyn := ExampleCfg.Dyn Instances.lib;
     ExampleCfg.Controller := ExampleCfg.Controller Instances.lib;
     ExampleCfg.Partitioner := ExampleCfg.Partitioner Instances.lib;
     ExampleCfg.Propagator := ExampleCfg.Propagator Instances.lib;
     ExampleCfg.Range := ExampleCfg.Range Instances.lib;
     ExampleCfg.Constraint := ExampleCfg.Constraint Instances.lib;
     ExampleCfg.Sets := ExampleCfg.Sets Instances.lib;
     ExampleCfg.Err := ExampleCfg.Err Instances.lib;
     ExampleCfg.Errs := ExampleCfg.Errs Instances.lib;
     ExampleCfg.get_dynamics_instance := ExampleCfg.get_dynamics_instance Instances.lib;
     ExampleCfg.load_controller := ExampleCfg.load_controller Instances.lib;
     ExampleCfg.partitioner_dict := ExampleCfg.partitioner_dict Instances.lib;
     ExampleCfg.propagator_dict := ExampleCfg.propagator_dict Instances.lib;
     ExampleCfg.array_of_literal := ExampleCfg.array_of_literal Instances.lib;
     ExampleCfg.state_range_to_constraint :=
       ExampleCfg.state_range_to_constraint Instances.lib;
     ExampleCfg.get_reachable_set := ExampleCfg.get_reachable_set Instances.lib;
     ExampleCfg.get_error := ExampleCfg.get_error Instances.lib;
     ExampleCfg.get_backprojection_set := fun _ target _ _ s => (Ok ([target], ∅), s);
     ExampleCfg.save_name := ExampleCfg.save_name Instances.lib;
     ExampleCfg.save_name_backward := ExampleCfg.save_name_backward Instances.lib;
     ExampleCfg.visualize := ExampleCfg.visualize Instances.lib;
     ExampleCfg.visualize_backward := ExampleCfg.visualize_backward Instances.lib |}.

(** A backward configuration without an initial state range, and what
    the backward driver returns for it. *)
Definition backward_visualization : gmap string value :=
  <["show_policy" := VBool false]> visualization_dict.

Definition backward_only_analysis : gmap string value :=
  <["initial_state_range" := VNone]> backward_analysis.

Definition backward_only_world : world :=
  with_dict 6 backward_visualization
    (Instances.config_world "brake" Instances.no_partitioner backward_only_analysis 0).

Definition backward_result := Eval vm_compute in
  ExampleCfg.main_backward backward_lib (VRef 1) backward_only_world.

(** The library of the experiments when the model file of the table is
    there, and the table computed with it. *)
Definition table_lib : ClosedLoopExperiments.Lib :=
  Instances.experiments_lib (<["double_integrator_mpc" := Instances.brake]> ∅) 3.

Definition collected_result := Eval vm_compute in
  ClosedLoopExperiments.collect_data_for_table table_lib table_hyperparams
    ["IBP"] ["None"; "Uniform"] 2 Instances.once_world.

End Cases.
(* ===================================================================== *)
(** * Part II.a  Soundness of the engine *)
(* ===================================================================== *)

Module EngineFacts.
Import Engine.
Open Scope Q_scope.

(** The propositional reading of the elementwise order. *)
Lemma vle_Forall2 (x y : vec) : vle x y = true <-> Forall2 Qle x y.
Proof.
  revert y; induction x as [|a x IH]; intros [|b y]; simpl;
    try (split; [discriminate | inversion 1]); try (split; [constructor | reflexivity]).
  rewrite andb_true_iff, Qle_bool_iff, IH. split.
  - intros [? ?]; constructor; assumption.
  - inversion 1; subst; split; assumption.
Qed.

Lemma contains_inside (S : box) (p : vec) : contains S p = true <-> inside S p.
Proof. unfold contains, inside. rewrite andb_true_iff, !vle_Forall2. reflexivity. Qed.

Lemma signed_mul (w l x u : Q) : l <= x -> x <= u ->
  Qmax w 0 * l + Qmin w 0 * u <= w * x /\ w * x <= Qmax w 0 * u + Qmin w 0 * l.
Proof.
  intros H1 H2.
  destruct (Qlt_le_dec w 0) as [Hw|Hw].
  - rewrite (Q.max_r w 0), (Q.min_l w 0) by lra. split; nra.
  - rewrite (Q.max_l w 0), (Q.min_r w 0) by lra. split; nra.
Qed.

Lemma dot_bounds (l x u : vec) :
  Forall2 Qle l x -> Forall2 Qle x u -> forall w : vec,
  dot (map (fun w => Qmax w 0) w) l + dot (map (fun w => Qmin w 0) w) u <= dot w x /\
  dot w x <= dot (map (fun w => Qmax w 0) w) u + dot (map (fun w => Qmin w 0) w) l.
Proof.
  intros Hl; revert u; induction Hl as [|a b l x Hab Hl IH]; intros u Hu w.
  - inversion Hu; subst. destruct w; unfold dot; simpl; lra.
  - inversion Hu as [|? c ? u' Hbc Hu']; subst.
    destruct w as [|wi w]; [unfold dot; simpl; lra|].
    specialize (IH _ Hu' w). unfold dot in *; simpl.
    pose proof (signed_mul wi a b c Hab Hbc). lra.
Qed.

Lemma vadd_mono (a b c d : vec) :
  Forall2 Qle a b -> Forall2 Qle c d -> Forall2 Qle (vadd a c) (vadd b d).
Proof.
  intros Hab; revert c d; induction Hab; intros c d Hcd; destruct Hcd; simpl;
    constructor; [unfold qadd; rewrite !Qred_correct; lra | auto].
Qed.

Lemma Forall2_Qle_refl (x : vec) : Forall2 Qle x x.
Proof. induction x; constructor; [lra | assumption]. Qed.

Lemma linear_image_sound (M : mat) (S : box) (x : vec) :
  inside S x -> inside (linear_image M S) (mv M x).
Proof.
  intros [Hl Hu]. unfold inside, linear_image, mpos, mneg, mv, vadd; simpl.
  induction M as [|row M [IHl IHu]]; simpl; [split; constructor|].
  destruct (dot_bounds _ _ _ Hl Hu row).
  split; constructor; try assumption; unfold qadd; rewrite Qred_correct; assumption.
Qed.

Lemma translate_sound (d : vec) (S : box) (x : vec) :
  inside S x -> inside (translate d S) (vadd x d).
Proof.
  intros [Hl Hu]; split; simpl; apply vadd_mono; auto using Forall2_Qle_refl.
Qed.

Lemma minkowski_add_sound (S S' : box) (x y : vec) :
  inside S x -> inside S' y -> inside (minkowski_add S S') (vadd x y).
Proof. intros [? ?] [? ?]; split; simpl; apply vadd_mono; assumption. Qed.

Lemma affine_image_sound (M : mat) (d : vec) (S : box) (x : vec) :
  inside S x -> inside (affine_image M d S) (vadd (mv M x) d).
Proof. intros H. apply translate_sound, linear_image_sound, H. Qed.

Lemma relu_mono (a b : Q) : a <= b -> relu a <= relu b.
Proof. intros H. unfold relu. apply Q.max_le_compat_r, H. Qed.

Lemma activate_mono (f : activation) (a b : vec) :
  Forall2 Qle a b -> Forall2 Qle (activate f a) (activate f b).
Proof.
  intros H. destruct f; simpl; [|assumption].
  induction H; simpl; constructor; auto using relu_mono.
Qed.

Lemma ibp_layer_sound (l : layer) (S : box) (x : vec) :
  inside S x ->
  inside (ibp_layer S l) (activate (act l) (vadd (mv (W l) x) (bias l))).
Proof.
  intros H. destruct (affine_image_sound (W l) (bias l) S x H) as [Hl Hu].
  split; simpl; apply activate_mono; assumption.
Qed.

Lemma IBP_sound : sound_propagator IBP.
Proof.
  intros net S x. rewrite !contains_inside. unfold IBP, eval.
  revert S x; induction net as [|l net IH]; intros S x H; simpl; [assumption|].
  apply IH, ibp_layer_sound, H.
Qed.

Lemma clip_mono (a b lo hi : vec) :
  Forall2 Qle a b -> Forall2 Qle (clip a lo hi) (clip b lo hi).
Proof.
  intros H; revert lo hi; induction H as [|x y a b Hxy H IH]; intros lo hi; simpl;
    [constructor|].
  destruct lo as [|l lo]; [constructor|]. destruct hi as [|h hi]; constructor; [|apply IH].
  apply Q.min_le_compat_r, Q.max_le_compat_r, Hxy.
Qed.

Lemma clip_box_sound (dyn : dynamics) (U : box) (u : vec) :
  inside U u -> inside (clip_box dyn U) (sat dyn u).
Proof. intros [? ?]; split; simpl; apply clip_mono; assumption. Qed.

Lemma step_sound (P : propagator) (dyn : dynamics) (net : network) (S : box) (x : vec) :
  sound_propagator P ->
  inside S x -> inside (step P dyn net S) (closed_loop dyn net x).
Proof.
  intros HP H. unfold step, closed_loop, plant.
  apply translate_sound, minkowski_add_sound.
  - apply linear_image_sound, H.
  - apply linear_image_sound, clip_box_sound.
    apply contains_inside, HP, contains_inside, H.
Qed.

(** ** Hulls *)

Lemma join_sound_l (n : nat) (S S' : box) (x : vec) :
  dim_is n S' -> length x = n -> inside S x -> inside (join S S') x.
Proof.
  intros [Hl Hu] Hx [H1 H2]. split; simpl.
  - clear H2 Hu. revert Hl. generalize (lb S'). subst n.
    induction H1 as [|a b l x Hab H IH]; intros [|c l'] Hlen; simpl in *; try discriminate;
      constructor; [|apply IH; congruence].
    pose proof (Q.le_min_l a c). lra.
  - clear H1 Hl. revert Hu. generalize (ub S'). subst n.
    induction H2 as [|a b x u Hab H IH]; intros [|c u'] Hlen; simpl in *; try discriminate;
      constructor; [|apply IH; congruence].
    pose proof (Q.le_max_l b c). lra.
Qed.

Lemma join_sound_r (n : nat) (S S' : box) (x : vec) :
  dim_is n S -> length x = n -> inside S' x -> inside (join S S') x.
Proof.
  intros [Hl Hu] Hx [H1 H2]. split; simpl.
  - clear H2 Hu. revert Hl. generalize (lb S). subst n.
    induction H1 as [|a b l x Hab H IH]; intros [|c l'] Hlen; simpl in *; try discriminate;
      constructor; [|apply IH; congruence].
    pose proof (Q.le_min_r c a). lra.
  - clear H1 Hl. revert Hu. generalize (ub S). subst n.
    induction H2 as [|a b x u Hab H IH]; intros [|c u'] Hlen; simpl in *; try discriminate;
      constructor; [|apply IH; congruence].
    pose proof (Q.le_max_r c b). lra.
Qed.

Lemma inside_dim (S : box) (x : vec) : inside S x -> dim_is (length x) S.
Proof.
  intros [H1 H2]. split.
  - apply Forall2_length in H1. congruence.
  - apply Forall2_length in H2. congruence.
Qed.

Lemma join_dim (n : nat) (S S' : box) : dim_is n S -> dim_is n S' -> dim_is n (join S S').
Proof.
  intros [? ?] [? ?]. split; simpl; rewrite length_zip_with; lia.
Qed.

Lemma foldl_join_sound (n : nat) (cs : list box) (acc : box) (x : vec) :
  dim_is n acc -> Forall (dim_is n) cs -> length x = n ->
  inside acc x \/ Exists (fun c => inside c x) cs ->
  inside (foldl join acc cs) x.
Proof.
  revert acc; induction cs as [|c cs IH]; intros acc Hacc Hcs Hx H; simpl.
  - destruct H as [H|H]; [assumption | inversion H].
  - inversion Hcs as [|? ? Hc Hcs']; subst.
    apply IH; auto using join_dim.
    destruct H as [H|H].
    + left. eapply join_sound_l; eauto.
    + inversion H; subst; [left; eapply join_sound_r; eauto | right; assumption].
Qed.

Lemma hull_sound (cells : list box) (c : box) (x : vec) :
  Forall (dim_is (length x)) cells -> In c cells -> inside c x ->
  inside (hull cells) x.
Proof.
  intros Hdim Hin Hc. destruct cells as [|c0 cs]; [destruct Hin|].
  inversion Hdim; subst. simpl.
  eapply foldl_join_sound; eauto.
  destruct Hin as [->|Hin]; [left; assumption|right].
  apply List.Exists_exists. exists c; split; assumption.
Qed.

(** Every next-step box has the dimension fixed by the plant, whatever the
    cell it comes from. *)
Lemma step_dim (P : propagator) (dyn : dynamics) (net : network) (S S' : box) :
  dim_is (length (lb (step P dyn net S))) (step P dyn net S').
Proof.
  unfold dim_is, step, translate, minkowski_add, linear_image, vadd, mv, mpos, mneg; simpl.
  rewrite !length_zip_with, !length_map. split; reflexivity.
Qed.

Lemma bound_step_sound (part : partitioner) (P : propagator)
    (dyn : dynamics) (net : network) (S : box) (x : vec) :
  sound_propagator P -> covers part ->
  inside S x -> inside (bound_step part P dyn net S) (closed_loop dyn net x).
Proof.
  intros HP Hpart H. unfold bound_step.
  destruct (Hpart S x) as (c & Hin & Hc); [apply contains_inside, H|].
  apply contains_inside in Hc.
  pose proof (step_sound P dyn net c x HP Hc) as Hstep.
  eapply hull_sound; [| apply in_map, Hin | exact Hstep].
  apply List.Forall_forall. intros b Hb. apply in_map_iff in Hb as (c' & <- & _).
  destruct (inside_dim _ _ Hstep) as [<- _]. apply step_dim.
Qed.

(** ** Partitioners cover the set they split *)

Lemma NoPartitioner_covers : covers NoPartitioner.
Proof. intros S x H. exists S. split; [left; reflexivity | assumption]. Qed.

Lemma inject_succ (i : nat) :
  inject_Z (Z.of_nat (S i)) == inject_Z (Z.of_nat i) + 1.
Proof. rewrite Nat2Z.inj_succ, <- Z.add_1_r, inject_Z_plus. reflexivity. Qed.

Lemma split_interval_cover (l u x : Q) (k : nat) :
  (0 < k)%nat -> l <= x -> x <= u ->
  exists part, In part (split_interval l u k) /\ fst part <= x /\ x <= snd part.
Proof.
  intros Hk Hl Hu. unfold split_interval.
  set (w := (u - l) / inject_Z (Z.of_nat k)).
  assert (Hend : l + inject_Z (Z.of_nat k) * w == u).
  { unfold w. field. intros H0.
    unfold Qeq in H0; simpl in H0. lia. }
  clearbody w.
  assert (Haux : forall j, (0 < j)%nat -> (j <= k)%nat ->
            x <= l + inject_Z (Z.of_nat j) * w ->
            exists i, (i < j)%nat /\ l + inject_Z (Z.of_nat i) * w <= x /\
                      x <= l + inject_Z (Z.of_nat (S i)) * w).
  { induction j as [|j IH]; intros Hj Hjk Hx; [lia|].
    destruct j as [|j].
    - exists 0%nat. split; [lia|]. split; [change (inject_Z (Z.of_nat 0)) with 0; lra | assumption].
    - destruct (Qlt_le_dec x (l + inject_Z (Z.of_nat (S j)) * w)) as [Hlt|Hge].
      + destruct IH as (i & Hi & Hb); [lia | lia | lra |].
        exists i. split; [lia | assumption].
      + exists (S j). split; [lia|]. split; assumption. }
  destruct (Haux k Hk) as (i & Hi & Hlo & Hhi); [lia | lra |].
  exists (l + inject_Z (Z.of_nat i) * w, l + inject_Z (Z.of_nat (S i)) * w).
  split; [|split; assumption].
  apply in_map_iff. exists i. split; [reflexivity|]. apply in_seq. lia.
Qed.

Lemma grid_cover (l : vec) : forall (u x : vec) (ks : list nat),
  Forall (fun k => (0 < k)%nat) ks ->
  Forall2 Qle l x -> Forall2 Qle x u ->
  exists c, In c (grid l u ks) /\ inside c x.
Proof.
  induction l as [|a l IH]; intros u x ks Hks Hl Hu.
  - inversion Hl; subst. inversion Hu; subst.
    exists (Box [] []). split; [left; reflexivity | split; constructor].
  - inversion Hl as [|? xa ? x' Ha Hl']; subst.
    inversion Hu as [|? b ? u' Hb Hu']; subst.
    assert (Htl : Forall (fun k => (0 < k)%nat) (tail ks))
      by (destruct Hks; simpl; [constructor | assumption]).
    destruct (IH u' x' (tail ks) Htl Hl' Hu') as (c & Hc & [Hcl Hcu]).
    assert (Hpart : exists part,
              In part (match ks with
                       | k :: _ => split_interval a b k
                       | [] => [(a, b)]
                       end) /\ fst part <= xa /\ xa <= snd part).
    { destruct Hks as [|k ks Hk _].
      - exists (a, b). split; [left; reflexivity | split; assumption].
      - apply split_interval_cover; assumption. }
    destruct Hpart as (part & Hpart & Hlo & Hhi).
    exists (Box (fst part :: lb c) (snd part :: ub c)). split.
    + simpl. apply in_flat_map. exists part. split; [assumption|].
      apply in_map_iff. exists c. split; [reflexivity | assumption].
    + split; simpl; constructor; assumption.
Qed.

Lemma UniformPartitioner_covers (ks : list nat) :
  Forall (fun k => (0 < k)%nat) ks -> covers (UniformPartitioner ks).
Proof.
  intros Hks S x H. apply contains_inside in H as [Hl Hu].
  destruct (grid_cover (lb S) (ub S) x ks Hks Hl Hu) as (c & Hin & Hc).
  exists c. split; [assumption | apply contains_inside, Hc].
Qed.

(** ** The tube *)

Lemma tube_length (part : partitioner) (P : propagator) (dyn : dynamics)
    (net : network) (T : nat) : forall S0 : box,
  length (tube part P dyn net S0 T) = S T.
Proof. induction T as [|T IH]; intros S0; simpl; [reflexivity | rewrite IH; reflexivity]. Qed.

Lemma simulate_length (dyn : dynamics) (net : network) (T : nat) : forall x : vec,
  length (simulate dyn net x T) = S T.
Proof. induction T as [|T IH]; intros x; simpl; [reflexivity | rewrite IH; reflexivity]. Qed.

Lemma tube_inside (part : partitioner) (P : propagator) (dyn : dynamics)
    (net : network) :
  sound_propagator P -> covers part ->
  forall (T : nat) (S0 : box) (x0 : vec) (t : nat) (St : box) (xt : vec),
    inside S0 x0 ->
    tube part P dyn net S0 T !! t = Some St ->
    simulate dyn net x0 T !! t = Some xt ->
    inside St xt.
Proof.
  intros HP Hpart. induction T as [|T IH]; intros S0 x0 t St xt H0 HS Hx.
  - destruct t as [|t]; simpl in *; [congruence | discriminate].
  - destruct t as [|t]; simpl in *; [congruence|].
    eapply IH; [| exact HS | exact Hx].
    apply bound_step_sound; assumption.
Qed.

(** ** Samples of a box lie in the box *)

Lemma rng_next_range (s : Z) : (0 <= rng_next s < 2147483648)%Z.
Proof. unfold rng_next. apply Z.mod_pos_bound. lia. Qed.

Lemma uniform01_range (s : Z) : 0 <= uniform01 (rng_next s) /\ uniform01 (rng_next s) <= 1.
Proof.
  pose proof (rng_next_range s) as [H0 H1]. unfold uniform01, Qle; simpl. lia.
Qed.

Lemma sample_point_inside (l : vec) : forall (u : vec) (s : Z),
  Forall2 Qle l u -> inside (Box l u) (fst (sample_point l u s)).
Proof.
  induction l as [|a l IH]; intros u s H; inversion H as [|? b ? u' Hab H']; subst; simpl.
  - split; constructor.
  - destruct (sample_point l u' (rng_next s)) as [p s2] eqn:E.
    specialize (IH u' (rng_next s) H'). rewrite E in IH. destruct IH as [IHl IHu].
    destruct (uniform01_range s) as [H0 H1].
    split; simpl; constructor; try assumption; unfold qadd; rewrite Qred_correct; nra.
Qed.

Lemma sample_inside (S : box) (N : nat) : forall (s : Z) (x : vec),
  Forall2 Qle (lb S) (ub S) -> In x (fst (sample S N s)) -> inside S x.
Proof.
  induction N as [|N IH]; intros s x HS Hin; simpl in *; [destruct Hin|].
  pose proof (sample_point_inside (lb S) (ub S) s HS) as Hp.
  destruct (sample_point (lb S) (ub S) s) as [p s1].
  specialize (IH s1 x HS).
  destruct (sample S N s1) as [ps s2]. simpl in *.
  destruct Hin as [<-|Hin]; [destruct S; exact Hp | auto].
Qed.

End EngineFacts.

(* ===================================================================== *)
(** * Part II.b  Reasoning about driver code *)
(* ===================================================================== *)

(** ** Inversion of sequences *)

Lemma bind_inv {A B : Type} (m : M A) (k : A -> M B) (w w' : world) (r : result B) :
  bind m k w = (r, w') ->
  (exists a w1, m w = (Ok a, w1) /\ k a w1 = (r, w')) \/
  (exists e, m w = (Raise e, w') /\ r = Raise e).
Proof.
  unfold bind. destruct (m w) as [[a|e] w1]; intros H.
  - left. eauto.
  - right. injection H as <- <-. eauto.
Qed.

Lemma bind_Ok_inv {A B : Type} (m : M A) (k : A -> M B) (w w' : world) (b : B) :
  bind m k w = (Ok b, w') ->
  exists a w1, m w = (Ok a, w1) /\ k a w1 = (Ok b, w').
Proof.
  intros H. apply bind_inv in H as [H|(e & _ & H)]; [exact H | discriminate].
Qed.

Lemma bind_Ok {A B : Type} (m : M A) (k : A -> M B) (w w1 : world) (a : A) :
  m w = (Ok a, w1) -> bind m k w = k a w1.
Proof. unfold bind. intros ->. reflexivity. Qed.

Lemma bind_Raise {A B : Type} (m : M A) (k : A -> M B) (w w1 : world) (e : exn) :
  m w = (Raise e, w1) -> bind m k w = (Raise e, w1).
Proof. unfold bind. intros ->. reflexivity. Qed.

Ltac invert_run H :=
  repeat (let a := fresh "a" in
          let w := fresh "w" in
          let E := fresh "E" in
          apply bind_Ok_inv in H as (a & w & E & H)).

(** ** Code that leaves the store alone *)

Lemma lift_heap {A : Type} (g : G A) (w w' : world) (r : result A) :
  lift g w = (r, w') -> heap w' = heap w.
Proof. unfold lift. destruct (g (rng w)). intros [= <- <-]. reflexivity. Qed.

Lemma deref_world (err : exn) (v : value) (w w' : world) (r : result (gmap string value)) :
  deref err v w = (r, w') -> w' = w.
Proof.
  unfold deref. destruct v; try (intros [= <- <-]; reflexivity).
  destruct (heap w !! l); intros [= <- <-]; reflexivity.
Qed.

Lemma getitem_world (v : value) (k : string) (w w' : world) (r : result value) :
  getitem v k w = (r, w') -> w' = w.
Proof.
  unfold getitem. intros H. apply bind_inv in H as [(d & w1 & E & H)|(e & E & _)].
  - apply deref_world in E as ->. destruct (d !! k); injection H as <- <-; reflexivity.
  - apply deref_world in E. exact E.
Qed.

Lemma param_world (p : value) (a b : string) (w w' : world) (r : result value) :
  param p a b w = (r, w') -> w' = w.
Proof.
  unfold param. intros H. apply bind_inv in H as [(d & w1 & E & H)|(e & E & _)].
  - apply getitem_world in E as ->. apply getitem_world in H. exact H.
  - apply getitem_world in E. exact E.
Qed.

Lemma truthy_world (v : value) (w w' : world) (r : result bool) :
  truthy v w = (r, w') -> w' = w.
Proof.
  destruct v; simpl; try (intros [= <- <-]; reflexivity).
  intros H. apply bind_inv in H as [(d & w1 & E & H)|(e & E & _)].
  - apply deref_world in E as ->. injection H as <- <-; reflexivity.
  - apply deref_world in E. exact E.
Qed.

Lemma registry_lookup_world {C : Type} (reg : gmap string C) (v : value)
    (w w' : world) (r : result C) :
  registry_lookup reg v w = (r, w') -> w' = w.
Proof.
  destruct v; simpl; try (intros [= <- <-]; reflexivity).
  destruct (reg !! s); intros [= <- <-]; reflexivity.
Qed.

(** ** Frames: the dictionaries that exist stay as they are *)

Lemma extends_refl (w : world) : extends w w.
Proof. intros l _. reflexivity. Qed.

Lemma extends_eq (w w' : world) : heap w' = heap w -> extends w w'.
Proof. intros H l _. rewrite H. reflexivity. Qed.

Lemma extends_trans (w1 w2 w3 : world) : extends w1 w2 -> extends w2 w3 -> extends w1 w3.
Proof.
  intros H12 H23 l Hl. rewrite <- (H12 l Hl). apply H23.
  apply elem_of_dom. rewrite (H12 l Hl). apply elem_of_dom, Hl.
Qed.

Lemma frames_bind {A B : Type} (m : M A) (k : A -> M B) :
  frames m -> (forall a, frames (k a)) -> frames (bind m k).
Proof.
  intros Hm Hk w r w' H. apply bind_inv in H as [(a & w1 & E & H)|(e & E & _)].
  - eapply extends_trans; [eapply Hm, E | eapply Hk, H].
  - eapply Hm, E.
Qed.

Lemma frames_ret {A : Type} (a : A) : frames (ret a).
Proof. intros w r w' [= <- <-]. apply extends_refl. Qed.

Lemma frames_raise {A : Type} (e : exn) : frames (@raise A e).
Proof. intros w r w' [= <- <-]. apply extends_refl. Qed.

Lemma frames_lift {A : Type} (g : G A) : frames (lift g).
Proof. intros w r w' H. apply extends_eq. eapply lift_heap, H. Qed.

Lemma frames_seed (s : Z) : frames (np_random_seed s).
Proof. intros w r w' [= <- <-]. apply extends_eq. reflexivity. Qed.

Lemma frames_time : frames time_time.
Proof. intros w r w' [= <- <-]. apply extends_eq. reflexivity. Qed.

Lemma frames_deref (err : exn) (v : value) : frames (deref err v).
Proof. intros w r w' H. apply deref_world in H as ->. apply extends_refl. Qed.

Lemma frames_getitem (v : value) (k : string) : frames (getitem v k).
Proof. intros w r w' H. apply getitem_world in H as ->. apply extends_refl. Qed.

Lemma frames_param (p : value) (a b : string) : frames (param p a b).
Proof. intros w r w' H. apply param_world in H as ->. apply extends_refl. Qed.

Lemma frames_truthy (v : value) : frames (truthy v).
Proof. intros w r w' H. apply truthy_world in H as ->. apply extends_refl. Qed.

Lemma frames_registry_lookup {C : Type} (reg : gmap string C) (v : value) :
  frames (registry_lookup reg v).
Proof. intros w r w' H. apply registry_lookup_world in H as ->. apply extends_refl. Qed.

Lemma frames_new_dict (d : gmap string value) : frames (new_dict d).
Proof.
  intros w r w' [= <- <-] l Hl. simpl.
  apply lookup_insert_ne. intros <-. exact (is_fresh (dom (heap w)) Hl).
Qed.

Lemma frames_dict_copy (v : value) : frames (dict_copy v).
Proof. apply frames_bind; [apply frames_deref | intros d; apply frames_new_dict]. Qed.

Lemma frames_get_partitioner {Model Partitioner Propagator : Type}
    (self : analyzer Model Partitioner Propagator) : frames (get_partitioner self).
Proof. unfold get_partitioner. destruct (_partitioner self); [apply frames_ret | apply frames_raise]. Qed.

Lemma frames_get_propagator {Model Partitioner Propagator : Type}
    (self : analyzer Model Partitioner Propagator) : frames (get_propagator self).
Proof. unfold get_propagator. destruct (_propagator self); [apply frames_ret | apply frames_raise]. Qed.

(** Popping from a copy touches the copy only. *)
Lemma frames_copy_pop {A : Type} (v : value) (k : string) (dflt : value)
    (rest : value -> value -> M A) :
  (forall c x, frames (rest c x)) ->
  frames (c <- dict_copy v;; x <- dict_pop c k dflt;; rest c x).
Proof.
  intros Hrest w r w' H.
  apply bind_inv in H as [(c & w1 & E & H)|(e & E & _)];
    [|eapply frames_dict_copy, E].
  pose proof (frames_dict_copy v _ _ _ E) as H01.
  unfold dict_copy in E. apply bind_inv in E as [(d & w0 & E0 & E)|(e & _ & [=])].
  apply deref_world in E0 as ->. injection E as <- <-.
  set (l := fresh (dom (heap w))) in *.
  assert (Hl : l ∉ dom (heap w)) by apply is_fresh.
  apply bind_inv in H as [(x & w2 & E & H)|(e & E & _)].
  - eapply extends_trans; [|eapply Hrest, H].
    unfold dict_pop in E. simpl in E. rewrite lookup_insert_eq in E.
    destruct (d !! k); injection E as <- <-; [|exact H01].
    intros l' Hl'. simpl. rewrite lookup_insert_ne by (intros <-; exact (Hl Hl')).
    apply lookup_insert_ne. intros <-; exact (Hl Hl').
  - unfold dict_pop in E. simpl in E. rewrite lookup_insert_eq in E.
    destruct (d !! k); discriminate.
Qed.

Lemma frames_set_partitioner {Model Partitioner Propagator : Type}
    (reg : gmap string (gmap string value -> G Partitioner))
    (self : analyzer Model Partitioner Propagator) (hyperparams : value) :
  frames (set_partitioner reg self hyperparams).
Proof.
  unfold set_partitioner. destruct (is_none hyperparams); [apply frames_ret|].
  apply frames_copy_pop. intros c x.
  apply frames_bind; [apply frames_registry_lookup | intros ctor].
  apply frames_bind; [apply frames_deref | intros kwargs].
  apply frames_bind; [apply frames_lift | intros p; apply frames_ret].
Qed.

Lemma frames_set_propagator {Model Partitioner Propagator : Type}
    (reg : gmap string (gmap string value -> G Propagator))
    (self : analyzer Model Partitioner Propagator) (hyperparams : value) :
  frames (set_propagator reg self hyperparams).
Proof.
  unfold set_propagator. destruct (is_none hyperparams); [apply frames_ret|].
  apply frames_copy_pop. intros c x.
  apply frames_bind; [apply frames_registry_lookup | intros ctor].
  apply frames_bind; [apply frames_deref | intros kwargs].
  apply frames_bind; [apply frames_lift | intros p; apply frames_ret].
Qed.

Lemma frames_if {A : Type} (b : bool) (t e : M A) :
  frames t -> frames e -> frames (if b then t else e).
Proof. destruct b; auto. Qed.

Lemma frames_local {A : Type} (name : string) (x : option A) : frames (local name x).
Proof. destruct x; [apply frames_ret | apply frames_raise]. Qed.

Lemma frames_as_count (v : value) : frames (as_count v).
Proof.
  destruct v; simpl; try apply frames_raise; try apply frames_ret.
  destruct (z <? 0)%Z; [apply frames_raise | apply frames_ret].
Qed.

Lemma frames_get_or_none (v : value) (k : string) : frames (get_or_none v k).
Proof. apply frames_bind; [apply frames_deref | intros d; apply frames_ret]. Qed.

Lemma frames_for_each {X St : Type} (body : X -> St -> M St) (xs : list X) :
  (forall x st, frames (body x st)) -> forall st, frames (for_each body xs st).
Proof.
  intros Hbody. induction xs as [|x xs IH]; intros st; simpl.
  - apply frames_ret.
  - apply frames_bind; [apply Hbody | apply IH].
Qed.

Lemma frames_map_each {X Y : Type} (f : X -> M Y) (xs : list X) :
  (forall x, frames (f x)) -> frames (map_each f xs).
Proof.
  intros Hf. induction xs as [|x xs IH]; simpl.
  - apply frames_ret.
  - apply frames_bind; [apply Hf | intros y].
    apply frames_bind; [apply IH | intros ys; apply frames_ret].
Qed.

Ltac frames_step :=
  first
    [ apply frames_ret | apply frames_raise | apply frames_lift | apply frames_seed
    | apply frames_time | apply frames_deref | apply frames_getitem
    | apply frames_param | apply frames_truthy | apply frames_registry_lookup
    | apply frames_new_dict | apply frames_dict_copy | apply frames_local
    | apply frames_as_count | apply frames_get_or_none
    | apply frames_set_partitioner | apply frames_set_propagator
    | apply frames_get_partitioner | apply frames_get_propagator
    | apply frames_for_each | apply frames_map_each
    | apply frames_if | apply frames_bind
    | match goal with |- frames (match ?x with _ => _ end) => destruct x end
    | intro ].

Ltac frames_auto := repeat frames_step.

Lemma frames_new_analyzer {Model Partitioner Propagator : Type}
    (reg1 : gmap string (gmap string value -> G Partitioner))
    (reg2 : gmap string (gmap string value -> G Propagator)) (model : Model) :
  frames (Analyzer_init reg1 reg2 model).
Proof. unfold Analyzer_init. frames_auto. Qed.

Lemma frames_timing_call (L : ExampleCfg.Lib) (params : value)
    (analyzer : ExampleCfg.cl_analyzer L) (S0 : ExampleCfg.Constraint L)
    (num : nat) (st : ExampleCfg.timing L) :
  frames (ExampleCfg.timing_call L params analyzer S0 num st).
Proof. unfold ExampleCfg.timing_call. frames_auto. Qed.

(** The forward driver leaves every dictionary of the configuration as
    it found it. *)
Lemma frames_main_forward (L : ExampleCfg.Lib) (params : value) :
  frames (ExampleCfg.main_forward L params).
Proof.
  unfold ExampleCfg.main_forward, ExampleCfg.new_cl_analyzer,
    ExampleCfg.set_cl_partitioner, ExampleCfg.set_cl_propagator,
    ExampleCfg.empty_array.
  frames_auto; try apply frames_new_analyzer; try apply frames_timing_call.
Qed.

Lemma frames_main_backward (L : ExampleCfg.Lib) (params : value) :
  frames (ExampleCfg.main_backward L params).
Proof.
  unfold ExampleCfg.main_backward, ExampleCfg.new_cl_analyzer,
    ExampleCfg.set_cl_partitioner, ExampleCfg.set_cl_propagator,
    ExampleCfg.empty_array.
  frames_auto; try apply frames_new_analyzer.
Qed.

Lemma frames_run_and_add_row (L : ClosedLoopExperiments.Lib)
    (analyzer : ClosedLoopExperiments.cl_analyzer L)
    (input_range : ClosedLoopExperiments.Range L) (ph qh : value) (t_max : Z) :
  frames (ClosedLoopExperiments.run_and_add_row L analyzer input_range ph qh t_max).
Proof.
  unfold ClosedLoopExperiments.run_and_add_row,
    ClosedLoopExperiments.set_cl_partitioner, ClosedLoopExperiments.set_cl_propagator.
  frames_auto.
Qed.

(* ===================================================================== *)
(** * Part II.c  The property setters of the analyzer *)
(* ===================================================================== *)

(** ** Dictionary operations on a known store *)

Lemma deref_ref (err : exn) (l : loc) (d : gmap string value) (w : world) :
  heap w !! l = Some d -> deref err (VRef l) w = (Ok d, w).
Proof. unfold deref. intros ->. reflexivity. Qed.

Lemma getitem_ref (l : loc) (d : gmap string value) (k : string) (x : value) (w : world) :
  heap w !! l = Some d -> d !! k = Some x -> getitem (VRef l) k w = (Ok x, w).
Proof.
  intros Hl Hk. unfold getitem. rewrite (bind_Ok _ _ _ _ _ (deref_ref _ _ _ _ Hl)), Hk.
  reflexivity.
Qed.

Lemma param_ref (p la : loc) (dp da : gmap string value) (a b : string) (x : value)
    (w : world) :
  heap w !! p = Some dp -> dp !! a = Some (VRef la) ->
  heap w !! la = Some da -> da !! b = Some x ->
  param (VRef p) a b w = (Ok x, w).
Proof.
  intros Hp Ha Hla Hb. unfold param.
  rewrite (bind_Ok _ _ _ _ _ (getitem_ref _ _ _ _ _ Hp Ha)).
  apply (getitem_ref _ _ _ _ _ Hla Hb).
Qed.

Lemma dict_copy_ref (l : loc) (d : gmap string value) (w : world) :
  heap w !! l = Some d ->
  dict_copy (VRef l) w =
    (Ok (VRef (fresh (dom (heap w)))),
     World (<[fresh (dom (heap w)) := d]> (heap w)) (rng w) (wall w) (now w)).
Proof.
  intros Hl. unfold dict_copy. rewrite (bind_Ok _ _ _ _ _ (deref_ref _ _ _ _ Hl)).
  reflexivity.
Qed.

Lemma dict_pop_ref (l : loc) (d : gmap string value) (k : string) (x dflt : value)
    (w : world) :
  heap w !! l = Some d -> d !! k = Some x ->
  dict_pop (VRef l) k dflt w =
    (Ok x, World (<[l := delete k d]> (heap w)) (rng w) (wall w) (now w)).
Proof. unfold dict_pop. intros -> ->. reflexivity. Qed.

Lemma registry_lookup_Some {C : Type} (reg : gmap string C) (s : string) (c : C)
    (w : world) :
  reg !! s = Some c -> registry_lookup reg (VStr s) w = (Ok c, w).
Proof. unfold registry_lookup. intros ->. reflexivity. Qed.

Lemma registry_lookup_None {C : Type} (reg : gmap string C) (s : string) (w : world) :
  reg !! s = None -> registry_lookup reg (VStr s) w = (Raise (KeyError (VStr s)), w).
Proof. unfold registry_lookup. intros ->. reflexivity. Qed.

(** What the partitioner setter does with a dictionary of hyperparameters
    whose type is registered: the constructor receives the entries of a
    copy without ["type"], and the copy is the only object that changes. *)
Lemma set_partitioner_spec {Model Partitioner Propagator : Type}
    (reg : gmap string (gmap string value -> G Partitioner))
    (self : analyzer Model Partitioner Propagator)
    (l : loc) (d : gmap string value) (ty : string)
    (ctor : gmap string value -> G Partitioner) (w : world) :
  heap w !! l = Some d -> d !! "type" = Some (VStr ty) -> reg !! ty = Some ctor ->
  set_partitioner reg self (VRef l) w =
    (match (ctor (delete "type" d) (rng w)).1 with
     | Ok p => Ok (Analyzer (torch_model self) (Some p) (_propagator self))
     | Raise e => Raise e
     end,
     World (<[fresh (dom (heap w)) := delete "type" d]> (heap w))
           (ctor (delete "type" d) (rng w)).2 (wall w) (now w)).
Proof.
  intros Hl Hty Hreg.
  unfold set_partitioner. cbn [is_none].
  rewrite (bind_Ok _ _ _ _ _ (dict_copy_ref _ _ _ Hl)).
  erewrite bind_Ok; [|apply dict_pop_ref with (d := d); [apply lookup_insert_eq | exact Hty]].
  cbn [heap rng wall now]. rewrite insert_insert_eq.
  rewrite (bind_Ok _ _ _ _ _ (registry_lookup_Some _ _ _ _ Hreg)).
  erewrite bind_Ok; [|apply deref_ref; apply lookup_insert_eq].
  unfold bind, lift, ret. cbn [heap rng wall now].
  destruct (ctor (delete "type" d) (rng w)) as [[p|e] s]; reflexivity.
Qed.

(** A type that is not in the registry: the setter raises [KeyError]. *)
Lemma set_partitioner_unknown {Model Partitioner Propagator : Type}
    (reg : gmap string (gmap string value -> G Partitioner))
    (self : analyzer Model Partitioner Propagator)
    (l : loc) (d : gmap string value) (ty : string) (w : world) :
  heap w !! l = Some d -> d !! "type" = Some (VStr ty) -> reg !! ty = None ->
  (set_partitioner reg self (VRef l) w).1 = Raise (KeyError (VStr ty)).
Proof.
  intros Hl Hty Hreg.
  unfold set_partitioner. cbn [is_none].
  rewrite (bind_Ok _ _ _ _ _ (dict_copy_ref _ _ _ Hl)).
  erewrite bind_Ok; [|apply dict_pop_ref with (d := d); [apply lookup_insert_eq | exact Hty]].
  rewrite (bind_Raise _ _ _ _ _ (registry_lookup_None _ _ _ Hreg)). reflexivity.
Qed.

Lemma set_propagator_unknown {Model Partitioner Propagator : Type}
    (reg : gmap string (gmap string value -> G Propagator))
    (self : analyzer Model Partitioner Propagator)
    (l : loc) (d : gmap string value) (ty : string) (w : world) :
  heap w !! l = Some d -> d !! "type" = Some (VStr ty) -> reg !! ty = None ->
  (set_propagator reg self (VRef l) w).1 = Raise (KeyError (VStr ty)).
Proof.
  intros Hl Hty Hreg.
  unfold set_propagator. cbn [is_none].
  rewrite (bind_Ok _ _ _ _ _ (dict_copy_ref _ _ _ Hl)).
  erewrite bind_Ok; [|apply dict_pop_ref with (d := d); [apply lookup_insert_eq | exact Hty]].
  rewrite (bind_Raise _ _ _ _ _ (registry_lookup_None _ _ _ Hreg)). reflexivity.
Qed.

(** A registry only answers to strings. *)
Lemma registry_lookup_Ok_inv {C : Type} (reg : gmap string C) (v : value) (c : C)
    (w w' : world) :
  registry_lookup reg v w = (Ok c, w') -> exists s, v = VStr s /\ reg !! s = Some c.
Proof.
  destruct v; simpl; try discriminate.
  destruct (reg !! s) eqn:E; [|discriminate]. intros [= <- <-]. eauto.
Qed.

(** When the propagator setter returns for a dictionary, the new
    propagator has the model of the analyzer as its network, and the
    model and the partitioner of the analyzer are as before. *)
Lemma set_propagator_Ok_inv {Model Partitioner Propagator : Type}
    (reg : gmap string (gmap string value -> G Propagator))
    (self a : analyzer Model Partitioner Propagator) (l : loc) (w w' : world) :
  set_propagator reg self (VRef l) w = (Ok a, w') ->
  torch_model a = torch_model self /\ _partitioner a = _partitioner self /\
  exists p, _propagator a = Some (PropagatorObj p (Some (torch_model self))).
Proof.
  unfold set_propagator. cbn [is_none]. intros H. invert_run H.
  match goal with
  | E : registry_lookup _ _ _ = _ |- _ => apply registry_lookup_Ok_inv in E as (s & -> & _)
  end.
  injection H as <- <-. cbn. eauto.
Qed.

Lemma set_partitioner_Ok_inv {Model Partitioner Propagator : Type}
    (reg : gmap string (gmap string value -> G Partitioner))
    (self a : analyzer Model Partitioner Propagator) (hp : value) (w w' : world) :
  set_partitioner reg self hp w = (Ok a, w') ->
  torch_model a = torch_model self /\ _propagator a = _propagator self.
Proof.
  unfold set_partitioner. destruct (is_none hp).
  - intros [= <- <-]. split; reflexivity.
  - intros H. invert_run H. injection H as <- <-. split; reflexivity.
Qed.

(** C8.  Setting the partitioner or the propagator of an analyzer from a
    dictionary of hyperparameters leaves that dictionary, and every other
    dictionary of the store, with all its entries, ["type"] included: the
    setter pops ["type"] from a copy.  This holds whether the setter
    returns or raises. *)
Theorem setters_leave_hyperparams {Model Partitioner Propagator : Type}
    (partitioner_dict : gmap string (gmap string value -> G Partitioner))
    (propagator_dict : gmap string (gmap string value -> G Propagator))
    (self : analyzer Model Partitioner Propagator) (hyperparams : value)
    (w : world) (l : loc) (d : gmap string value) :
  heap w !! l = Some d ->
  heap (set_partitioner partitioner_dict self hyperparams w).2 !! l = Some d /\
  heap (set_propagator propagator_dict self hyperparams w).2 !! l = Some d.
Proof.
  intros Hl.
  assert (Hdom : l ∈ dom (heap w)) by (apply elem_of_dom; eauto).
  split.
  - destruct (set_partitioner partitioner_dict self hyperparams w) as [r w'] eqn:E.
    simpl. rewrite (frames_set_partitioner _ _ _ _ _ _ E l Hdom). exact Hl.
  - destruct (set_propagator propagator_dict self hyperparams w) as [r w'] eqn:E.
    simpl. rewrite (frames_set_propagator _ _ _ _ _ _ E l Hdom). exact Hl.
Qed.

Lemma setters_leave_hyperparams_witness :
  heap Instances.scenario_world !! 3%positive = Some Instances.scenario_partitioner /\
  heap (set_partitioner Instances.engine_partitioners Instances.fresh_analyzer
          (VRef 3) Instances.scenario_world).2 !! 3%positive
    = Some Instances.scenario_partitioner /\
  heap (set_propagator Instances.engine_propagators Instances.fresh_analyzer
          (VRef 3) Instances.scenario_world).2 !! 3%positive
    = Some Instances.scenario_partitioner.
Proof.
  split; [reflexivity|].
  apply (setters_leave_hyperparams Instances.engine_partitioners
           Instances.engine_propagators Instances.fresh_analyzer (VRef 3)
           Instances.scenario_world 3%positive Instances.scenario_partitioner).
  reflexivity.
Defined.

(* ===================================================================== *)
(** * Part II.d  Unknown values in the configuration *)
(* ===================================================================== *)

Lemma frames_example_set_partitioner (L : ExampleCfg.Lib)
    (a : ExampleCfg.cl_analyzer L) (hp : value) :
  frames (ExampleCfg.set_cl_partitioner L a hp).
Proof. unfold ExampleCfg.set_cl_partitioner. frames_auto. Qed.

Lemma frames_example_set_propagator (L : ExampleCfg.Lib)
    (a : ExampleCfg.cl_analyzer L) (hp : value) :
  frames (ExampleCfg.set_cl_propagator L a hp).
Proof. unfold ExampleCfg.set_cl_propagator. frames_auto. Qed.

Lemma frames_example_new_analyzer (L : ExampleCfg.Lib)
    (c : ExampleCfg.Controller L) (dyn : ExampleCfg.Dyn L) :
  frames (ExampleCfg.new_cl_analyzer L c dyn).
Proof. unfold ExampleCfg.new_cl_analyzer. frames_auto; apply frames_new_analyzer. Qed.

(** From the steps of a run to the frame of each step. *)
Ltac note_frames :=
  repeat match goal with
  | E : ?m ?w1 = (_, ?w2) |- _ =>
      lazymatch goal with
      | _ : extends w1 w2 |- _ => fail
      | _ =>
          assert (extends w1 w2)
            by (refine ((_ : frames m) _ _ _ E);
                first [ apply frames_example_set_partitioner
                      | apply frames_example_set_propagator
                      | apply frames_example_new_analyzer
                      | frames_auto ])
      end
  end.

Ltac chain_frames w :=
  repeat match goal with
  | H1 : extends w ?w1, H2 : extends ?w1 ?w2 |- _ =>
      lazymatch goal with
      | _ : extends w w2 |- _ => fail
      | _ => pose proof (extends_trans _ _ _ H1 H2)
      end
  end.

Lemma extends_lookup (w w' : world) (l : loc) (d : gmap string value) :
  extends w w' -> heap w !! l = Some d -> heap w' !! l = Some d.
Proof. intros H Hl. rewrite (H l); [exact Hl | apply elem_of_dom; eauto]. Qed.

(** An [analysis.partitioner.type] that is not in the registry is fatal
    for the forward driver: it never returns. *)
Lemma main_forward_unknown_partitioner (L : ExampleCfg.Lib) (p la lp : loc)
    (dp da d : gmap string value) (ty : string) (w : world) :
  heap w !! p = Some dp -> dp !! "analysis" = Some (VRef la) ->
  heap w !! la = Some da -> da !! "partitioner" = Some (VRef lp) ->
  heap w !! lp = Some d -> d !! "type" = Some (VStr ty) ->
  ExampleCfg.partitioner_dict L !! ty = None ->
  exists e, (ExampleCfg.main_forward L (VRef p) w).1 = Raise e.
Proof.
  intros Hp Han Hla Hpart Hlp Hty Hreg.
  destruct (ExampleCfg.main_forward L (VRef p) w) as [[r|e] w'] eqn:H; [exfalso | eauto].
  unfold ExampleCfg.main_forward in H.
  do 8 (let a := fresh "a" in let w := fresh "w" in let E := fresh "E" in
        apply bind_Ok_inv in H as (a & w & E & H)).
  apply bind_Ok_inv in H as (a7 & w8 & E7 & _).
  note_frames. chain_frames w.
  assert (Hw6 : extends w w6) by assumption.
  rewrite (param_ref p la dp da _ _ (VRef lp) w6 (extends_lookup _ _ _ _ Hw6 Hp) Han
             (extends_lookup _ _ _ _ Hw6 Hla) Hpart) in E6.
  injection E6 as <- <-.
  unfold ExampleCfg.set_cl_partitioner in E7.
  apply bind_Ok_inv in E7 as (b & w9 & E7 & _).
  pose proof (set_partitioner_unknown (ExampleCfg.partitioner_dict L)
                (base a5) lp d ty w6 (extends_lookup _ _ _ _ Hw6 Hlp) Hty Hreg) as Hraise.
  rewrite E7 in Hraise. discriminate.
Qed.

(** The same for an [analysis.propagator.type] that is not in the
    registry. *)
Lemma main_forward_unknown_propagator (L : ExampleCfg.Lib) (p la lp : loc)
    (dp da d : gmap string value) (ty : string) (w : world) :
  heap w !! p = Some dp -> dp !! "analysis" = Some (VRef la) ->
  heap w !! la = Some da -> da !! "propagator" = Some (VRef lp) ->
  heap w !! lp = Some d -> d !! "type" = Some (VStr ty) ->
  ExampleCfg.propagator_dict L !! ty = None ->
  exists e, (ExampleCfg.main_forward L (VRef p) w).1 = Raise e.
Proof.
  intros Hp Han Hla Hprop Hlp Hty Hreg.
  destruct (ExampleCfg.main_forward L (VRef p) w) as [[r|e] w'] eqn:H; [exfalso | eauto].
  unfold ExampleCfg.main_forward in H.
  do 10 (let a := fresh "a" in let w := fresh "w" in let E := fresh "E" in
         apply bind_Ok_inv in H as (a & w & E & H)).
  apply bind_Ok_inv in H as (a9 & w10 & E9 & _).
  note_frames. chain_frames w.
  assert (Hw8 : extends w w8) by assumption.
  rewrite (param_ref p la dp da _ _ (VRef lp) w8 (extends_lookup _ _ _ _ Hw8 Hp) Han
             (extends_lookup _ _ _ _ Hw8 Hla) Hprop) in E8.
  injection E8 as <- <-.
  unfold ExampleCfg.set_cl_propagator in E9.
  apply bind_Ok_inv in E9 as (b & w11 & E9 & _).
  pose proof (set_propagator_unknown (ExampleCfg.propagator_dict L)
                (base a7) lp d ty w8 (extends_lookup _ _ _ _ Hw8 Hlp) Hty Hreg) as Hraise.
  rewrite E9 in Hraise. discriminate.
Qed.

(** With the direction ["forward"], an error of the forward driver is an
    error of the program. *)
Lemma main_forward_error (L : ExampleCfg.Lib) (p la : loc)
    (dp da : gmap string value) (e : exn) (w : world) :
  heap w !! p = Some dp -> dp !! "analysis" = Some (VRef la) ->
  heap w !! la = Some da -> da !! "reachability_direction" = Some (VStr "forward") ->
  (ExampleCfg.main_forward L (VRef p) w).1 = Raise e ->
  (ExampleCfg.main L (VRef p) w).1 = Raise e.
Proof.
  intros Hp Han Hla Hdir Hraise. unfold ExampleCfg.main.
  rewrite (bind_Ok _ _ _ _ _ (param_ref _ _ _ _ _ _ _ _ Hp Han Hla Hdir)).
  cbn [eq_str]. change (String.eqb "forward" "forward") with true. cbv iota.
  destruct (ExampleCfg.main_forward L (VRef p) w) as [[r|e'] w'] eqn:E;
    simpl in Hraise; [discriminate|]. injection Hraise as ->.
  erewrite bind_Raise; [reflexivity|].
  erewrite bind_Raise; [reflexivity | exact E].
Qed.

(** C3.  A configuration whose [analysis.reachability_direction] is
    neither ["forward"] nor ["backward"]: the main program runs no
    analysis and ends normally, the world as it was, where the claim
    asks for a fatal configuration error. *)
Theorem main_unknown_direction_is_silent (L : ExampleCfg.Lib) (p la : loc)
    (dp da : gmap string value) (direction : value) (w : world) :
  heap w !! p = Some dp -> dp !! "analysis" = Some (VRef la) ->
  heap w !! la = Some da -> da !! "reachability_direction" = Some direction ->
  eq_str direction "forward" = false -> eq_str direction "backward" = false ->
  ExampleCfg.main L (VRef p) w = (Ok tt, w).
Proof.
  intros Hp Han Hla Hdir Hf Hb. unfold ExampleCfg.main.
  rewrite (bind_Ok _ _ _ _ _ (param_ref _ _ _ _ _ _ _ _ Hp Han Hla Hdir)), Hf.
  rewrite (bind_Ok _ _ _ _ _ (eq_refl : ret tt w = (Ok tt, w))).
  rewrite (bind_Ok _ _ _ _ _ (param_ref _ _ _ _ _ _ _ _ Hp Han Hla Hdir)), Hb.
  reflexivity.
Qed.

Lemma main_unknown_direction_is_silent_witness :
  ExampleCfg.main (Instances.example_lib Instances.controllers 3) (VRef 1)
    Instances.sideways_world = (Ok tt, Instances.sideways_world).
Proof.
  apply (main_unknown_direction_is_silent _ 1%positive 5%positive
           (<["system" := VRef 2]> (<["analysis" := VRef 5]>
              (<["visualization" := VRef 6]> ∅)))
           (default ∅ (heap Instances.sideways_world !! 5%positive))
           (VStr "sideways") Instances.sideways_world);
    reflexivity.
Defined.

(* ===================================================================== *)
(** * Part II.e  Determinism *)
(* ===================================================================== *)

Lemma related_ret {A : Type} (R : A -> A -> Prop) (a b : A) :
  R a b -> related R (ret a) (ret b).
Proof. intros H w1 w2 Hw. split; assumption. Qed.

Lemma related_raise {A : Type} (R : A -> A -> Prop) (e : exn) :
  related R (raise e) (raise e).
Proof. intros w1 w2 Hw. split; [reflexivity | assumption]. Qed.

Lemma related_bind {A B : Type} (R : A -> A -> Prop) (R' : B -> B -> Prop)
    (m1 m2 : M A) (k1 k2 : A -> M B) :
  related R m1 m2 -> (forall a b, R a b -> related R' (k1 a) (k2 b)) ->
  related R' (bind m1 k1) (bind m2 k2).
Proof.
  intros Hm Hk w1 w2 Hw. specialize (Hm w1 w2 Hw). unfold bind, agree in *.
  destruct (m1 w1) as [[a|e] w1'], (m2 w2) as [[b|e'] w2']; simpl in Hm;
    destruct Hm as [HR Hw']; try contradiction.
  - apply Hk; assumption.
  - split; assumption.
Qed.

Lemma related_weaken {A : Type} (R R' : A -> A -> Prop) (m1 m2 : M A) :
  (forall a b, R a b -> R' a b) -> related R m1 m2 -> related R' m1 m2.
Proof.
  intros HR Hm w1 w2 Hw. specialize (Hm w1 w2 Hw). unfold agree in *.
  destruct (m1 w1) as [[a|e] w1'], (m2 w2) as [[b|e'] w2']; simpl in *;
    destruct Hm as [H Hw']; split; auto.
Qed.

Lemma related_lift {A : Type} (g : G A) : related eq (lift g) (lift g).
Proof.
  intros w1 w2 [Hh Hr]. unfold lift. rewrite Hr.
  destruct (g (rng w2)) as [[a|e] s]; (split; [reflexivity | split; assumption || reflexivity]).
Qed.

Lemma related_seed (s : Z) : related eq (np_random_seed s) (np_random_seed s).
Proof. intros w1 w2 [Hh Hr]. split; [reflexivity | split; [assumption | reflexivity]]. Qed.

(** The clock is what two runs may see differently. *)
Lemma related_time : related (fun _ _ => True) time_time time_time.
Proof. intros w1 w2 [Hh Hr]. split; [exact I | split; assumption]. Qed.

Lemma related_deref (err : exn) (v : value) : related eq (deref err v) (deref err v).
Proof.
  intros w1 w2 [Hh Hr]. unfold deref.
  destruct v; try (split; [reflexivity | split; assumption]).
  rewrite Hh. destruct (heap w2 !! l); (split; [reflexivity | split; assumption]).
Qed.

Lemma related_new_dict (d : gmap string value) : related eq (new_dict d) (new_dict d).
Proof.
  intros w1 w2 [Hh Hr]. unfold new_dict. rewrite Hh.
  split; [reflexivity | split; [reflexivity | assumption]].
Qed.

Lemma related_dict_pop (v : value) (k : string) (dflt : value) :
  related eq (dict_pop v k dflt) (dict_pop v k dflt).
Proof.
  intros w1 w2 [Hh Hr]. unfold dict_pop.
  destruct v; try (split; [reflexivity | split; assumption]).
  rewrite Hh. destruct (heap w2 !! l) as [d|]; [|split; [reflexivity | split; assumption]].
  destruct (d !! k); (split; [reflexivity | split; simpl; congruence]).
Qed.

Lemma related_setitem (v : value) (k : string) (x : value) :
  related eq (setitem v k x) (setitem v k x).
Proof.
  intros w1 w2 [Hh Hr]. unfold setitem.
  destruct v; try (split; [reflexivity | split; assumption]).
  rewrite Hh. destruct (heap w2 !! l) as [d|]; (split; [reflexivity | split; simpl; congruence]).
Qed.

Lemma related_if {A : Type} (R : A -> A -> Prop) (b : bool) (t1 t2 e1 e2 : M A) :
  related R t1 t2 -> related R e1 e2 ->
  related R (if b then t1 else e1) (if b then t2 else e2).
Proof. destruct b; auto. Qed.

(** One step of a proof that a piece of code is related to itself. *)
Ltac rel_step :=
  lazymatch goal with
  | |- related _ (bind time_time _) (bind time_time _) =>
      apply related_bind with (R := fun _ _ => True); [apply related_time | intros ? ? _]
  | |- related _ (bind ?m _) (bind ?m _) =>
      apply related_bind with (R := eq); [| intros ? ? <-]
  | |- related _ (if ?b then _ else _) (if ?b then _ else _) => apply related_if
  | |- related _ (ret _) (ret _) => apply related_ret; try reflexivity
  | |- related _ (raise _) (raise _) => apply related_raise
  | |- related _ (lift _) (lift _) => apply related_lift
  | |- related _ (np_random_seed _) (np_random_seed _) => apply related_seed
  | |- related _ (deref _ _) (deref _ _) => apply related_deref
  | |- related _ (new_dict _) (new_dict _) => apply related_new_dict
  | |- related _ (dict_pop _ _ _) (dict_pop _ _ _) => apply related_dict_pop
  | |- related _ (setitem _ _ _) (setitem _ _ _) => apply related_setitem
  | |- related _ (match ?x with _ => _ end) (match ?x with _ => _ end) => destruct x
  end.

Ltac rel_auto := repeat rel_step.

Lemma related_getitem (v : value) (k : string) : related eq (getitem v k) (getitem v k).
Proof. unfold getitem. rel_auto. Qed.

Lemma related_param (p : value) (a b : string) : related eq (param p a b) (param p a b).
Proof. unfold param. rel_auto; apply related_getitem. Qed.

Lemma related_get_or_none (v : value) (k : string) :
  related eq (get_or_none v k) (get_or_none v k).
Proof. unfold get_or_none. rel_auto. Qed.

Lemma related_truthy (v : value) : related eq (truthy v) (truthy v).
Proof. destruct v; simpl; rel_auto. Qed.

Lemma related_as_count (v : value) : related eq (as_count v) (as_count v).
Proof. destruct v; simpl; rel_auto. Qed.

Lemma related_local {A : Type} (name : string) (x : option A) :
  related eq (local name x) (local name x).
Proof. unfold local. rel_auto. Qed.

Lemma related_dict_copy (v : value) : related eq (dict_copy v) (dict_copy v).
Proof. unfold dict_copy. rel_auto. Qed.

Lemma related_registry_lookup {C : Type} (reg : gmap string C) (v : value) :
  related eq (registry_lookup reg v) (registry_lookup reg v).
Proof. unfold registry_lookup. destruct v; rel_auto. Qed.

Lemma related_set_partitioner {Model Partitioner Propagator : Type}
    (reg : gmap string (gmap string value -> G Partitioner))
    (self : analyzer Model Partitioner Propagator) (hp : value) :
  related eq (set_partitioner reg self hp) (set_partitioner reg self hp).
Proof.
  unfold set_partitioner. rel_auto;
    first [apply related_dict_copy | apply related_registry_lookup].
Qed.

Lemma related_set_propagator {Model Partitioner Propagator : Type}
    (reg : gmap string (gmap string value -> G Propagator))
    (self : analyzer Model Partitioner Propagator) (hp : value) :
  related eq (set_propagator reg self hp) (set_propagator reg self hp).
Proof.
  unfold set_propagator. rel_auto;
    first [apply related_dict_copy | apply related_registry_lookup].
Qed.

Lemma related_Analyzer_init {Model Partitioner Propagator : Type}
    (reg1 : gmap string (gmap string value -> G Partitioner))
    (reg2 : gmap string (gmap string value -> G Propagator)) (model : Model) :
  related eq (Analyzer_init reg1 reg2 model) (Analyzer_init reg1 reg2 model).
Proof.
  unfold Analyzer_init. rel_auto;
    first [apply related_set_partitioner | apply related_set_propagator].
Qed.

Lemma related_for_each {X St : Type} (R : St -> St -> Prop)
    (body1 body2 : X -> St -> M St) (xs : list X) :
  (forall x st1 st2, R st1 st2 -> related R (body1 x st1) (body2 x st2)) ->
  forall st1 st2, R st1 st2 -> related R (for_each body1 xs st1) (for_each body2 xs st2).
Proof.
  intros Hbody. induction xs as [|x xs IH]; intros st1 st2 Hst; simpl.
  - apply related_ret, Hst.
  - eapply related_bind; [apply Hbody, Hst | intros a b Hab; apply IH, Hab].
Qed.

Lemma related_map_each {X Y : Type} (f : X -> M Y) (xs : list X) :
  (forall x, related eq (f x) (f x)) -> related eq (map_each f xs) (map_each f xs).
Proof.
  intros Hf. induction xs as [|x xs IH]; simpl; rel_auto; auto.
Qed.

Ltac rel_all :=
  repeat first
    [ apply related_param | apply related_getitem | apply related_get_or_none
    | apply related_truthy | apply related_as_count | apply related_local
    | apply related_dict_copy | apply related_registry_lookup
    | apply related_set_partitioner | apply related_set_propagator
    | apply related_Analyzer_init
    | apply related_map_each; intro
    | rel_step ].

(** The steps up to the next branch whose result the continuation
    keeps. *)
Ltac rel_prefix :=
  repeat lazymatch goal with
  | |- related _ (bind (if _ then _ else _) _) _ => fail
  | |- related _ (bind time_time _) _ =>
      apply related_bind with (R := fun _ _ => True); [apply related_time | intros ? ? _]
  | |- related _ (bind _ _) _ =>
      apply related_bind with (R := eq); [solve [rel_all] | intros ? ? <-]
  end.

Lemma related_example_setters (L : ExampleCfg.Lib) (a : ExampleCfg.cl_analyzer L)
    (hp : value) :
  related eq (ExampleCfg.set_cl_partitioner L a hp) (ExampleCfg.set_cl_partitioner L a hp) /\
  related eq (ExampleCfg.set_cl_propagator L a hp) (ExampleCfg.set_cl_propagator L a hp).
Proof.
  unfold ExampleCfg.set_cl_partitioner, ExampleCfg.set_cl_propagator. split; rel_all.
Qed.

Lemma related_empty_array (L : ExampleCfg.Lib) {A : Type} (params : value) (a : A) :
  related eq (ExampleCfg.empty_array params a) (ExampleCfg.empty_array params a).
Proof. unfold ExampleCfg.empty_array. rel_all. Qed.

Lemma related_timing_call (L : ExampleCfg.Lib) (params : value)
    (analyzer : ExampleCfg.cl_analyzer L) (S0 : ExampleCfg.Constraint L) (num : nat)
    (st1 st2 : ExampleCfg.timing L) :
  ExampleCfg.same_but_times st1 st2 ->
  related ExampleCfg.same_but_times
    (ExampleCfg.timing_call L params analyzer S0 num st1)
    (ExampleCfg.timing_call L params analyzer S0 num st2).
Proof.
  intros (H1 & H2 & H3 & H4 & H5 & H6). unfold ExampleCfg.timing_call.
  rel_prefix. destruct (num =? 0)%nat.
  - rel_prefix. apply related_ret. unfold ExampleCfg.same_but_times; simpl.
    rewrite H1, H2, H3, H4. repeat split; reflexivity.
  - apply related_ret. unfold ExampleCfg.same_but_times; simpl.
    repeat split; assumption.
Qed.

Lemma related_main_forward (L : ExampleCfg.Lib) (params : value) :
  related ExampleCfg.same_but_runtimes
    (ExampleCfg.main_forward L params) (ExampleCfg.main_forward L params).
Proof.
  unfold ExampleCfg.main_forward, ExampleCfg.new_cl_analyzer.
  pose proof (related_example_setters L) as Hset.
  repeat lazymatch goal with
  | |- related _ (bind (if _ then _ else _) _) _ => fail
  | |- related _ (bind (ExampleCfg.set_cl_partitioner _ _ _) _) _ =>
      apply related_bind with (R := eq); [apply Hset | intros ? ? <-]
  | |- related _ (bind (ExampleCfg.set_cl_propagator _ _ _) _) _ =>
      apply related_bind with (R := eq); [apply Hset | intros ? ? <-]
  | |- related _ (bind _ _) _ =>
      apply related_bind with (R := eq); [solve [rel_all] | intros ? ? <-]
  end.
  apply related_bind with
    (R := fun r1 r2 : gmap string (ExampleCfg.stat L) * option (ExampleCfg.Sets L) *
                      option (gmap string value) =>
            r1.1.2 = r2.1.2 /\ r1.2 = r2.2 /\
            forall k : string, k ≠ "runtimes" -> r1.1.1 !! k = r2.1.1 !! k).
  - match goal with |- related _ (if ?b then _ else _) _ => destruct b end.
    + do 5 (apply related_bind with (R := eq);
            [apply (related_empty_array L) | intros ? ? <-]).
      rel_prefix.
      eapply related_bind.
      * apply related_for_each with (R := ExampleCfg.same_but_times);
          [intros; apply related_timing_call; assumption |].
        repeat split.
      * intros st1 st2 (H1 & H2 & H3 & H4 & H5 & H6). apply related_ret. simpl.
        split; [assumption|]. split; [assumption|]. intros k Hk.
        rewrite H2, H3, H4, H1.
        rewrite !lookup_insert. repeat case_decide; try reflexivity. congruence.
    + rel_prefix. apply related_ret. simpl. repeat split.
  - intros [[stats1 rs1] info1] [[stats2 rs2] info2] (Hrs & Hinfo & Hstats).
    simpl in Hrs, Hinfo, Hstats. subst rs2 info2.
    do 11 (apply related_bind with (R := eq); [solve [rel_all] | intros ? ? <-]).
    apply related_ret. split; [reflexivity | exact Hstats].
Qed.

Lemma related_main_backward (L : ExampleCfg.Lib) (params : value) :
  related eq (ExampleCfg.main_backward L params) (ExampleCfg.main_backward L params).
Proof.
  unfold ExampleCfg.main_backward, ExampleCfg.new_cl_analyzer.
  pose proof (related_example_setters L) as Hset.
  repeat lazymatch goal with
  | |- related _ (bind (ExampleCfg.set_cl_partitioner _ _ _) _) _ =>
      apply related_bind with (R := eq); [apply Hset | intros ? ? <-]
  | |- related _ (bind (ExampleCfg.set_cl_propagator _ _ _) _) _ =>
      apply related_bind with (R := eq); [apply Hset | intros ? ? <-]
  | |- related _ (bind (if _ then bind (ExampleCfg.empty_array _ _) _ else _) _) _ =>
      apply related_bind with (R := eq);
        [ apply related_if;
          [ do 5 (apply related_bind with (R := eq);
                  [apply (related_empty_array L) | intros ? ? <-]);
            apply related_raise
          | solve [rel_all] ]
        | intros ? ? <- ]
  | |- related _ (bind _ _) _ =>
      apply related_bind with (R := eq); [solve [rel_all] | intros ? ? <-]
  | |- related _ (match ?r with _ => _ end) _ => destruct r as [[? ?] ?]
  end.
  apply related_ret. reflexivity.
Qed.

Lemma related_run_and_add_row (L : ClosedLoopExperiments.Lib)
    (analyzer : ClosedLoopExperiments.cl_analyzer L)
    (input_range : ClosedLoopExperiments.Range L) (ph qh : value) (t_max : Z) :
  related eq (ClosedLoopExperiments.run_and_add_row L analyzer input_range ph qh t_max)
             (ClosedLoopExperiments.run_and_add_row L analyzer input_range ph qh t_max).
Proof.
  unfold ClosedLoopExperiments.run_and_add_row,
    ClosedLoopExperiments.set_cl_partitioner, ClosedLoopExperiments.set_cl_propagator,
    get_propagator, get_partitioner.
  rel_all.
Qed.

(** C2, as the code has it.  Two runs of the forward driver, of the
    backward driver or of an experiment row on the same configuration
    end alike, whatever the state of the random number generator and the
    clock they start from: they return the same reachable sets, errors
    and info dictionary or raise the same exception, and leave the same
    store.  Each run starts by seeding the generator with the constant 0;
    only the measured runtimes may differ. *)
Theorem analysis_is_deterministic (L : ExampleCfg.Lib) (L' : ClosedLoopExperiments.Lib)
    (params : value) (analyzer : ClosedLoopExperiments.cl_analyzer L')
    (input_range : ClosedLoopExperiments.Range L') (ph qh : value) (t_max : Z)
    (w1 w2 : world) :
  heap w1 = heap w2 ->
  agree ExampleCfg.same_but_runtimes
    (ExampleCfg.main_forward L params w1) (ExampleCfg.main_forward L params w2) /\
  agree eq (ExampleCfg.main_backward L params w1) (ExampleCfg.main_backward L params w2) /\
  agree eq (ClosedLoopExperiments.run_and_add_row L' analyzer input_range ph qh t_max w1)
           (ClosedLoopExperiments.run_and_add_row L' analyzer input_range ph qh t_max w2).
Proof.
  intros Hheap.
  assert (Hseed : forall w, np_random_seed 0 w =
            (Ok tt, World (heap w) 0 (wall w) (now w))) by reflexivity.
  assert (Hsame : same_store (World (heap w1) 0 (wall w1) (now w1))
                             (World (heap w2) 0 (wall w2) (now w2)))
    by (split; [exact Hheap | reflexivity]).
  split; [|split].
  - pose proof (related_main_forward L params
                  (World (heap w1) 0 (wall w1) (now w1))
                  (World (heap w2) 0 (wall w2) (now w2)) Hsame) as H.
    unfold ExampleCfg.main_forward in *.
    rewrite !(bind_Ok _ _ _ _ _ (Hseed _)) in H.
    rewrite !(bind_Ok _ _ _ _ _ (Hseed _)). exact H.
  - pose proof (related_main_backward L params
                  (World (heap w1) 0 (wall w1) (now w1))
                  (World (heap w2) 0 (wall w2) (now w2)) Hsame) as H.
    unfold ExampleCfg.main_backward in *.
    rewrite !(bind_Ok _ _ _ _ _ (Hseed _)) in H.
    rewrite !(bind_Ok _ _ _ _ _ (Hseed _)). exact H.
  - pose proof (related_run_and_add_row L' analyzer input_range ph qh t_max
                  (World (heap w1) 0 (wall w1) (now w1))
                  (World (heap w2) 0 (wall w2) (now w2)) Hsame) as H.
    unfold ClosedLoopExperiments.run_and_add_row in *.
    rewrite !(bind_Ok _ _ _ _ _ (Hseed _)) in H.
    rewrite !(bind_Ok _ _ _ _ _ (Hseed _)). exact H.
Qed.

Lemma analysis_is_deterministic_witness :
  heap Instances.seeded_world = heap Instances.seeded_world_later /\
  agree ExampleCfg.same_but_runtimes
    (ExampleCfg.main_forward Instances.lib (VRef 1) Instances.seeded_world)
    (ExampleCfg.main_forward Instances.lib (VRef 1) Instances.seeded_world_later) /\
  agree eq
    (ExampleCfg.main_backward Instances.lib (VRef 1) Instances.seeded_world)
    (ExampleCfg.main_backward Instances.lib (VRef 1) Instances.seeded_world_later) /\
  agree eq
    (ClosedLoopExperiments.run_and_add_row Instances.xlib Instances.experiment_analyzer
       [Instances.S0] (VRef 3) (VRef 4) 5 Instances.seeded_world)
    (ClosedLoopExperiments.run_and_add_row Instances.xlib Instances.experiment_analyzer
       [Instances.S0] (VRef 3) (VRef 4) 5 Instances.seeded_world_later).
Proof.
  split; [reflexivity|].
  exact (analysis_is_deterministic Instances.lib Instances.xlib (VRef 1)
           Instances.experiment_analyzer [Instances.S0] (VRef 3) (VRef 4) 5
           Instances.seeded_world Instances.seeded_world_later eq_refl).
Defined.

Lemma seeded_run :
  ExampleCfg.main_forward Instances.lib (VRef 1) Instances.seeded_world
    = Instances.seeded_result.
Proof. reflexivity. Qed.

(** C2, the claim as stated fails: the configuration sets
    [analysis.seed] to 7, and the errors the forward driver returns are
    those of a generator seeded with 0, which differ from those of a
    generator seeded with 7. *)
Lemma seed_option_is_not_read :
  (heap Instances.seeded_world !! 5%positive ≫= (.!! "seed")) = Some (VInt 7) /\
  match (ExampleCfg.main_forward Instances.lib (VRef 1) Instances.seeded_world).1 with
  | Ok (stats, info) =>
      stats !! "all_errors"
        = Some (@ExampleCfg.StErrsArray Instances.lib
                  [Some (Instances.errors_with_seed 0); None])
  | Raise _ => False
  end /\
  Instances.errors_with_seed 0 ≠ Instances.errors_with_seed 7.
Proof.
  split; [reflexivity|]. split.
  - rewrite seeded_run. unfold Instances.seeded_result. cbv beta iota delta [fst].
    reflexivity.
  - vm_compute. discriminate.
Qed.

(* ===================================================================== *)
(** * Part II.f  What the forward driver returns *)
(* ===================================================================== *)

Lemma lift_Ok_inv {A : Type} (g : G A) (w w' : world) (a : A) :
  lift g w = (Ok a, w') -> exists s', g (rng w) = (Ok a, s').
Proof.
  unfold lift. destruct (g (rng w)) as [r s]. intros [= -> <-]. eauto.
Qed.

(** A run of the forward driver that returns went through one of its two
    modes: run once, [stats] is the single entry of the reachable sets
    that [get_reachable_set] returned; in timing mode it is the five
    arrays over the calls. *)
Lemma main_forward_inv (L : ExampleCfg.Lib) (params : value) (w w' : world)
    (stats : gmap string (ExampleCfg.stat L)) (info : gmap string value) :
  ExampleCfg.main_forward L params w = (Ok (stats, info), w') ->
  (exists analyzer S0 t_max wk s' sets info0,
      param params "analysis" "t_max" wk = (Ok t_max, wk) /\
      ExampleCfg.get_reachable_set L analyzer S0 t_max (rng wk) = (Ok (sets, info0), s') /\
      stats = <["reachable_sets" := ExampleCfg.StSets sets]> ∅ /\
      (info = info0 \/ exists name, info = <["save_name" := VStr name]> info0)) \/
  (exists st : ExampleCfg.timing L,
      stats = <["reachable_sets" := ExampleCfg.StSetsArray (ExampleCfg.all_reachable_sets L st)]>
              (<["all_errors" := ExampleCfg.StErrsArray (ExampleCfg.all_errors L st)]>
              (<["avg_errors" := ExampleCfg.StErrArray (ExampleCfg.avg_errors L st)]>
              (<["final_step_errors" := ExampleCfg.StErrArray (ExampleCfg.final_errors L st)]>
              (<["runtimes" := ExampleCfg.StFloats (ExampleCfg.times L st)]> ∅))))).
Proof.
  intros H. unfold ExampleCfg.main_forward in H.
  invert_run H.
  match type of H with
  | context [match ?r with _ => _ end] => destruct r as [[stats0 rs0] info0]
  end.
  invert_run H. injection H as <- <-.
  match goal with
  | E : (if ?b then _ else _) _ = (Ok (stats0, rs0, info0), _) |- _ =>
      destruct b; invert_run E; injection E as <- <- <-
  end.
  - right. eexists. reflexivity.
  - left.
    match goal with
    | E : param params "analysis" "t_max" ?wa = (Ok ?t, ?wb),
      E' : lift (ExampleCfg.get_reachable_set L ?an ?S0 ?t) ?wb = (Ok ?r, _) |- _ =>
        pose proof (param_world _ _ _ _ _ _ E) as Hw; subst wb;
        apply lift_Ok_inv in E' as (s' & E');
        exists an, S0, t, wa, s', r.1, r.2
    end.
    split; [assumption|]. split; [destruct a29; assumption|]. split; [reflexivity|].
    match goal with
    | E : (if ?b then _ else ret (Some _)) _ = (Ok ?o, _),
      E' : local "analyzer_info" ?o _ = (Ok _, _) |- _ =>
        destruct b; [invert_run E | idtac]; injection E as <- <-;
        injection E' as <- <-
    end.
    + right.
      match goal with
      | E : local "analyzer_info" (Some _) _ = (Ok ?i, _) |- _ => injection E as <- <-
      end.
      eexists. reflexivity.
    + left. reflexivity.
Qed.

(** What the modelled analyzer returns: the whole tube for the horizon
    [t_max], and an empty info dictionary. *)
Lemma reachable_set_inv
    (a : closed_loop_analyzer Engine.dynamics (list Engine.layer)
           Engine.partitioner Engine.propagator)
    (S0 : Engine.box) (t_max : value) (s s' : Z) (sets : list Engine.box)
    (info : gmap string value) :
  Instances.reachable_set a S0 t_max s = (Ok (sets, info), s') ->
  exists T : nat, t_max = VInt (Z.of_nat T) /\ length sets = S T /\ info = ∅.
Proof.
  unfold Instances.reachable_set.
  destruct (_partitioner (base a)) as [part|]; [|discriminate].
  destruct (_propagator (base a)) as [[P [net|]]|]; try discriminate.
  destruct t_max; simpl; try discriminate.
  destruct (z <? 0)%Z eqn:Hz; [discriminate|].
  intros [= <- <- <-]. exists (Z.to_nat z).
  split; [f_equal; lia|]. split; [apply EngineFacts.tube_length | reflexivity].
Qed.


Lemma once_run :
  ExampleCfg.main_forward Instances.lib (VRef 1) Instances.once_world
    = Instances.once_result.
Proof. reflexivity. Qed.




Lemma deadline_run :
  ExampleCfg.main_forward Instances.lib (VRef 1) Instances.deadline_world
    = Instances.deadline_result.
Proof. reflexivity. Qed.



(* ===================================================================== *)
(** * Part II.g  The reachable tube *)
(* ===================================================================== *)



(** The trajectories the error metric samples start in the initial set,
    so they stay in the tube. *)
Lemma sampled_trajectories_in_tube
    (P : Engine.propagator) (part : Engine.partitioner) (dyn : Engine.dynamics)
    (net : list Engine.layer) (S0 : Engine.box) (T N : nat) (seed : Z)
    (x0 : list Q) (t : nat) (St : Engine.box) (xt : list Q) :
  Engine.sound_propagator P -> Engine.covers part ->
  Forall2 Qle (Engine.lb S0) (Engine.ub S0) ->
  In x0 (Engine.sample S0 N seed).1 ->
  Engine.tube part P dyn net S0 T !! t = Some St ->
  Engine.simulate dyn net x0 T !! t = Some xt ->
  Engine.contains St xt = true.
Proof.
  intros HP Hpart HS0 Hin HSt Hxt.
  apply EngineFacts.contains_inside.
  eapply EngineFacts.tube_inside; eauto.
  eapply EngineFacts.sample_inside; eauto.
Qed.

(* ===================================================================== *)
(** * Part II.h  Scenario 1: the double integrator *)
(* ===================================================================== *)

Lemma clip_lower (l : Q) : (Qmin (Qmax l (-1)) 1 <= -1 <-> l <= -1)%Q.
Proof.
  destruct (Q.max_spec l (-1)) as [[H1 H2]|[H1 H2]],
           (Q.min_spec (Qmax l (-1)) 1) as [[H3 H4]|[H3 H4]];
    rewrite ?H4, ?H2 in *; split; intros; lra.
Qed.

Lemma clip_upper (h : Q) : (1 <= Qmin (Qmax h (-1)) 1 <-> 1 <= h)%Q.
Proof.
  destruct (Q.max_spec h (-1)) as [[H1 H2]|[H1 H2]],
           (Q.min_spec (Qmax h (-1)) 1) as [[H3 H4]|[H3 H4]];
    rewrite ?H4, ?H2 in *; split; intros; lra.
Qed.

(** The first reachable set of scenario 1 contains the expected box
    exactly when the bound of the propagator on the control reaches both
    actuator limits. *)
Lemma S1_contains_expected (net : list Engine.layer) (l h : Q) :
  Engine.IBP net Instances.S0 = Engine.Box [l] [h] ->
  Engine.box_subset Instances.expected_in_S1 (Instances.S1 net) = true <->
  (l <= -1 /\ 1 <= h)%Q.
Proof.
  intros HU.
  unfold Engine.box_subset, Instances.S1, Engine.bound_step, Engine.NoPartitioner,
    Engine.hull, Engine.step.
  cbn [map foldl]. rewrite HU.
  unfold Engine.clip_box, Engine.sat, Engine.translate, Engine.minkowski_add,
    Engine.linear_image, Engine.mpos, Engine.mneg, Engine.mv, Engine.dot, Engine.vadd.
  cbn [Engine.lb Engine.ub Instances.double_integrator Engine.dynA Engine.dynB
       Engine.dync Engine.u_min Engine.u_max Engine.clip map zip_with foldr
       Instances.S0 Instances.expected_in_S1 Engine.vle].
  rewrite !andb_true_iff, !Qle_bool_iff. unfold Engine.qadd. rewrite !Qred_correct.
  change (Qmax 1 0) with 1%Q. change (Qmin 1 0) with 0%Q.
  change (Qmax 0.5 0) with 0.5%Q. change (Qmin 0.5 0) with 0%Q.
  change (Qmax 0 0) with 0%Q. change (Qmin 0 0) with 0%Q.
  rewrite <- (clip_lower l), <- (clip_upper h).
  generalize (Qmin (Qmax l (-1)) 1) (Qmin (Qmax h (-1)) 1). intros ul uh.
  split.
  - intros [[H1 [H2 _]] [H3 [H4 _]]]. split; lra.
  - intros [H1 H2]. repeat split; lra.
Qed.

Lemma S0_is_a_box : Forall2 Qle (Engine.lb Instances.S0) (Engine.ub Instances.S0).
Proof. repeat constructor; unfold Qle; simpl; lia. Qed.




(* ===================================================================== *)
(** * Part II.i  The errors of an experiment row *)
(* ===================================================================== *)

Lemma frames_experiment_setters (L : ClosedLoopExperiments.Lib)
    (a : ClosedLoopExperiments.cl_analyzer L) (hp : value) :
  frames (ClosedLoopExperiments.set_cl_partitioner L a hp) /\
  frames (ClosedLoopExperiments.set_cl_propagator L a hp).
Proof.
  unfold ClosedLoopExperiments.set_cl_partitioner, ClosedLoopExperiments.set_cl_propagator.
  split; frames_auto.
Qed.


Lemma row_run :
  ClosedLoopExperiments.run_and_add_row Instances.xlib Instances.experiment_analyzer
    [Instances.S0] (VRef 3) (VRef 4) 5 Instances.once_world
    = Instances.row_result.
Proof. reflexivity. Qed.


(* ===================================================================== *)
(** * Part III.a  More on the analyzer *)
(* ===================================================================== *)

Lemma dict_pop_missing (l : loc) (d : gmap string value) (k : string) (dflt : value)
    (w : world) :
  heap w !! l = Some d -> d !! k = None -> dict_pop (VRef l) k dflt w = (Ok dflt, w).
Proof. unfold dict_pop. intros -> ->. reflexivity. Qed.

(** X1.  An analyzer as [__init__] leaves it has neither a partitioner
    nor a propagator: the two [None] assignments of the constructor go
    through the setters, which return at once.  Reading either attribute
    raises [AttributeError], and so does every query, before anything is
    sampled; the world is as it was. *)
Theorem fresh_analyzer_has_no_attributes
    {Model Partitioner Propagator Range Samples Hull Info : Type}
    (partitioner_dict : gmap string (gmap string value -> G Partitioner))
    (propagator_dict : gmap string (gmap string value -> G Propagator))
    (partitioner_get_output_range :
       Partitioner -> Range -> propagator_obj Model Propagator -> G (Range * Info))
    (utils_get_sampled_outputs : Range -> propagator_obj Model Propagator -> Z -> G Samples)
    (utils_samples_to_range : Samples -> G Range)
    (ConvexHull : Samples -> G Hull)
    (model : Model) (w : world) :
  exists self : analyzer Model Partitioner Propagator,
    Analyzer_init partitioner_dict propagator_dict model w = (Ok self, w) /\
    torch_model self = model /\
    get_partitioner self w = (Raise AttributeError, w) /\
    get_propagator self w = (Raise AttributeError, w) /\
    (forall r, get_output_range partitioner_get_output_range self r w
               = (Raise AttributeError, w)) /\
    (forall r N, get_sampled_outputs utils_get_sampled_outputs self r N w
                 = (Raise AttributeError, w)) /\
    (forall r, get_exact_output_range utils_get_sampled_outputs utils_samples_to_range
                 self r w = (Raise AttributeError, w)) /\
    (forall r N, get_exact_hull utils_get_sampled_outputs ConvexHull self r N w
                 = (Raise AttributeError, w)).
Proof. exists (Analyzer model None None). repeat split. Qed.

(** X2.  The partitioner setter on a dictionary whose ["type"] is
    registered: the registered constructor is called once, with all the
    other entries of the dictionary as keyword arguments and without
    ["type"]; the analyzer keeps its model and its propagator; the only
    new object of the store is the copy the setter made. *)
Theorem partitioner_setter_calls_constructor {Model Partitioner Propagator : Type}
    (partitioner_dict : gmap string (gmap string value -> G Partitioner))
    (self : analyzer Model Partitioner Propagator)
    (l : loc) (d : gmap string value) (ty : string)
    (ctor : gmap string value -> G Partitioner) (w : world) :
  heap w !! l = Some d -> d !! "type" = Some (VStr ty) ->
  partitioner_dict !! ty = Some ctor ->
  set_partitioner partitioner_dict self (VRef l) w =
    (match (ctor (delete "type" d) (rng w)).1 with
     | Ok p => Ok (Analyzer (torch_model self) (Some p) (_propagator self))
     | Raise e => Raise e
     end,
     World (<[fresh (dom (heap w)) := delete "type" d]> (heap w))
           (ctor (delete "type" d) (rng w)).2 (wall w) (now w)).
Proof. apply set_partitioner_spec. Qed.

Lemma partitioner_setter_calls_constructor_witness :
  set_partitioner Instances.engine_partitioners Instances.fresh_analyzer (VRef 3)
    Instances.scenario_world =
    (Ok (Analyzer Instances.brake (Some (Engine.UniformPartitioner [4; 4]%nat)) None),
     World (<[fresh (dom (heap Instances.scenario_world))
                := delete "type" Instances.scenario_partitioner]>
              (heap Instances.scenario_world))
           0 (wall Instances.scenario_world) 0).
Proof.
  exact (partitioner_setter_calls_constructor Instances.engine_partitioners
           Instances.fresh_analyzer 3%positive Instances.scenario_partitioner "Uniform"
           Instances.uniform_of_kwargs Instances.scenario_world
           eq_refl eq_refl eq_refl).
Defined.

(** What the propagator setter does with a dictionary of hyperparameters
    whose type is registered. *)
Lemma set_propagator_spec {Model Partitioner Propagator : Type}
    (reg : gmap string (gmap string value -> G Propagator))
    (self : analyzer Model Partitioner Propagator)
    (l : loc) (d : gmap string value) (ty : string)
    (ctor : gmap string value -> G Propagator) (w : world) :
  heap w !! l = Some d -> d !! "type" = Some (VStr ty) -> reg !! ty = Some ctor ->
  set_propagator reg self (VRef l) w =
    (match (ctor (delete "type" d) (rng w)).1 with
     | Ok p => Ok (Analyzer (torch_model self) (_partitioner self)
                     (Some (PropagatorObj p (Some (torch_model self)))))
     | Raise e => Raise e
     end,
     World (<[fresh (dom (heap w)) := delete "type" d]> (heap w))
           (ctor (delete "type" d) (rng w)).2 (wall w) (now w)).
Proof.
  intros Hl Hty Hreg.
  unfold set_propagator. cbn [is_none].
  rewrite (bind_Ok _ _ _ _ _ (dict_copy_ref _ _ _ Hl)).
  erewrite bind_Ok; [|apply dict_pop_ref with (d := d); [apply lookup_insert_eq | exact Hty]].
  cbn [heap rng wall now]. rewrite insert_insert_eq.
  rewrite (bind_Ok _ _ _ _ _ (registry_lookup_Some _ _ _ _ Hreg)).
  erewrite bind_Ok; [|apply deref_ref; apply lookup_insert_eq].
  unfold bind, lift, ret. cbn [heap rng wall now is_none negb].
  destruct (ctor (delete "type" d) (rng w)) as [[p|e] s]; reflexivity.
Qed.

(** X3.  The propagator setter on a dictionary whose ["type"] is
    registered: the constructor receives the other entries, and the new
    propagator gets the model of the analyzer as its [network]; the
    partitioner of the analyzer stays. *)
Theorem propagator_setter_attaches_model {Model Partitioner Propagator : Type}
    (propagator_dict : gmap string (gmap string value -> G Propagator))
    (self : analyzer Model Partitioner Propagator)
    (l : loc) (d : gmap string value) (ty : string)
    (ctor : gmap string value -> G Propagator) (w : world) :
  heap w !! l = Some d -> d !! "type" = Some (VStr ty) ->
  propagator_dict !! ty = Some ctor ->
  set_propagator propagator_dict self (VRef l) w =
    (match (ctor (delete "type" d) (rng w)).1 with
     | Ok p => Ok (Analyzer (torch_model self) (_partitioner self)
                     (Some (PropagatorObj p (Some (torch_model self)))))
     | Raise e => Raise e
     end,
     World (<[fresh (dom (heap w)) := delete "type" d]> (heap w))
           (ctor (delete "type" d) (rng w)).2 (wall w) (now w)).
Proof. apply set_propagator_spec. Qed.

Lemma propagator_setter_attaches_model_witness :
  set_propagator Instances.engine_propagators Instances.fresh_analyzer (VRef 4)
    Instances.scenario_world =
    (Ok (Analyzer Instances.brake None
           (Some (PropagatorObj Engine.IBP (Some Instances.brake)))),
     World (<[fresh (dom (heap Instances.scenario_world))
                := delete "type" Instances.ibp_propagator]>
              (heap Instances.scenario_world))
           0 (wall Instances.scenario_world) 0).
Proof.
  exact (propagator_setter_attaches_model Instances.engine_propagators
           Instances.fresh_analyzer 4%positive Instances.ibp_propagator "IBP"
           (fun _ s => (Ok Engine.IBP, s)) Instances.scenario_world
           eq_refl eq_refl eq_refl).
Defined.

(** X4.  A dictionary of hyperparameters without a ["type"] entry: the
    setters look [None] up in the registry and raise [KeyError(None)]; no
    constructor is called, the generator is as it was. *)
Theorem setters_need_a_type {Model Partitioner Propagator : Type}
    (partitioner_dict : gmap string (gmap string value -> G Partitioner))
    (propagator_dict : gmap string (gmap string value -> G Propagator))
    (self : analyzer Model Partitioner Propagator)
    (l : loc) (d : gmap string value) (w : world) :
  heap w !! l = Some d -> d !! "type" = None ->
  (set_partitioner partitioner_dict self (VRef l) w).1 = Raise (KeyError VNone) /\
  rng (set_partitioner partitioner_dict self (VRef l) w).2 = rng w /\
  (set_propagator propagator_dict self (VRef l) w).1 = Raise (KeyError VNone) /\
  rng (set_propagator propagator_dict self (VRef l) w).2 = rng w.
Proof.
  intros Hl Hty.
  assert (Hpop : dict_pop (VRef (fresh (dom (heap w)))) "type" VNone
                   (World (<[fresh (dom (heap w)) := d]> (heap w)) (rng w) (wall w) (now w))
                 = (Ok VNone,
                    World (<[fresh (dom (heap w)) := d]> (heap w)) (rng w) (wall w) (now w)))
    by (apply dict_pop_missing with (d := d); [apply lookup_insert_eq | exact Hty]).
  unfold set_partitioner, set_propagator. cbn [is_none].
  rewrite !(bind_Ok _ _ _ _ _ (dict_copy_ref _ _ _ Hl)).
  rewrite !(bind_Ok _ _ _ _ _ Hpop).
  repeat split.
Qed.

Lemma setters_need_a_type_witness :
  (set_partitioner Instances.engine_partitioners Instances.fresh_analyzer (VRef 6)
     Instances.scenario_world).1 = Raise (KeyError VNone) /\
  rng (set_partitioner Instances.engine_partitioners Instances.fresh_analyzer (VRef 6)
         Instances.scenario_world).2 = rng Instances.scenario_world /\
  (set_propagator Instances.engine_propagators Instances.fresh_analyzer (VRef 6)
     Instances.scenario_world).1 = Raise (KeyError VNone) /\
  rng (set_propagator Instances.engine_propagators Instances.fresh_analyzer (VRef 6)
         Instances.scenario_world).2 = rng Instances.scenario_world.
Proof.
  exact (setters_need_a_type Instances.engine_partitioners Instances.engine_propagators
           Instances.fresh_analyzer 6%positive
           (<["save_plot" := VBool false]> (<["show_plot" := VBool false]> ∅))
           Instances.scenario_world eq_refl eq_refl).
Defined.

(** X5.  A ["type"] that is not a key of the registry: the setter raises
    [KeyError] with that type; no constructor is called, and the analyzer
    object is not updated (the setter returns nothing). *)
Theorem setters_reject_unknown_type {Model Partitioner Propagator : Type}
    (partitioner_dict : gmap string (gmap string value -> G Partitioner))
    (propagator_dict : gmap string (gmap string value -> G Propagator))
    (self : analyzer Model Partitioner Propagator)
    (l : loc) (d : gmap string value) (ty : string) (w : world) :
  heap w !! l = Some d -> d !! "type" = Some (VStr ty) ->
  (partitioner_dict !! ty = None ->
   (set_partitioner partitioner_dict self (VRef l) w).1 = Raise (KeyError (VStr ty)) /\
   rng (set_partitioner partitioner_dict self (VRef l) w).2 = rng w) /\
  (propagator_dict !! ty = None ->
   (set_propagator propagator_dict self (VRef l) w).1 = Raise (KeyError (VStr ty)) /\
   rng (set_propagator propagator_dict self (VRef l) w).2 = rng w).
Proof.
  intros Hl Hty.
  assert (Hpop : dict_pop (VRef (fresh (dom (heap w)))) "type" VNone
                   (World (<[fresh (dom (heap w)) := d]> (heap w)) (rng w) (wall w) (now w))
                 = (Ok (VStr ty),
                    World (<[fresh (dom (heap w)) := delete "type" d]> (heap w))
                          (rng w) (wall w) (now w))).
  { erewrite dict_pop_ref; [|apply lookup_insert_eq | exact Hty].
    cbn [heap rng wall now]. rewrite insert_insert_eq. reflexivity. }
  unfold set_partitioner, set_propagator. cbn [is_none].
  rewrite !(bind_Ok _ _ _ _ _ (dict_copy_ref _ _ _ Hl)).
  rewrite !(bind_Ok _ _ _ _ _ Hpop).
  split; intros Hreg;
    rewrite !(bind_Raise _ _ _ _ _ (registry_lookup_None _ _ _ Hreg)); split; reflexivity.
Qed.

Lemma setters_reject_unknown_type_witness :
  (set_partitioner Instances.engine_partitioners Instances.fresh_analyzer (VRef 4)
     Instances.scenario_world).1 = Raise (KeyError (VStr "IBP")) /\
  (set_propagator Instances.engine_propagators Instances.fresh_analyzer (VRef 3)
     Instances.scenario_world).1 = Raise (KeyError (VStr "Uniform")).
Proof.
  split.
  - exact (proj1 (proj1 (setters_reject_unknown_type Instances.engine_partitioners
             Instances.engine_propagators Instances.fresh_analyzer 4%positive
             Instances.ibp_propagator "IBP" Instances.scenario_world eq_refl eq_refl)
             eq_refl)).
  - exact (proj1 (proj2 (setters_reject_unknown_type Instances.engine_partitioners
             Instances.engine_propagators Instances.fresh_analyzer 3%positive
             Instances.scenario_partitioner "Uniform" Instances.scenario_world
             eq_refl eq_refl) eq_refl)).
Defined.

(* ===================================================================== *)
(** * Part III.b  More on the drivers of [example_cfg.py] *)
(* ===================================================================== *)

Lemma get_or_none_ref (l : loc) (d : gmap string value) (k : string) (w : world) :
  heap w !! l = Some d -> get_or_none (VRef l) k w = (Ok (default VNone (d !! k)), w).
Proof.
  intros Hl. unfold get_or_none. rewrite (bind_Ok _ _ _ _ _ (deref_ref _ _ _ _ Hl)).
  reflexivity.
Qed.

Lemma frames_empty_array {A : Type} (params : value) (a : A) :
  frames (ExampleCfg.empty_array params a).
Proof. unfold ExampleCfg.empty_array. frames_auto. Qed.

Lemma frames_main (L : ExampleCfg.Lib) (params : value) :
  frames (ExampleCfg.main L params).
Proof.
  unfold ExampleCfg.main.
  frames_auto; first [apply frames_main_forward | apply frames_main_backward].
Qed.

(** The frame of each step of a run, for the steps of the drivers. *)
Ltac frames_more :=
  first [ apply frames_example_set_partitioner
        | apply frames_example_set_propagator
        | apply frames_example_new_analyzer
        | apply frames_main_forward
        | apply frames_main_backward
        | apply frames_empty_array
        | apply frames_timing_call
        | (apply frames_for_each; intros; apply frames_timing_call)
        | frames_auto ].

Ltac note_steps :=
  repeat match goal with
  | E : ?m ?w1 = (_, ?w2) |- _ =>
      lazymatch goal with
      | _ : extends w1 w2 |- _ => fail
      | _ => assert (extends w1 w2) by (refine ((_ : frames m) _ _ _ E); frames_more)
      end
  end.

Ltac inj E := injection E; clear E; intros; subst.

(** What a read of [params[a][b]] returns in a world that extends the
    one the configuration was loaded in. *)
Ltac read_param Hp Han Hla Hkey :=
  lazymatch type of Hkey with
  | _ !! ?b = Some _ =>
      lazymatch type of Han with
      | _ !! ?a = Some _ =>
          repeat match goal with
          | E : param (VRef _) a b ?wa = (Ok _, _), Hx : extends _ ?wa |- _ =>
              rewrite (param_ref _ _ _ _ a b _ wa (extends_lookup _ _ _ _ Hx Hp) Han
                         (extends_lookup _ _ _ _ Hx Hla) Hkey) in E;
              inj E
          end
      end
  end.

(** A step of the run that cannot have returned. *)
Ltac dead_end :=
  match goal with
  | E : _ = (Ok _, _) |- _ =>
      cbv iota in E; invert_run E;
      first [ discriminate E
            | match goal with E' : _ = (Ok _, _) |- _ => discriminate E' end ]
  end.

Ltac start_run w :=
  pose proof (extends_refl w); note_steps; chain_frames w.

(** X6.  The main program runs the driver its configuration names: with
    the direction ["forward"] it is the forward driver and nothing else,
    its result dropped and its exception passed on; with ["backward"] it
    is the backward driver.  The second test of the direction reads the
    configuration again, after the forward driver has run. *)
Theorem main_runs_the_chosen_driver (L : ExampleCfg.Lib) (p la : loc)
    (dp da : gmap string value) (w : world) :
  heap w !! p = Some dp -> dp !! "analysis" = Some (VRef la) ->
  heap w !! la = Some da ->
  (da !! "reachability_direction" = Some (VStr "forward") ->
   ExampleCfg.main L (VRef p) w
     = bind (ExampleCfg.main_forward L (VRef p)) (fun _ => ret tt) w) /\
  (da !! "reachability_direction" = Some (VStr "backward") ->
   ExampleCfg.main L (VRef p) w
     = bind (ExampleCfg.main_backward L (VRef p)) (fun _ => ret tt) w).
Proof.
  intros Hp Han Hla. split; intros Hdir; unfold ExampleCfg.main.
  - rewrite (bind_Ok _ _ _ _ _ (param_ref _ _ _ _ _ _ _ _ Hp Han Hla Hdir)).
    cbn [eq_str]. change (String.eqb "forward" "forward") with true. cbv iota.
    destruct (ExampleCfg.main_forward L (VRef p) w) as [[r|e] w'] eqn:E.
    + pose proof (frames_main_forward L (VRef p) _ _ _ E) as Hx.
      rewrite (bind_Ok (bind _ _) _ w w' tt)
        by (rewrite (bind_Ok _ _ _ _ _ E); reflexivity).
      rewrite (bind_Ok _ _ _ _ _
                 (param_ref _ _ _ _ _ _ _ _ (extends_lookup _ _ _ _ Hx Hp) Han
                    (extends_lookup _ _ _ _ Hx Hla) Hdir)).
      rewrite (bind_Ok _ _ _ _ _ E). reflexivity.
    + rewrite (bind_Raise (bind _ _) _ w w' e)
        by (rewrite (bind_Raise _ _ _ _ _ E); reflexivity).
      rewrite (bind_Raise _ _ _ _ _ E). reflexivity.
  - rewrite (bind_Ok _ _ _ _ _ (param_ref _ _ _ _ _ _ _ _ Hp Han Hla Hdir)).
    cbn [eq_str]. change (String.eqb "backward" "forward") with false. cbv iota.
    rewrite (bind_Ok _ _ _ _ _ (eq_refl : ret tt w = (Ok tt, w))).
    rewrite (bind_Ok _ _ _ _ _ (param_ref _ _ _ _ _ _ _ _ Hp Han Hla Hdir)).
    reflexivity.
Qed.

Lemma main_runs_the_chosen_driver_witness :
  ExampleCfg.main Instances.lib (VRef 1) Instances.once_world
    = bind (ExampleCfg.main_forward Instances.lib (VRef 1)) (fun _ => ret tt)
        Instances.once_world.
Proof.
  exact (proj1 (main_runs_the_chosen_driver Instances.lib 1%positive 5%positive
                  Cases.params_dict (Cases.analysis_of Instances.once_world)
                  Instances.once_world eq_refl eq_refl eq_refl) eq_refl).
Defined.

(** X7.  The drivers and the main program leave the configuration as
    they found it: every dictionary that exists when they start has the
    same entries when they end, whether they return or raise. *)
Theorem drivers_leave_the_configuration (L : ExampleCfg.Lib) (params : value)
    (w : world) (l : loc) (d : gmap string value) :
  heap w !! l = Some d ->
  heap (ExampleCfg.main_forward L params w).2 !! l = Some d /\
  heap (ExampleCfg.main_backward L params w).2 !! l = Some d /\
  heap (ExampleCfg.main L params w).2 !! l = Some d.
Proof.
  intros Hl. repeat split.
  - destruct (ExampleCfg.main_forward L params w) as [r w'] eqn:E.
    exact (extends_lookup _ _ _ _ (frames_main_forward L params _ _ _ E) Hl).
  - destruct (ExampleCfg.main_backward L params w) as [r w'] eqn:E.
    exact (extends_lookup _ _ _ _ (frames_main_backward L params _ _ _ E) Hl).
  - destruct (ExampleCfg.main L params w) as [r w'] eqn:E.
    exact (extends_lookup _ _ _ _ (frames_main L params _ _ _ E) Hl).
Qed.

Lemma drivers_leave_the_configuration_witness :
  heap (ExampleCfg.main_forward Instances.lib (VRef 1) Instances.seeded_world).2
    !! 5%positive = Some (Cases.analysis_of Instances.seeded_world) /\
  heap (ExampleCfg.main_backward Instances.lib (VRef 1) Instances.seeded_world).2
    !! 5%positive = Some (Cases.analysis_of Instances.seeded_world) /\
  heap (ExampleCfg.main Instances.lib (VRef 1) Instances.seeded_world).2
    !! 5%positive = Some (Cases.analysis_of Instances.seeded_world).
Proof.
  exact (drivers_leave_the_configuration Instances.lib (VRef 1) Instances.seeded_world
           5%positive (Cases.analysis_of Instances.seeded_world) eq_refl).
Defined.

(** X8.  An [analysis.partitioner.type] that the registry does not have
    is fatal for both drivers: neither returns. *)
Theorem unknown_partitioner_is_fatal (L : ExampleCfg.Lib) (p la lp : loc)
    (dp da d : gmap string value) (ty : string) (w : world) :
  heap w !! p = Some dp -> dp !! "analysis" = Some (VRef la) ->
  heap w !! la = Some da -> da !! "partitioner" = Some (VRef lp) ->
  heap w !! lp = Some d -> d !! "type" = Some (VStr ty) ->
  ExampleCfg.partitioner_dict L !! ty = None ->
  (exists e, (ExampleCfg.main_forward L (VRef p) w).1 = Raise e) /\
  (exists e, (ExampleCfg.main_backward L (VRef p) w).1 = Raise e).
Proof.
  intros Hp Han Hla Hpart Hlp Hty Hreg. split.
  - destruct (ExampleCfg.main_forward L (VRef p) w) as [[r|e] w'] eqn:H; [exfalso | eauto].
    unfold ExampleCfg.main_forward in H. invert_run H. clear H.
    start_run w. read_param Hp Han Hla Hpart.
    match goal with
    | E : ExampleCfg.set_cl_partitioner L ?a (VRef lp) ?wa = (Ok _, _),
      Hx : extends w ?wa |- _ =>
        unfold ExampleCfg.set_cl_partitioner in E;
        apply bind_Ok_inv in E as (b & wb & E & _);
        pose proof (set_partitioner_unknown (ExampleCfg.partitioner_dict L) (base a) lp d
                      ty wa (extends_lookup _ _ _ _ Hx Hlp) Hty Hreg) as Hraise;
        rewrite E in Hraise; discriminate Hraise
    end.
  - destruct (ExampleCfg.main_backward L (VRef p) w) as [[r|e] w'] eqn:H; [exfalso | eauto].
    unfold ExampleCfg.main_backward in H. invert_run H. clear H.
    start_run w. read_param Hp Han Hla Hpart.
    match goal with
    | E : ExampleCfg.set_cl_partitioner L ?a (VRef lp) ?wa = (Ok _, _),
      Hx : extends w ?wa |- _ =>
        unfold ExampleCfg.set_cl_partitioner in E;
        apply bind_Ok_inv in E as (b & wb & E & _);
        pose proof (set_partitioner_unknown (ExampleCfg.partitioner_dict L) (base a) lp d
                      ty wa (extends_lookup _ _ _ _ Hx Hlp) Hty Hreg) as Hraise;
        rewrite E in Hraise; discriminate Hraise
    end.
Qed.

Lemma unknown_partitioner_is_fatal_witness :
  (exists e, (ExampleCfg.main_forward Instances.lib (VRef 1)
                Cases.unknown_partitioner_world).1 = Raise e) /\
  (exists e, (ExampleCfg.main_backward Instances.lib (VRef 1)
                Cases.unknown_partitioner_world).1 = Raise e).
Proof.
  exact (unknown_partitioner_is_fatal Instances.lib 1%positive 5%positive 3%positive
           Cases.params_dict (Cases.analysis_of Cases.unknown_partitioner_world)
           Cases.unknown_partitioner "SimGuided" Cases.unknown_partitioner_world
           eq_refl eq_refl eq_refl eq_refl eq_refl eq_refl eq_refl).
Defined.

(** X9.  The same for an [analysis.propagator.type] that the registry
    does not have. *)
Theorem unknown_propagator_is_fatal (L : ExampleCfg.Lib) (p la lp : loc)
    (dp da d : gmap string value) (ty : string) (w : world) :
  heap w !! p = Some dp -> dp !! "analysis" = Some (VRef la) ->
  heap w !! la = Some da -> da !! "propagator" = Some (VRef lp) ->
  heap w !! lp = Some d -> d !! "type" = Some (VStr ty) ->
  ExampleCfg.propagator_dict L !! ty = None ->
  (exists e, (ExampleCfg.main_forward L (VRef p) w).1 = Raise e) /\
  (exists e, (ExampleCfg.main_backward L (VRef p) w).1 = Raise e).
Proof.
  intros Hp Han Hla Hprop Hlp Hty Hreg. split.
  - destruct (ExampleCfg.main_forward L (VRef p) w) as [[r|e] w'] eqn:H; [exfalso | eauto].
    unfold ExampleCfg.main_forward in H. invert_run H. clear H.
    start_run w. read_param Hp Han Hla Hprop.
    match goal with
    | E : ExampleCfg.set_cl_propagator L ?a (VRef lp) ?wa = (Ok _, _),
      Hx : extends w ?wa |- _ =>
        unfold ExampleCfg.set_cl_propagator in E;
        apply bind_Ok_inv in E as (b & wb & E & _);
        pose proof (set_propagator_unknown (ExampleCfg.propagator_dict L) (base a) lp d
                      ty wa (extends_lookup _ _ _ _ Hx Hlp) Hty Hreg) as Hraise;
        rewrite E in Hraise; discriminate Hraise
    end.
  - destruct (ExampleCfg.main_backward L (VRef p) w) as [[r|e] w'] eqn:H; [exfalso | eauto].
    unfold ExampleCfg.main_backward in H. invert_run H. clear H.
    start_run w. read_param Hp Han Hla Hprop.
    match goal with
    | E : ExampleCfg.set_cl_propagator L ?a (VRef lp) ?wa = (Ok _, _),
      Hx : extends w ?wa |- _ =>
        unfold ExampleCfg.set_cl_propagator in E;
        apply bind_Ok_inv in E as (b & wb & E & _);
        pose proof (set_propagator_unknown (ExampleCfg.propagator_dict L) (base a) lp d
                      ty wa (extends_lookup _ _ _ _ Hx Hlp) Hty Hreg) as Hraise;
        rewrite E in Hraise; discriminate Hraise
    end.
Qed.

Lemma unknown_propagator_is_fatal_witness :
  (exists e, (ExampleCfg.main_forward Instances.lib (VRef 1)
                Cases.unknown_propagator_world).1 = Raise e) /\
  (exists e, (ExampleCfg.main_backward Instances.lib (VRef 1)
                Cases.unknown_propagator_world).1 = Raise e).
Proof.
  exact (unknown_propagator_is_fatal Instances.lib 1%positive 5%positive 4%positive
           Cases.params_dict (Cases.analysis_of Cases.unknown_propagator_world)
           Cases.unknown_propagator "SDP" Cases.unknown_propagator_world
           eq_refl eq_refl eq_refl eq_refl eq_refl eq_refl eq_refl).
Defined.

(** X10.  A configuration whose [analysis.propagator] is [None] (the key
    left empty in the YAML file): the setter accepts it silently, but the
    forward driver then subscripts it for its ["boundary_type"] and never
    returns. *)
Theorem missing_propagator_is_fatal (L : ExampleCfg.Lib) (p la : loc)
    (dp da : gmap string value) (w : world) :
  heap w !! p = Some dp -> dp !! "analysis" = Some (VRef la) ->
  heap w !! la = Some da -> da !! "propagator" = Some VNone ->
  (exists e, (ExampleCfg.main_forward L (VRef p) w).1 = Raise e) /\
  (exists e, (ExampleCfg.main_backward L (VRef p) w).1 = Raise e).
Proof.
  intros Hp Han Hla Hprop. split.
  - destruct (ExampleCfg.main_forward L (VRef p) w) as [[r|e] w'] eqn:H; [exfalso | eauto].
    unfold ExampleCfg.main_forward in H. invert_run H. clear H.
    start_run w. read_param Hp Han Hla Hprop.
    match goal with
    | E : getitem VNone "boundary_type" _ = (Ok _, _) |- _ => discriminate E
    end.
  - destruct (ExampleCfg.main_backward L (VRef p) w) as [[r|e] w'] eqn:H; [exfalso | eauto].
    unfold ExampleCfg.main_backward in H. invert_run H. clear H.
    start_run w. read_param Hp Han Hla Hprop.
    match goal with
    | E : getitem VNone "boundary_type" _ = (Ok _, _) |- _ => discriminate E
    end.
Qed.

Lemma missing_propagator_is_fatal_witness :
  (exists e, (ExampleCfg.main_forward Instances.lib (VRef 1)
                Cases.no_propagator_world).1 = Raise e) /\
  (exists e, (ExampleCfg.main_backward Instances.lib (VRef 1)
                Cases.no_propagator_world).1 = Raise e).
Proof.
  exact (missing_propagator_is_fatal Instances.lib 1%positive 5%positive
           Cases.params_dict (Cases.analysis_of Cases.no_propagator_world)
           Cases.no_propagator_world eq_refl eq_refl eq_refl eq_refl).
Defined.

(** X11.  The backward driver only supports state feedback: for any
    other [system.feedback] it raises [ValueError] right after seeding
    the generator, before the dynamics or the controller are loaded. *)
Theorem main_backward_needs_state_feedback (L : ExampleCfg.Lib) (p ls : loc)
    (dp ds : gmap string value) (fb : value) (w : world) :
  heap w !! p = Some dp -> dp !! "system" = Some (VRef ls) ->
  heap w !! ls = Some ds -> ds !! "feedback" = Some fb ->
  eq_str fb "FullState" = false ->
  ExampleCfg.main_backward L (VRef p) w
    = (Raise ValueError, World (heap w) 0 (wall w) (now w)).
Proof.
  intros Hp Hsys Hls Hfb Hne. unfold ExampleCfg.main_backward.
  rewrite (bind_Ok _ _ _ _ _
             (eq_refl : np_random_seed 0 w = (Ok tt, World (heap w) 0 (wall w) (now w)))).
  rewrite (bind_Ok _ _ _ _ _
             (param_ref p ls dp ds _ _ fb (World (heap w) 0 (wall w) (now w))
                Hp Hsys Hls Hfb)).
  rewrite Hne. reflexivity.
Qed.

Lemma main_backward_needs_state_feedback_witness :
  ExampleCfg.main_backward Instances.lib (VRef 1) Cases.output_feedback_world
    = (Raise ValueError,
       World (heap Cases.output_feedback_world) 0 (wall Cases.output_feedback_world)
             (now Cases.output_feedback_world)).
Proof.
  exact (main_backward_needs_state_feedback Instances.lib 1%positive 2%positive
           Cases.params_dict Cases.output_feedback_system (VStr "OutputFeedback")
           Cases.output_feedback_world eq_refl eq_refl eq_refl eq_refl eq_refl).
Defined.

(** X12.  The timing mode of the backward driver never returns: after
    the five arrays it allocates a sixth of [num_calls] slots, a name the
    function does not define, which raises [NameError] unless an earlier
    step has failed. *)
Theorem main_backward_timing_mode_fails (L : ExampleCfg.Lib) (p la : loc)
    (dp da : gmap string value) (v : value) (w : world) :
  heap w !! p = Some dp -> dp !! "analysis" = Some (VRef la) ->
  heap w !! la = Some da -> da !! "estimate_runtime" = Some v ->
  (forall w', truthy v w' = (Ok true, w')) ->
  exists e, (ExampleCfg.main_backward L (VRef p) w).1 = Raise e.
Proof.
  intros Hp Han Hla Hkey Htrue.
  destruct (ExampleCfg.main_backward L (VRef p) w) as [[r|e] w'] eqn:H; [exfalso | eauto].
  unfold ExampleCfg.main_backward in H. invert_run H. clear H.
  start_run w. read_param Hp Han Hla Hkey.
  match goal with
  | E : truthy _ _ = (Ok _, _) |- _ => rewrite Htrue in E; inj E
  end.
  dead_end.
Qed.

Lemma main_backward_timing_mode_fails_witness :
  exists e, (ExampleCfg.main_backward Instances.lib (VRef 1)
               Cases.backward_timing_world).1 = Raise e.
Proof.
  exact (main_backward_timing_mode_fails Instances.lib 1%positive 5%positive
           Cases.params_dict (Cases.analysis_of Cases.backward_timing_world)
           (VBool true) Cases.backward_timing_world
           eq_refl eq_refl eq_refl eq_refl (fun w' => eq_refl)).
Defined.

(** X13.  A backward configuration that gives an
    [analysis.initial_state_range] never returns: the driver builds the
    initial set with [LpConstraint], a name the module does not import,
    which raises [NameError] unless an earlier step has failed. *)
Theorem main_backward_initial_range_fails (L : ExampleCfg.Lib) (p la : loc)
    (dp da : gmap string value) (v : value) (w : world) :
  heap w !! p = Some dp -> dp !! "analysis" = Some (VRef la) ->
  heap w !! la = Some da -> da !! "initial_state_range" = Some v ->
  is_none v = false ->
  exists e, (ExampleCfg.main_backward L (VRef p) w).1 = Raise e.
Proof.
  intros Hp Han Hla Hkey Hv.
  destruct (ExampleCfg.main_backward L (VRef p) w) as [[r|e] w'] eqn:H; [exfalso | eauto].
  unfold ExampleCfg.main_backward in H. invert_run H.
  match type of H with
  | context [match ?r with _ => _ end] => destruct r as [[stats0 sets0] info0]
  end.
  invert_run H. clear H.
  start_run w.
  match goal with
  | E : getitem (VRef p) "analysis" ?wa = (Ok _, _), Hx : extends w ?wa |- _ =>
      rewrite (getitem_ref _ _ _ _ _ (extends_lookup _ _ _ _ Hx Hp) Han) in E; inj E
  end.
  match goal with
  | E : get_or_none (VRef la) "initial_state_range" ?wa = (Ok _, _),
    Hx : extends w ?wa |- _ =>
      rewrite (get_or_none_ref _ _ _ _ (extends_lookup _ _ _ _ Hx Hla)), Hkey in E;
      cbn [default] in E; inj E
  end.
  rewrite Hv in *. dead_end.
Qed.

Lemma main_backward_initial_range_fails_witness :
  exists e, (ExampleCfg.main_backward Instances.lib (VRef 1) Cases.backward_world).1
            = Raise e.
Proof.
  exact (main_backward_initial_range_fails Instances.lib 1%positive 5%positive
           Cases.params_dict (Cases.analysis_of Cases.backward_world)
           (VStr "[[2.5, 3.0], [-0.25, 0.25]]") Cases.backward_world
           eq_refl eq_refl eq_refl eq_refl eq_refl).
Defined.

(* ===================================================================== *)
(** * Part III.c  The timing mode of the forward driver *)
(* ===================================================================== *)

Lemma as_count_world (v : value) (w w' : world) (r : result nat) :
  as_count v w = (r, w') -> w' = w.
Proof.
  destruct v; simpl; try (intros [= <- <-]; reflexivity).
  destruct (z <? 0)%Z; intros [= <- <-]; reflexivity.
Qed.

Lemma empty_array_inv {A : Type} (params : value) (a : A)
    (w w' : world) (xs : list A) :
  ExampleCfg.empty_array params a w = (Ok xs, w') ->
  w' = w /\
  exists v n, param params "analysis" "num_calls" w = (Ok v, w) /\
              as_count v w = (Ok n, w) /\ xs = replicate n a.
Proof.
  unfold ExampleCfg.empty_array. intros H. invert_run H. injection H as <- <-.
  match goal with
  | E : param _ _ _ _ = _ |- _ => pose proof (param_world _ _ _ _ _ _ E); subst
  end.
  match goal with
  | E : as_count _ _ = _ |- _ => pose proof (as_count_world _ _ _ _ E); subst
  end.
  split; [reflexivity|]. eauto.
Qed.

(** A call of the timing loop other than the first fills in its slot of
    [times] and nothing else. *)
Lemma timing_call_later (L : ExampleCfg.Lib) (params : value)
    (analyzer : ExampleCfg.cl_analyzer L) (S0 : ExampleCfg.Constraint L)
    (num : nat) (st st' : ExampleCfg.timing L) (w w' : world) :
  ExampleCfg.timing_call L params analyzer S0 (S num) st w = (Ok st', w') ->
  ExampleCfg.final_errors L st' = ExampleCfg.final_errors L st /\
  ExampleCfg.avg_errors L st' = ExampleCfg.avg_errors L st /\
  ExampleCfg.all_errors L st' = ExampleCfg.all_errors L st /\
  ExampleCfg.all_reachable_sets L st' = ExampleCfg.all_reachable_sets L st /\
  length (ExampleCfg.times L st') = length (ExampleCfg.times L st).
Proof.
  unfold ExampleCfg.timing_call. intros H. invert_run H. cbn [Nat.eqb] in H.
  injection H as <- <-. cbn. rewrite length_insert. repeat split.
Qed.

Lemma timing_loop_later (L : ExampleCfg.Lib) (params : value)
    (analyzer : ExampleCfg.cl_analyzer L) (S0 : ExampleCfg.Constraint L) (n : nat) :
  forall (k : nat) (st st' : ExampleCfg.timing L) (w w' : world),
  for_each (ExampleCfg.timing_call L params analyzer S0) (seq (S k) n) st w
    = (Ok st', w') ->
  ExampleCfg.final_errors L st' = ExampleCfg.final_errors L st /\
  ExampleCfg.avg_errors L st' = ExampleCfg.avg_errors L st /\
  ExampleCfg.all_errors L st' = ExampleCfg.all_errors L st /\
  ExampleCfg.all_reachable_sets L st' = ExampleCfg.all_reachable_sets L st /\
  length (ExampleCfg.times L st') = length (ExampleCfg.times L st).
Proof.
  induction n as [|n IH]; intros k st st' w w' H; simpl in H.
  - injection H as <- <-. repeat split.
  - apply bind_Ok_inv in H as (st1 & w1 & E & H).
    apply timing_call_later in E as (E1 & E2 & E3 & E4 & E5).
    apply IH in H as (H1 & H2 & H3 & H4 & H5).
    repeat split; congruence.
Qed.

(** The first call fills in slot 0 of every array and binds the two
    local variables. *)
Lemma timing_call_first (L : ExampleCfg.Lib) (params : value)
    (analyzer : ExampleCfg.cl_analyzer L) (S0 : ExampleCfg.Constraint L)
    (st st' : ExampleCfg.timing L) (w w' : world) :
  ExampleCfg.timing_call L params analyzer S0 0 st w = (Ok st', w') ->
  exists e a es s,
    ExampleCfg.final_errors L st' = <[0%nat := Some e]> (ExampleCfg.final_errors L st) /\
    ExampleCfg.avg_errors L st' = <[0%nat := Some a]> (ExampleCfg.avg_errors L st) /\
    ExampleCfg.all_errors L st' = <[0%nat := Some es]> (ExampleCfg.all_errors L st) /\
    ExampleCfg.all_reachable_sets L st'
      = <[0%nat := Some s]> (ExampleCfg.all_reachable_sets L st) /\
    length (ExampleCfg.times L st') = length (ExampleCfg.times L st).
Proof.
  unfold ExampleCfg.timing_call. intros H. invert_run H. cbn [Nat.eqb] in H.
  invert_run H. injection H as <- <-. cbn. rewrite length_insert.
  do 4 eexists. repeat split.
Qed.

(** A run of the forward driver that returns, by mode.  In timing mode
    the five arrays have the [num_calls] slots that [np.empty] gave them,
    the loop ran over [range(num_calls)], and it left [analyzer_info]
    bound. *)
Lemma main_forward_modes (L : ExampleCfg.Lib) (params : value) (w w' : world)
    (stats : gmap string (ExampleCfg.stat L)) (info : gmap string value) :
  ExampleCfg.main_forward L params w = (Ok (stats, info), w') ->
  exists (wk : world) (v : value) (b : bool),
    extends w wk /\
    param params "analysis" "estimate_runtime" wk = (Ok v, wk) /\
    truthy v wk = (Ok b, wk) /\
    if b then
      exists vn n analyzer S0 st wk',
        param params "analysis" "num_calls" wk = (Ok vn, wk) /\
        as_count vn wk = (Ok n, wk) /\
        for_each (ExampleCfg.timing_call L params analyzer S0) (seq 0 n)
          (ExampleCfg.Timing L (replicate n 0%Q) (replicate n None) (replicate n None)
             (replicate n None) (replicate n None) None None) wk = (Ok st, wk') /\
        stats = <["reachable_sets" := ExampleCfg.StSetsArray (ExampleCfg.all_reachable_sets L st)]>
                (<["all_errors" := ExampleCfg.StErrsArray (ExampleCfg.all_errors L st)]>
                (<["avg_errors" := ExampleCfg.StErrArray (ExampleCfg.avg_errors L st)]>
                (<["final_step_errors" := ExampleCfg.StErrArray (ExampleCfg.final_errors L st)]>
                (<["runtimes" := ExampleCfg.StFloats (ExampleCfg.times L st)]> ∅)))) /\
        is_Some (ExampleCfg.analyzer_info L st)
    else
      exists sets, stats = <["reachable_sets" := ExampleCfg.StSets sets]> ∅.
Proof.
  intros H. unfold ExampleCfg.main_forward in H.
  invert_run H.
  match type of H with
  | context [match ?r with _ => _ end] => destruct r as [[stats0 rs0] info0]
  end.
  invert_run H. injection H as <- <-.
  match goal with
  | Ep : param params "analysis" "estimate_runtime" ?wa = (Ok ?v, ?wb),
    Et : truthy ?v ?wb = (Ok ?b, ?wc),
    Er : (if ?b then _ else _) ?wc = (Ok (stats0, rs0, info0), _) |- _ =>
      pose proof (param_world _ _ _ _ _ _ Ep); subst wb;
      pose proof (truthy_world _ _ _ _ Et); subst wc;
      exists wa, v, b; split; [|split; [exact Ep|split; [exact Et|]]];
      [ clear Er | destruct b ]
  end.
  - start_run w. assumption.
  - (* timing mode *)
    match goal with
    | Er : _ ?wa = (Ok (stats0, rs0, info0), _) |- _ => invert_run Er; inj Er
    end.
    repeat match goal with
    | E : ExampleCfg.empty_array _ _ _ = (Ok _, _) |- _ =>
        apply empty_array_inv in E as (-> & ? & ? & ? & ? & ->)
    end.
    repeat match goal with
    | E : param params "analysis" "num_calls" ?wa = (Ok _, ?wb) |- _ =>
        lazymatch wb with
        | wa => fail
        | _ => pose proof (param_world _ _ _ _ _ _ E); subst wb
        end
    end.
    repeat match goal with
    | E : as_count _ ?wa = (Ok _, ?wb) |- _ =>
        lazymatch wb with
        | wa => fail
        | _ => pose proof (as_count_world _ _ _ _ E); subst wb
        end
    end.
    repeat match goal with
    | E1 : param params "analysis" "num_calls" ?wa = (Ok ?x, _),
      E2 : param params "analysis" "num_calls" ?wa = (Ok ?y, _) |- _ =>
        lazymatch x with
        | y => fail
        | _ => rewrite E1 in E2; injection E2 as <-
        end
    end.
    repeat match goal with
    | E1 : as_count ?v ?wa = (Ok ?x, _), E2 : as_count ?v ?wa = (Ok ?y, _) |- _ =>
        lazymatch x with
        | y => fail
        | _ => rewrite E1 in E2; injection E2 as <-
        end
    end.
    match goal with
    | Ep : param params "analysis" "num_calls" ?wa = (Ok ?vn, ?wa),
      Ec : as_count ?vn ?wa = (Ok ?n, ?wa),
      El : for_each (ExampleCfg.timing_call L params ?an ?S0) (seq 0 ?n) _ ?wa
           = (Ok ?st, ?wl) |- _ =>
        exists vn, n, an, S0, st, wl;
        split; [exact Ep|]; split; [exact Ec|]; split; [exact El|];
        split; [reflexivity|];
        destruct (ExampleCfg.analyzer_info L st) as [i|] eqn:Hinfo;
          [exists i; reflexivity | exfalso]
    end.
    match goal with
    | E : (if ?b then _ else ret None) _ = (Ok ?x, _),
      E' : local "analyzer_info" ?x _ = (Ok _, _) |- _ =>
        destruct b; [dead_end | inj E; discriminate E']
    end.
  - (* run once *)
    match goal with
    | Er : _ ?wa = (Ok (stats0, rs0, info0), _) |- _ => invert_run Er; inj Er
    end.
    eexists. reflexivity.
Qed.

(** X14.  Timing mode with [num_calls] equal to 0: the loop body never
    runs, [analyzer_info] is never bound, and the forward driver cannot
    return (it ends in [UnboundLocalError] unless an earlier step has
    failed). *)
Theorem main_forward_needs_a_call (L : ExampleCfg.Lib) (p la : loc)
    (dp da : gmap string value) (v vn : value) (w : world) :
  heap w !! p = Some dp -> dp !! "analysis" = Some (VRef la) ->
  heap w !! la = Some da ->
  da !! "estimate_runtime" = Some v -> (forall w', truthy v w' = (Ok true, w')) ->
  da !! "num_calls" = Some vn -> (forall w', as_count vn w' = (Ok 0%nat, w')) ->
  exists e, (ExampleCfg.main_forward L (VRef p) w).1 = Raise e.
Proof.
  intros Hp Han Hla Hrun Htrue Hcalls Hzero.
  destruct (ExampleCfg.main_forward L (VRef p) w) as [[[stats info]|e] w'] eqn:H;
    [exfalso | eauto].
  apply main_forward_modes in H as (wk & v' & b & Hx & Ep & Et & Hb).
  rewrite (param_ref _ _ _ _ _ _ _ wk (extends_lookup _ _ _ _ Hx Hp) Han
             (extends_lookup _ _ _ _ Hx Hla) Hrun) in Ep.
  injection Ep as <-. rewrite Htrue in Et. injection Et as <-.
  destruct Hb as (vn' & n & an & S0 & st & wk' & Ep & Ec & El & _ & Hsome).
  rewrite (param_ref _ _ _ _ _ _ _ wk (extends_lookup _ _ _ _ Hx Hp) Han
             (extends_lookup _ _ _ _ Hx Hla) Hcalls) in Ep.
  injection Ep as <-. rewrite Hzero in Ec. injection Ec as <-.
  injection El as <- <-. destruct Hsome as [i Hi]. discriminate Hi.
Qed.

Lemma main_forward_needs_a_call_witness :
  exists e, (ExampleCfg.main_forward Instances.lib (VRef 1) Cases.no_calls_world).1
            = Raise e.
Proof.
  exact (main_forward_needs_a_call Instances.lib 1%positive 5%positive
           Cases.params_dict (Cases.analysis_of Cases.no_calls_world)
           (VBool true) (VInt 0) Cases.no_calls_world
           eq_refl eq_refl eq_refl eq_refl (fun w' => eq_refl) eq_refl
           (fun w' => eq_refl)).
Defined.

(** X15.  In timing mode only the first call is measured for its
    errors: a run that returns the ["runtimes"] has them for at least
    one call, and each of the arrays ["final_step_errors"],
    ["avg_errors"], ["all_errors"] and ["reachable_sets"] has as many
    slots as there are runtimes, slot 0 filled by the first call and
    every other slot left empty. *)
Theorem timing_mode_keeps_the_first_call (L : ExampleCfg.Lib) (params : value)
    (w w' : world) (stats : gmap string (ExampleCfg.stat L))
    (info : gmap string value) (ts : list Q) :
  ExampleCfg.main_forward L params w = (Ok (stats, info), w') ->
  stats !! "runtimes" = Some (ExampleCfg.StFloats ts) ->
  ts <> [] /\
  exists e a es s,
    stats !! "final_step_errors"
      = Some (ExampleCfg.StErrArray (Some e :: replicate (length ts - 1) None)) /\
    stats !! "avg_errors"
      = Some (ExampleCfg.StErrArray (Some a :: replicate (length ts - 1) None)) /\
    stats !! "all_errors"
      = Some (ExampleCfg.StErrsArray (Some es :: replicate (length ts - 1) None)) /\
    stats !! "reachable_sets"
      = Some (ExampleCfg.StSetsArray (Some s :: replicate (length ts - 1) None)).
Proof.
  intros H Hts.
  apply main_forward_modes in H as (wk & v & b & _ & _ & _ & Hb).
  destruct b; [|destruct Hb as [sets ->]; discriminate Hts].
  destruct Hb as (vn & n & an & S0 & st & wk' & _ & _ & El & -> & Hsome).
  destruct n as [|n].
  { injection El as <- <-. destruct Hsome as [i Hi]. discriminate Hi. }
  change (seq 0 (S n)) with (0%nat :: seq 1 n) in El. cbn [for_each] in El.
  apply bind_Ok_inv in El as (st1 & w1 & E1 & El).
  apply timing_call_first in E1 as (e & a & es & s & F1 & F2 & F3 & F4 & F5).
  apply timing_loop_later in El as (G1 & G2 & G3 & G4 & G5).
  cbn in F1, F2, F3, F4, F5.
  rewrite lookup_insert_ne in Hts by discriminate.
  rewrite lookup_insert_ne in Hts by discriminate.
  rewrite lookup_insert_ne in Hts by discriminate.
  rewrite lookup_insert_ne in Hts by discriminate.
  rewrite lookup_insert_eq in Hts. injection Hts as <-.
  assert (Hlen : length (ExampleCfg.times L st) = S n)
    by (rewrite G5, F5, length_replicate; reflexivity).
  split; [intros Hnil; rewrite Hnil in Hlen; discriminate Hlen|].
  rewrite Hlen. cbn [Nat.sub]. rewrite Nat.sub_0_r.
  exists e, a, es, s.
  rewrite G1, G2, G3, G4, F1, F2, F3, F4.
  repeat split.
Qed.

Lemma timing_mode_keeps_the_first_call_witness :
  exists (stats : gmap string (ExampleCfg.stat Instances.lib))
         (info : gmap string value) (w' : world) (ts : list Q),
    ExampleCfg.main_forward Instances.lib (VRef 1) Instances.seeded_world
      = (Ok (stats, info), w') /\
    stats !! "runtimes" = Some (@ExampleCfg.StFloats Instances.lib ts) /\
    ts <> [] /\
    exists e a es s,
      stats !! "final_step_errors"
        = Some (@ExampleCfg.StErrArray Instances.lib
                  (Some e :: replicate (length ts - 1) None)) /\
      stats !! "avg_errors"
        = Some (@ExampleCfg.StErrArray Instances.lib
                  (Some a :: replicate (length ts - 1) None)) /\
      stats !! "all_errors"
        = Some (@ExampleCfg.StErrsArray Instances.lib
                  (Some es :: replicate (length ts - 1) None)) /\
      stats !! "reachable_sets"
        = Some (@ExampleCfg.StSetsArray Instances.lib
                  (Some s :: replicate (length ts - 1) None)).
Proof.
  refine (ex_intro _ _ (ex_intro _ _ (ex_intro _ _ (ex_intro _ _
            (conj seeded_run (conj eq_refl _)))))).
  exact (timing_mode_keeps_the_first_call Instances.lib (VRef 1) Instances.seeded_world
           _ _ _ _ seeded_run eq_refl).
Defined.

(* ===================================================================== *)
(** * Part III.d  More on [ClosedLoopExperiments.py] *)
(* ===================================================================== *)

(** ** Loops *)

Lemma for_each_sum {X St : Type} (body : X -> St -> M St) (f : St -> nat) (g : X -> nat)
    (xs : list X) :
  (forall x st st' w w', body x st w = (Ok st', w') -> f st' = (g x + f st)%nat) ->
  forall st st' w w',
    for_each body xs st w = (Ok st', w') -> f st' = (sum_list (map g xs) + f st)%nat.
Proof.
  intros Hbody. induction xs as [|x xs IH]; intros st st' w w' H; simpl in H.
  - injection H as <- <-. reflexivity.
  - apply bind_Ok_inv in H as (st1 & w1 & E & H).
    apply Hbody in E. apply IH in H. simpl. lia.
Qed.

Lemma for_each_Ok_each {X St : Type} (body : X -> St -> M St) (xs : list X) :
  forall st st' w w',
    for_each body xs st w = (Ok st', w') ->
    forall x, In x xs -> exists st1 w1 st2 w2, body x st1 w1 = (Ok st2, w2).
Proof.
  induction xs as [|y xs IH]; intros st st' w w' H x Hx; [destruct Hx|].
  simpl in H. apply bind_Ok_inv in H as (st1 & w1 & E & H).
  destruct Hx as [->|Hx]; [eauto | eapply IH; eauto].
Qed.

Lemma sum_list_ones {X : Type} (xs : list X) :
  sum_list (map (fun _ => 1%nat) xs) = length xs.
Proof. induction xs as [|x xs IH]; simpl; [reflexivity | rewrite IH; reflexivity]. Qed.

Lemma sum_list_app_nat (xs ys : list nat) :
  sum_list (xs ++ ys) = (sum_list xs + sum_list ys)%nat.
Proof. induction xs as [|x xs IH]; simpl; [reflexivity | rewrite IH; lia]. Qed.

Lemma sum_list_prod {X Y : Type} (h : X -> nat) (xs : list X) (ys : list Y) :
  sum_list (map (fun xy : X * Y => h xy.1) (list_prod xs ys))
    = (length ys * sum_list (map h xs))%nat.
Proof.
  induction xs as [|x xs IH]; simpl; [lia|].
  rewrite map_app, sum_list_app_nat, IH, map_map. simpl.
  assert (Hc : sum_list (map (fun _ : Y => h x) ys) = (length ys * h x)%nat).
  { clear. induction ys as [|y ys IH]; simpl; [reflexivity | rewrite IH; lia]. }
  rewrite Hc. lia.
Qed.

(** ** [itertools.product] *)

Lemma product_length {A : Type} (ls : list (list A)) :
  length (ClosedLoopExperiments.product ls) = foldr Nat.mul 1%nat (map length ls).
Proof.
  induction ls as [|l ls IH]; simpl; [reflexivity|].
  rewrite <- IH. generalize (ClosedLoopExperiments.product ls) as ts. intros ts.
  induction l as [|x l IHl]; simpl; [reflexivity|].
  rewrite length_app, length_map, IHl. reflexivity.
Qed.

(** ** The rows of an experiment *)

Lemma run_one_appends (L : ClosedLoopExperiments.Lib)
    (input_range : ClosedLoopExperiments.Range L) (ph : value) (keys : list string)
    (q : string) (t_max : Z) (vals : list value)
    (st st' : ClosedLoopExperiments.cl_analyzer L * list (ClosedLoopExperiments.row L))
    (w w' : world) :
  ClosedLoopExperiments.run_one L input_range ph keys q t_max vals st w = (Ok st', w') ->
  length st'.2 = (1 + length st.2)%nat.
Proof.
  unfold ClosedLoopExperiments.run_one. intros H. invert_run H.
  injection H as <- <-. simpl. rewrite length_app. simpl. lia.
Qed.

Lemma run_pair_appends (L : ClosedLoopExperiments.Lib)
    (input_range : ClosedLoopExperiments.Range L)
    (hs : gmap string (list (string * list value))) (t_max : Z) (pq : string * string)
    (st st' : ClosedLoopExperiments.cl_analyzer L * list (ClosedLoopExperiments.row L))
    (w w' : world) :
  ClosedLoopExperiments.run_pair L input_range hs t_max pq st w = (Ok st', w') ->
  is_Some (hs !! pq.1) /\
  length st'.2
    = (foldr Nat.mul 1%nat (map (fun kv => length kv.2) (default [] (hs !! pq.1)))
       + length st.2)%nat.
Proof.
  destruct pq as [p q]. unfold ClosedLoopExperiments.run_pair. intros H. invert_run H.
  match goal with
  | E : registry_lookup hs _ _ = (Ok _, _) |- _ =>
      apply registry_lookup_Ok_inv in E as (s & [= <-] & Hs)
  end.
  cbn [fst]. rewrite Hs. split; [eauto|]. cbn [default].
  apply (for_each_sum _ (fun st => length st.2) (fun _ => 1%nat)) in H;
    [|intros; eapply run_one_appends; eassumption].
  rewrite H, sum_list_ones, product_length, map_map. reflexivity.
Qed.

Lemma run_experiment_count (L : ClosedLoopExperiments.Lib)
    (model : ClosedLoopExperiments.Model L) (dynamics : ClosedLoopExperiments.Dyn L)
    (df : option (list (ClosedLoopExperiments.row L)))
    (input_range : ClosedLoopExperiments.Range L) (ps qs : list string)
    (hs : gmap string (list (string * list value))) (t_max : Z) (w w' : world)
    (df' : list (ClosedLoopExperiments.row L)) :
  ClosedLoopExperiments.run_experiment L (Some model) (Some dynamics) df (Some input_range)
    (Some ps) (Some qs) (Some hs) t_max w = (Ok df', w') ->
  length df'
    = (length (default [] df)
       + length qs
         * sum_list (map (fun p => foldr Nat.mul 1%nat
                                     (map (fun kv : string * list value => length kv.2)
                                        (default [] (hs !! p)))) ps))%nat.
Proof.
  unfold ClosedLoopExperiments.run_experiment. intros H. invert_run H.
  injection H as <- <-.
  match goal with
  | E : for_each _ _ _ _ = (Ok _, _) |- _ =>
      apply (for_each_sum _ (fun st => length st.2)
               (fun pq : string * string =>
                  foldr Nat.mul 1%nat
                    (map (fun kv : string * list value => length kv.2)
                       (default [] (hs !! pq.1))))) in E;
        [|intros; eapply run_pair_appends; eassumption]
  end.
  rewrite E0. cbn [snd].
  rewrite (sum_list_prod
             (fun p => foldr Nat.mul 1%nat
                         (map (fun kv : string * list value => length kv.2)
                            (default [] (hs !! p)))) ps qs).
  lia.
Qed.

(** X16.  The number of rows of an experiment.  A run of
    [run_experiment] that returns has appended one row for every pair of
    a partitioner and a propagator and every combination of the values
    listed for the hyperparameters of that partitioner: for each
    partitioner the product of the lengths of its value lists (1 when it
    has no hyperparameter), times the number of propagators. *)
Theorem run_experiment_row_count (L : ClosedLoopExperiments.Lib)
    (model : ClosedLoopExperiments.Model L) (dynamics : ClosedLoopExperiments.Dyn L)
    (df : option (list (ClosedLoopExperiments.row L)))
    (input_range : ClosedLoopExperiments.Range L) (ps qs : list string)
    (hs : gmap string (list (string * list value))) (t_max : Z) (w w' : world)
    (df' : list (ClosedLoopExperiments.row L)) :
  ClosedLoopExperiments.run_experiment L (Some model) (Some dynamics) df (Some input_range)
    (Some ps) (Some qs) (Some hs) t_max w = (Ok df', w') ->
  length df'
    = (length (default [] df)
       + length qs
         * sum_list (map (fun p => foldr Nat.mul 1%nat
                                     (map (fun kv : string * list value => length kv.2)
                                        (default [] (hs !! p)))) ps))%nat.
Proof. apply run_experiment_count. Qed.

Lemma table_run :
  ClosedLoopExperiments.run_experiment Instances.xlib
    (Some Instances.brake) (Some Instances.double_integrator) None
    (Some [Instances.S0]) (Some ["None"; "Uniform"]) (Some ["IBP"])
    (Some Cases.table_hyperparams) 2 Instances.once_world = Cases.table_result.
Proof. reflexivity. Qed.

Lemma run_experiment_row_count_witness :
  exists (df' : list (ClosedLoopExperiments.row Instances.xlib)) (w' : world),
    ClosedLoopExperiments.run_experiment Instances.xlib
      (Some Instances.brake) (Some Instances.double_integrator) None
      (Some [Instances.S0]) (Some ["None"; "Uniform"]) (Some ["IBP"])
      (Some Cases.table_hyperparams) 2 Instances.once_world = (Ok df', w') /\
    length df' = 3%nat.
Proof.
  refine (ex_intro _ _ (ex_intro _ _ (conj table_run _))).
  exact (run_experiment_row_count Instances.xlib Instances.brake
           Instances.double_integrator None [Instances.S0] ["None"; "Uniform"] ["IBP"]
           Cases.table_hyperparams 2 Instances.once_world _ _ table_run).
Defined.

(** X17.  A partitioner that is to be run but has no entry in
    [partitioner_hyperparams_to_use] is fatal: the lookup of its
    hyperparameters raises [KeyError], so the experiment never returns
    (there must be a propagator to pair it with). *)
Theorem run_experiment_needs_hyperparams (L : ClosedLoopExperiments.Lib)
    (model : ClosedLoopExperiments.Model L) (dynamics : ClosedLoopExperiments.Dyn L)
    (df : option (list (ClosedLoopExperiments.row L)))
    (input_range : ClosedLoopExperiments.Range L) (ps qs : list string)
    (hs : gmap string (list (string * list value))) (t_max : Z) (w : world)
    (p : string) :
  In p ps -> qs <> [] -> hs !! p = None ->
  exists e,
    (ClosedLoopExperiments.run_experiment L (Some model) (Some dynamics) df
       (Some input_range) (Some ps) (Some qs) (Some hs) t_max w).1 = Raise e.
Proof.
  intros Hp Hqs Hnone.
  destruct (ClosedLoopExperiments.run_experiment L (Some model) (Some dynamics) df
              (Some input_range) (Some ps) (Some qs) (Some hs) t_max w)
    as [[df'|e] w'] eqn:H; [exfalso | eauto].
  unfold ClosedLoopExperiments.run_experiment in H. invert_run H.
  destruct qs as [|q qs]; [congruence|].
  assert (Hin : In (p, q) (list_prod ps (q :: qs)))
    by (apply in_prod; [exact Hp | left; reflexivity]).
  destruct (for_each_Ok_each _ _ _ _ _ _ E0 (p, q) Hin) as (st1 & w2 & st2 & w3 & E').
  apply run_pair_appends in E' as [[to_use Hsome] _].
  cbn [fst] in Hsome. congruence.
Qed.

Lemma run_experiment_needs_hyperparams_witness :
  exists e,
    (ClosedLoopExperiments.run_experiment Instances.xlib
       (Some Instances.brake) (Some Instances.double_integrator) None
       (Some [Instances.S0]) (Some ["None"; "SimGuided"]) (Some ["IBP"])
       (Some Cases.table_hyperparams) 2 Instances.once_world).1 = Raise e.
Proof.
  apply (run_experiment_needs_hyperparams Instances.xlib Instances.brake
           Instances.double_integrator None [Instances.S0] ["None"; "SimGuided"] ["IBP"]
           Cases.table_hyperparams 2 Instances.once_world "SimGuided").
  - right. left. reflexivity.
  - discriminate.
  - reflexivity.
Defined.

(** X18.  The defaults of [run_experiment] are all or nothing: as soon
    as one of [partitioners], [propagators] and
    [partitioner_hyperparams_to_use] is left out, all three are replaced,
    the ones the caller gave included.  Such a run that returns has
    appended nine rows: three propagators for ["None"], and three
    propagators for each of the two entries of the array [[4, 4]] of
    ["Uniform"], which the product takes for two values of
    [num_partitions]. *)
Theorem run_experiment_defaults_are_all_or_nothing (L : ClosedLoopExperiments.Lib)
    (model : option (ClosedLoopExperiments.Model L))
    (dynamics : option (ClosedLoopExperiments.Dyn L))
    (df : option (list (ClosedLoopExperiments.row L)))
    (input_range : option (ClosedLoopExperiments.Range L))
    (ps qs : option (list string))
    (hs : option (gmap string (list (string * list value)))) (t_max : Z) (w w' : world)
    (df' : list (ClosedLoopExperiments.row L)) :
  ps = None \/ qs = None \/ hs = None ->
  ClosedLoopExperiments.run_experiment L model dynamics df input_range ps qs hs t_max w
    = (Ok df', w') ->
  ClosedLoopExperiments.run_experiment L model dynamics df input_range None None None
    t_max w = (Ok df', w') /\
  length df' = (length (default [] df) + 9)%nat.
Proof.
  intros Hnone H.
  assert (Heq : ClosedLoopExperiments.run_experiment L model dynamics df input_range
                  ps qs hs t_max w
                = ClosedLoopExperiments.run_experiment L model dynamics df input_range
                    (Some ClosedLoopExperiments.default_partitioners)
                    (Some ClosedLoopExperiments.default_propagators)
                    (Some ClosedLoopExperiments.default_hyperparams) t_max w).
  { destruct model, dynamics, input_range; try reflexivity.
    destruct ps, qs, hs; try reflexivity.
    destruct Hnone as [|[|]]; discriminate. }
  split.
  - rewrite <- H, Heq. destruct model, dynamics, input_range; reflexivity.
  - rewrite Heq in H. destruct model, dynamics, input_range; try discriminate H.
    apply run_experiment_count in H. rewrite H. reflexivity.
Qed.

Lemma defaults_run :
  ClosedLoopExperiments.run_experiment Cases.default_names_lib
    (Some Instances.brake) (Some Instances.double_integrator) None
    (Some [Instances.S0]) (Some ["None"]) None None 1 Instances.once_world
    = Cases.defaults_result.
Proof. reflexivity. Qed.

Lemma run_experiment_defaults_are_all_or_nothing_witness :
  exists (df' : list (ClosedLoopExperiments.row Cases.default_names_lib)) (w' : world),
    ClosedLoopExperiments.run_experiment Cases.default_names_lib
      (Some Instances.brake) (Some Instances.double_integrator) None
      (Some [Instances.S0]) (Some ["None"]) None None 1 Instances.once_world
      = (Ok df', w') /\
    ClosedLoopExperiments.run_experiment Cases.default_names_lib
      (Some Instances.brake) (Some Instances.double_integrator) None
      (Some [Instances.S0]) None None None 1 Instances.once_world
      = (Ok df', w') /\
    length df' = 9%nat.
Proof.
  refine (ex_intro _ _ (ex_intro _ _ (conj defaults_run _))).
  exact (run_experiment_defaults_are_all_or_nothing Cases.default_names_lib
           (Some Instances.brake) (Some Instances.double_integrator) None
           (Some [Instances.S0]) (Some ["None"]) None None 1 Instances.once_world _ _
           (or_intror (or_introl eq_refl)) defaults_run).
Defined.

(** ** The dictionaries of the caller *)

Lemma for_each_keeps {X St : Type} (P : world -> Prop) (body : X -> St -> M St)
    (xs : list X) :
  (forall x st w r w', P w -> body x st w = (r, w') -> P w') ->
  forall st w r w', P w -> for_each body xs st w = (r, w') -> P w'.
Proof.
  intros Hbody. induction xs as [|x xs IH]; intros st w r w' Hw H; simpl in H.
  - injection H as <- <-. exact Hw.
  - apply bind_inv in H as [(st1 & w1 & E & H)|(e & E & _)].
    + eapply IH; [eapply Hbody; eassumption | exact H].
    + eapply Hbody; eassumption.
Qed.

Lemma frames_after {A : Type} (m : M A) (w0 w w' : world) (r : result A) :
  frames m -> extends w0 w -> m w = (r, w') -> extends w0 w'.
Proof. intros Hm Hx E. eapply extends_trans; [exact Hx | eapply Hm, E]. Qed.

(** Writing to a dictionary that did not exist in [w0] changes no
    dictionary of [w0]. *)
Lemma setitem_other (w0 w w' : world) (l : loc) (k : string) (x : value)
    (r : result unit) :
  l ∉ dom (heap w0) -> extends w0 w -> setitem (VRef l) k x w = (r, w') ->
  extends w0 w'.
Proof.
  unfold setitem. intros Hl Hx. destruct (heap w !! l); intros [= <- <-]; [|exact Hx].
  intros l' Hl'. simpl. rewrite lookup_insert_ne by (intros <-; exact (Hl Hl')).
  apply Hx, Hl'.
Qed.

Lemma extends_dom (w w' : world) (l : loc) :
  extends w w' -> l ∈ dom (heap w) -> l ∈ dom (heap w').
Proof.
  intros H Hl. apply elem_of_dom. rewrite (H l Hl). apply elem_of_dom, Hl.
Qed.

Lemma run_one_other (L : ClosedLoopExperiments.Lib) (w0 : world)
    (input_range : ClosedLoopExperiments.Range L) (l : loc) (keys : list string)
    (q : string) (t_max : Z) (vals : list value)
    (st : ClosedLoopExperiments.cl_analyzer L * list (ClosedLoopExperiments.row L))
    (w w' : world)
    (r : result (ClosedLoopExperiments.cl_analyzer L * list (ClosedLoopExperiments.row L))) :
  l ∉ dom (heap w0) -> extends w0 w ->
  ClosedLoopExperiments.run_one L input_range (VRef l) keys q t_max vals st w = (r, w') ->
  extends w0 w'.
Proof.
  intros Hl Hx H. unfold ClosedLoopExperiments.run_one in H.
  assert (Hitems : forall u w1 r1 w2, extends w0 w1 ->
            for_each (fun (kv : string * value) (_ : unit) => setitem (VRef l) kv.1 kv.2)
              (zip keys vals) u w1 = (r1, w2) -> extends w0 w2).
  { apply (for_each_keeps (extends w0)). intros kv u w1 r1 w2 Hx1 E.
    eapply setitem_other; eassumption. }
  apply bind_inv in H as [(u & w1 & E & H)|(e & E & _)]; [|eapply Hitems; eassumption].
  eapply frames_after; [|eapply Hitems; eassumption|exact H].
  repeat first [apply frames_run_and_add_row | frames_step].
Qed.

Lemma run_pair_other (L : ClosedLoopExperiments.Lib) (w0 : world)
    (input_range : ClosedLoopExperiments.Range L)
    (hs : gmap string (list (string * list value))) (t_max : Z) (pq : string * string)
    (st : ClosedLoopExperiments.cl_analyzer L * list (ClosedLoopExperiments.row L))
    (w w' : world)
    (r : result (ClosedLoopExperiments.cl_analyzer L * list (ClosedLoopExperiments.row L))) :
  extends w0 w ->
  ClosedLoopExperiments.run_pair L input_range hs t_max pq st w = (r, w') ->
  extends w0 w'.
Proof.
  destruct pq as [p q]. intros Hx H. unfold ClosedLoopExperiments.run_pair in H.
  apply bind_inv in H as [(to_use & w1 & E & H)|(e & E & _)];
    apply registry_lookup_world in E; subst; [|exact Hx].
  apply bind_inv in H as [(ph & w1 & E & H)|(e & E & _)]; [|discriminate E].
  injection E as <- <-.
  revert H. apply (for_each_keeps (extends w0)).
  - intros vals st1 w1 r1 w2 Hx1 E. eapply run_one_other; [|exact Hx1|exact E].
    intros Hl. exact (is_fresh (dom (heap w)) (extends_dom _ _ _ Hx Hl)).
  - intros l' Hl'. simpl. rewrite lookup_insert_ne; [apply Hx, Hl'|].
    intros <-. exact (is_fresh (dom (heap w)) (extends_dom _ _ _ Hx Hl')).
Qed.

Lemma frames_experiment_new_analyzer (L : ClosedLoopExperiments.Lib)
    (model : ClosedLoopExperiments.Model L) (dyn : ClosedLoopExperiments.Dyn L) :
  frames (ClosedLoopExperiments.new_cl_analyzer L model dyn).
Proof.
  unfold ClosedLoopExperiments.new_cl_analyzer. frames_auto; apply frames_new_analyzer.
Qed.

Lemma run_experiment_other (L : ClosedLoopExperiments.Lib)
    (model : option (ClosedLoopExperiments.Model L))
    (dynamics : option (ClosedLoopExperiments.Dyn L))
    (df : option (list (ClosedLoopExperiments.row L)))
    (input_range : option (ClosedLoopExperiments.Range L))
    (ps qs : option (list string))
    (hs : option (gmap string (list (string * list value)))) (t_max : Z)
    (w0 w w' : world) (r : result (list (ClosedLoopExperiments.row L))) :
  extends w0 w ->
  ClosedLoopExperiments.run_experiment L model dynamics df input_range ps qs hs t_max w
    = (r, w') ->
  extends w0 w'.
Proof.
  intros Hx H. unfold ClosedLoopExperiments.run_experiment in H.
  destruct model as [model|]; [|injection H as <- <-; exact Hx].
  destruct dynamics as [dynamics|]; [|injection H as <- <-; exact Hx].
  destruct input_range as [input_range|]; [|injection H as <- <-; exact Hx].
  match type of H with
  | context [match ?t with _ => _ end] => destruct t as [[ps' qs'] hs']
  end.
  apply bind_inv in H as [(a & w1 & E & H)|(e & E & _)];
    [|eapply frames_after; [apply frames_experiment_new_analyzer|exact Hx|exact E]].
  pose proof (frames_after _ _ _ _ _ (frames_experiment_new_analyzer L model dynamics) Hx E)
    as Hx1.
  apply bind_inv in H as [(st & w2 & E2 & H)|(e & E2 & _)].
  - injection H as <- <-. revert E2. apply (for_each_keeps (extends w0)); [|exact Hx1].
    intros pq st1 w3 r1 w4 Hx3 E3. eapply run_pair_other; eassumption.
  - revert E2. apply (for_each_keeps (extends w0)); [|exact Hx1].
    intros pq st1 w3 r1 w4 Hx3 E3. eapply run_pair_other; eassumption.
Qed.

(** X19.  An experiment leaves the dictionaries of its caller alone:
    [run_experiment] and [collect_data_for_table] write hyperparameter
    values only into the dictionaries they create themselves, so every
    dictionary that exists when they start has the same entries when
    they end, whether they return or raise. *)
Theorem experiments_leave_dictionaries (L : ClosedLoopExperiments.Lib)
    (model : option (ClosedLoopExperiments.Model L))
    (dynamics : option (ClosedLoopExperiments.Dyn L))
    (df : option (list (ClosedLoopExperiments.row L)))
    (input_range : option (ClosedLoopExperiments.Range L))
    (ps qs : option (list string))
    (hs : option (gmap string (list (string * list value))))
    (hs' : gmap string (list (string * list value))) (ps' qs' : list string)
    (t_max : Z) (w : world) (l : loc) (d : gmap string value) :
  heap w !! l = Some d ->
  heap (ClosedLoopExperiments.run_experiment L model dynamics df input_range ps qs hs
          t_max w).2 !! l = Some d /\
  heap (ClosedLoopExperiments.collect_data_for_table L hs' qs' ps' t_max w).2 !! l
    = Some d.
Proof.
  intros Hl. split.
  - destruct (ClosedLoopExperiments.run_experiment L model dynamics df input_range ps qs
                hs t_max w) as [r w'] eqn:E.
    exact (extends_lookup _ _ _ _
             (run_experiment_other L _ _ _ _ _ _ _ _ w w w' r (extends_refl w) E) Hl).
  - destruct (ClosedLoopExperiments.collect_data_for_table L hs' qs' ps' t_max w)
      as [r w'] eqn:E.
    refine (extends_lookup _ _ _ _ _ Hl).
    revert E. unfold ClosedLoopExperiments.collect_data_for_table.
    apply (for_each_keeps (extends w)); [|apply extends_refl].
    intros es st w1 r1 w2 Hx1 E.
    apply bind_inv in E as [(model' & w3 & E1 & E)|(e & E1 & _)];
      [|eapply frames_after; [apply frames_lift|exact Hx1|exact E1]].
    pose proof (frames_after _ _ _ _ _ (frames_lift _) Hx1 E1) as Hx3.
    destruct (String.eqb _ _); [|injection E as <- <-; exact Hx3].
    apply bind_inv in E as [(dyn' & w4 & E2 & E)|(e & E2 & _)];
      [|eapply frames_after; [apply frames_lift|exact Hx3|exact E2]].
    pose proof (frames_after _ _ _ _ _ (frames_lift _) Hx3 E2) as Hx4.
    eapply run_experiment_other; eassumption.
Qed.

Lemma experiments_leave_dictionaries_witness :
  heap (ClosedLoopExperiments.run_experiment Instances.xlib
          (Some Instances.brake) (Some Instances.double_integrator) None
          (Some [Instances.S0]) (Some ["None"; "Uniform"]) (Some ["IBP"])
          (Some Cases.table_hyperparams) 2 Instances.once_world).2 !! 3%positive
    = Some Instances.no_partitioner /\
  heap (ClosedLoopExperiments.collect_data_for_table Instances.xlib
          Cases.table_hyperparams ["IBP"] ["None"; "Uniform"] 2
          Instances.once_world).2 !! 3%positive
    = Some Instances.no_partitioner.
Proof.
  exact (experiments_leave_dictionaries Instances.xlib
           (Some Instances.brake) (Some Instances.double_integrator) None
           (Some [Instances.S0]) (Some ["None"; "Uniform"]) (Some ["IBP"])
           (Some Cases.table_hyperparams) Cases.table_hyperparams
           ["None"; "Uniform"] ["IBP"] 2 Instances.once_world 3%positive
           Instances.no_partitioner eq_refl).
Defined.

(** ** The entries of a row *)

Lemma set_propagator_type_inv {Model Partitioner Propagator : Type}
    (reg : gmap string (gmap string value -> G Propagator))
    (self a : analyzer Model Partitioner Propagator) (l : loc) (d : gmap string value)
    (w w' : world) :
  heap w !! l = Some d -> set_propagator reg self (VRef l) w = (Ok a, w') ->
  exists ty, d !! "type" = Some (VStr ty) /\ is_Some (reg !! ty).
Proof.
  intros Hl H. unfold set_propagator in H. cbn [is_none] in H.
  rewrite (bind_Ok _ _ _ _ _ (dict_copy_ref _ _ _ Hl)) in H.
  destruct (d !! "type") as [x|] eqn:Hty.
  - erewrite bind_Ok in H;
      [|apply dict_pop_ref with (d := d); [apply lookup_insert_eq | exact Hty]].
    apply bind_Ok_inv in H as (ctor & w1 & E & _).
    apply registry_lookup_Ok_inv in E as (s & -> & Hs). eauto.
  - erewrite bind_Ok in H;
      [|apply dict_pop_missing with (d := d); [apply lookup_insert_eq | exact Hty]].
    apply bind_Ok_inv in H as (ctor & w1 & E & _). discriminate E.
Qed.

(** X20.  The entries of a row follow the order of the merge
    [{**stats, **analyzer_info, **partitioner_hyperparams,
    **propagator_hyperparams}]: every hyperparameter of the propagator is
    in the row, and every hyperparameter of the partitioner that the
    propagator does not have as well.  Both dictionaries have a ["type"],
    so the ["type"] of a row is the type of the propagator; the type of
    the partitioner is overwritten. *)
Theorem row_entries_follow_the_merge_order (L : ClosedLoopExperiments.Lib)
    (analyzer : ClosedLoopExperiments.cl_analyzer L)
    (input_range : ClosedLoopExperiments.Range L) (lp lq : loc)
    (dp dq : gmap string value) (t_max : Z) (w w' : world)
    (analyzer' : ClosedLoopExperiments.cl_analyzer L)
    (data_row : ClosedLoopExperiments.row L) (avg_error error : ClosedLoopExperiments.Err L) :
  heap w !! lp = Some dp -> heap w !! lq = Some dq ->
  ClosedLoopExperiments.run_and_add_row L analyzer input_range (VRef lp) (VRef lq) t_max w
    = (Ok (analyzer', (data_row, avg_error, error)), w') ->
  (forall k v, dq !! k = Some v ->
     data_row !! k = Some (ClosedLoopExperiments.CVal v)) /\
  (forall k v, dq !! k = None -> dp !! k = Some v ->
     data_row !! k = Some (ClosedLoopExperiments.CVal v)) /\
  (exists ty, dq !! "type" = Some (VStr ty) /\
     data_row !! "type" = Some (ClosedLoopExperiments.CVal (VStr ty))).
Proof.
  intros Hp Hq H.
  unfold ClosedLoopExperiments.run_and_add_row in H.
  invert_run H. destruct a4 as [oc info]. invert_run H.
  destruct a4 as [error0 avg0]. invert_run H. injection H as <- <- <- <- <-.
  pose proof (frames_experiment_setters L) as F.
  pose proof (extends_refl w).
  repeat match goal with
  | E : ?m ?w1 = (_, ?w2) |- _ =>
      lazymatch goal with
      | _ : extends w1 w2 |- _ => fail
      | _ => assert (extends w1 w2)
               by (refine ((_ : frames m) _ _ _ E); first [apply F | frames_auto])
      end
  end.
  chain_frames w.
  match goal with
  | E : deref TypeError (VRef lp) ?wa = _, Hx : extends w ?wa |- _ =>
      rewrite (deref_ref _ _ _ _ (extends_lookup _ _ _ _ Hx Hp)) in E;
      injection E as <- <-
  end.
  match goal with
  | E : deref TypeError (VRef lq) ?wa = _, Hx : extends w ?wa |- _ =>
      rewrite (deref_ref _ _ _ _ (extends_lookup _ _ _ _ Hx Hq)) in E;
      injection E as <- <-
  end.
  split; [|split].
  - intros k v Hk. apply lookup_union_Some_l. rewrite lookup_fmap, Hk. reflexivity.
  - intros k v Hqk Hpk.
    rewrite lookup_union_r by (rewrite lookup_fmap, Hqk; reflexivity).
    apply lookup_union_Some_l. rewrite lookup_fmap, Hpk. reflexivity.
  - match goal with
    | E : ClosedLoopExperiments.set_cl_propagator L ?a0 (VRef lq) ?wa = (Ok _, _),
      Hx : extends w ?wa |- _ =>
        unfold ClosedLoopExperiments.set_cl_propagator in E;
        apply bind_Ok_inv in E as (b & wb & E & _);
        apply (set_propagator_type_inv _ _ _ _ _ _ _ (extends_lookup _ _ _ _ Hx Hq)) in E
          as (ty & Hty & _)
    end.
    exists ty. split; [exact Hty|].
    apply lookup_union_Some_l. rewrite lookup_fmap, Hty. reflexivity.
Qed.

Lemma row_entries_follow_the_merge_order_witness :
  exists (analyzer' : ClosedLoopExperiments.cl_analyzer Instances.xlib)
         (data_row : ClosedLoopExperiments.row Instances.xlib)
         (avg_error error : Q) (w' : world),
    ClosedLoopExperiments.run_and_add_row Instances.xlib Instances.experiment_analyzer
      [Instances.S0] (VRef 3) (VRef 4) 5 Instances.once_world
      = (Ok (analyzer', (data_row, avg_error, error)), w') /\
    (forall k v, Instances.ibp_propagator !! k = Some v ->
       data_row !! k = Some (ClosedLoopExperiments.CVal v)) /\
    (forall k v, Instances.ibp_propagator !! k = None ->
       Instances.no_partitioner !! k = Some v ->
       data_row !! k = Some (ClosedLoopExperiments.CVal v)) /\
    (exists ty, Instances.ibp_propagator !! "type" = Some (VStr ty) /\
       data_row !! "type" = Some (ClosedLoopExperiments.CVal (VStr ty))).
Proof.
  refine (ex_intro _ _ (ex_intro _ _ (ex_intro _ _ (ex_intro _ _ (ex_intro _ _
            (conj row_run _)))))).
  exact (row_entries_follow_the_merge_order Instances.xlib Instances.experiment_analyzer
           [Instances.S0] 3%positive 4%positive Instances.no_partitioner
           Instances.ibp_propagator 5 Instances.once_world _ _ _ _ _
           eq_refl eq_refl row_run).
Defined.


Lemma collected_run :
  ClosedLoopExperiments.collect_data_for_table Cases.table_lib Cases.table_hyperparams
    ["IBP"] ["None"; "Uniform"] 2 Instances.once_world = Cases.collected_result.
Proof. reflexivity. Qed.


(* ===================================================================== *)
(** * Part III.e  What the drivers compute *)
(* ===================================================================== *)

Lemma lift_inv {A : Type} (g : G A) (w w' : world) (a : A) :
  lift g w = (Ok a, w') -> g (rng w) = (Ok a, rng w') /\ heap w' = heap w.
Proof.
  unfold lift. destruct (g (rng w)) as [r s]. intros [= -> <-]. split; reflexivity.
Qed.

(** The setters, read backwards: when a setter returns for a dictionary,
    the dictionary names a registered type, and the new object is what
    the registered constructor made of the other entries. *)
Lemma set_partitioner_inv {Model Partitioner Propagator : Type}
    (reg : gmap string (gmap string value -> G Partitioner))
    (self a : analyzer Model Partitioner Propagator) (l : loc) (d : gmap string value)
    (w w' : world) :
  heap w !! l = Some d -> set_partitioner reg self (VRef l) w = (Ok a, w') ->
  exists ty ctor p,
    d !! "type" = Some (VStr ty) /\ reg !! ty = Some ctor /\
    ctor (delete "type" d) (rng w) = (Ok p, rng w') /\
    a = Analyzer (torch_model self) (Some p) (_propagator self).
Proof.
  intros Hl H.
  assert (Hty : exists ty ctor, d !! "type" = Some (VStr ty) /\ reg !! ty = Some ctor).
  { unfold set_partitioner in H. cbn [is_none] in H.
    rewrite (bind_Ok _ _ _ _ _ (dict_copy_ref _ _ _ Hl)) in H.
    destruct (d !! "type") as [x|] eqn:Hty.
    - erewrite bind_Ok in H;
        [|apply dict_pop_ref with (d := d); [apply lookup_insert_eq | exact Hty]].
      apply bind_Ok_inv in H as (ctor & w1 & E & _).
      apply registry_lookup_Ok_inv in E as (s & -> & Hs). eauto.
    - erewrite bind_Ok in H;
        [|apply dict_pop_missing with (d := d); [apply lookup_insert_eq | exact Hty]].
      apply bind_Ok_inv in H as (ctor & w1 & E & _). discriminate E. }
  destruct Hty as (ty & ctor & Hty & Hreg).
  rewrite (set_partitioner_spec reg self l d ty ctor w Hl Hty Hreg) in H.
  destruct (ctor (delete "type" d) (rng w)) as [[p|e] s] eqn:Hc; cbn [fst snd] in H;
    [|discriminate H].
  injection H as <- <-. exists ty, ctor, p. repeat split; assumption.
Qed.

Lemma set_propagator_inv {Model Partitioner Propagator : Type}
    (reg : gmap string (gmap string value -> G Propagator))
    (self a : analyzer Model Partitioner Propagator) (l : loc) (d : gmap string value)
    (w w' : world) :
  heap w !! l = Some d -> set_propagator reg self (VRef l) w = (Ok a, w') ->
  exists ty ctor p,
    d !! "type" = Some (VStr ty) /\ reg !! ty = Some ctor /\
    ctor (delete "type" d) (rng w) = (Ok p, rng w') /\
    a = Analyzer (torch_model self) (_partitioner self)
          (Some (PropagatorObj p (Some (torch_model self)))).
Proof.
  intros Hl H.
  assert (Hty : exists ty ctor, d !! "type" = Some (VStr ty) /\ reg !! ty = Some ctor).
  { unfold set_propagator in H. cbn [is_none] in H.
    rewrite (bind_Ok _ _ _ _ _ (dict_copy_ref _ _ _ Hl)) in H.
    destruct (d !! "type") as [x|] eqn:Hty.
    - erewrite bind_Ok in H;
        [|apply dict_pop_ref with (d := d); [apply lookup_insert_eq | exact Hty]].
      apply bind_Ok_inv in H as (ctor & w1 & E & _).
      apply registry_lookup_Ok_inv in E as (s & -> & Hs). eauto.
    - erewrite bind_Ok in H;
        [|apply dict_pop_missing with (d := d); [apply lookup_insert_eq | exact Hty]].
      apply bind_Ok_inv in H as (ctor & w1 & E & _). discriminate E. }
  destruct Hty as (ty & ctor & Hty & Hreg).
  rewrite (set_propagator_spec reg self l d ty ctor w Hl Hty Hreg) in H.
  destruct (ctor (delete "type" d) (rng w)) as [[p|e] s] eqn:Hc; cbn [fst snd] in H;
    [|discriminate H].
  injection H as <- <-. exists ty, ctor, p. repeat split; assumption.
Qed.

(** X21.  What a row is computed from.  Whatever partitioner and
    propagator the shared analyzer had before, [run_and_add_row] first
    seeds the generator with 0 and replaces them by the objects that the
    registered constructors make of the two hyperparameter dictionaries
    (their entries other than ["type"]), the propagator with the model of
    the analyzer as its network; the reachable set is computed by that
    analyzer for the input constraint of the given range, and the two
    errors of the result are those [get_error] returns for it, average
    second.  The generator is threaded through these calls in this
    order, and the analyzer returned is the one that computed the row. *)
Theorem row_is_computed_from_its_hyperparameters (L : ClosedLoopExperiments.Lib)
    (analyzer : ClosedLoopExperiments.cl_analyzer L)
    (input_range : ClosedLoopExperiments.Range L) (lp lq : loc)
    (dp dq : gmap string value) (t_max : Z) (w w' : world)
    (analyzer' : ClosedLoopExperiments.cl_analyzer L)
    (data_row : ClosedLoopExperiments.row L) (avg_error error : ClosedLoopExperiments.Err L) :
  heap w !! lp = Some dp -> heap w !! lq = Some dq ->
  ClosedLoopExperiments.run_and_add_row L analyzer input_range (VRef lp) (VRef lq) t_max w
    = (Ok (analyzer', (data_row, avg_error, error)), w') ->
  exists typ ctorp p s1 tyq ctorq q s2 ic s3 oc0 s4 oc info s5,
    dp !! "type" = Some (VStr typ) /\
    ClosedLoopExperiments.partitioner_dict L !! typ = Some ctorp /\
    ctorp (delete "type" dp) 0%Z = (Ok p, s1) /\
    dq !! "type" = Some (VStr tyq) /\
    ClosedLoopExperiments.propagator_dict L !! tyq = Some ctorq /\
    ctorq (delete "type" dq) s1 = (Ok q, s2) /\
    analyzer' = ClosedLoopAnalyzer
                  (Analyzer (torch_model (base analyzer)) (Some p)
                     (Some (PropagatorObj q (Some (torch_model (base analyzer))))))
                  (cl_dynamics analyzer) /\
    ClosedLoopExperiments.LpInputConstraint L input_range s2 = (Ok ic, s3) /\
    ClosedLoopExperiments.LpOutputConstraint L s3 = (Ok oc0, s4) /\
    ClosedLoopExperiments.get_reachable_set L analyzer' ic oc0 t_max s4
      = (Ok (oc, info), s5) /\
    ClosedLoopExperiments.get_error L analyzer' ic oc s5 = (Ok (error, avg_error), rng w').
Proof.
  intros Hp Hq H.
  unfold ClosedLoopExperiments.run_and_add_row in H.
  invert_run H. destruct a4 as [oc info]. invert_run H.
  destruct a4 as [error0 avg0]. invert_run H. injection H as <- <- <- <- <-.
  match goal with
  | E : np_random_seed 0 w = (Ok _, _) |- _ => injection E as <- <-
  end.
  (* the partitioner *)
  match goal with
  | E : ClosedLoopExperiments.set_cl_partitioner L analyzer (VRef lp) ?wa = (Ok ?a1, ?wb) |- _ =>
      pose proof (proj1 (frames_experiment_setters L analyzer (VRef lp)) _ _ _ E) as Hx1;
      unfold ClosedLoopExperiments.set_cl_partitioner in E;
      apply bind_Ok_inv in E as (b1 & wb1 & E & Eb); injection Eb as <- <-;
      apply (set_partitioner_inv _ _ _ lp dp wa _ Hp) in E
        as (typ & ctorp & p & Htyp & Hregp & Hctorp & ->)
  end.
  cbn [rng] in Hctorp.
  (* the propagator *)
  match goal with
  | E : ClosedLoopExperiments.set_cl_propagator L _ (VRef lq) ?wa = (Ok ?a2, ?wb) |- _ =>
      unfold ClosedLoopExperiments.set_cl_propagator in E;
      apply bind_Ok_inv in E as (b2 & wb2 & E & Eb); injection Eb as <- <-;
      apply (set_propagator_inv _ _ _ lq dq wa _ (extends_lookup _ _ _ _ Hx1 Hq)) in E
        as (tyq & ctorq & q & Htyq & Hregq & Hctorq & ->)
  end.
  cbn [base cl_dynamics torch_model _partitioner _propagator] in *.
  repeat match goal with
  | E : lift _ _ = (Ok _, _) |- _ => apply lift_inv in E as [E _]
  end.
  repeat match goal with
  | E : get_propagator _ _ = (Ok _, _) |- _ => injection E as <- <-
  | E : get_partitioner _ _ = (Ok _, _) |- _ => injection E as <- <-
  | E : deref _ _ ?wa = (Ok _, ?wb) |- _ =>
      lazymatch wb with
      | wa => fail
      | _ => pose proof (deref_world _ _ _ _ _ E); subst wb
      end
  end.
  do 15 eexists.
  repeat (split; [eassumption || reflexivity|]).
  eassumption.
Qed.

Lemma row_is_computed_from_its_hyperparameters_witness :
  exists (analyzer' : ClosedLoopExperiments.cl_analyzer Instances.xlib)
         (data_row : ClosedLoopExperiments.row Instances.xlib)
         (avg_error error : Q) (w' : world),
    ClosedLoopExperiments.run_and_add_row Instances.xlib Instances.experiment_analyzer
      [Instances.S0] (VRef 3) (VRef 4) 5 Instances.once_world
      = (Ok (analyzer', (data_row, avg_error, error)), w') /\
    exists typ ctorp p s1 tyq ctorq q s2 ic s3 oc0 s4 oc info s5,
      Instances.no_partitioner !! "type" = Some (VStr typ) /\
      ClosedLoopExperiments.partitioner_dict Instances.xlib !! typ = Some ctorp /\
      ctorp (delete "type" Instances.no_partitioner) 0%Z = (Ok p, s1) /\
      Instances.ibp_propagator !! "type" = Some (VStr tyq) /\
      ClosedLoopExperiments.propagator_dict Instances.xlib !! tyq = Some ctorq /\
      ctorq (delete "type" Instances.ibp_propagator) s1 = (Ok q, s2) /\
      analyzer' = ClosedLoopAnalyzer
                    (Analyzer (torch_model (base Instances.experiment_analyzer)) (Some p)
                       (Some (PropagatorObj q
                                (Some (torch_model (base Instances.experiment_analyzer))))))
                    (cl_dynamics Instances.experiment_analyzer) /\
      ClosedLoopExperiments.LpInputConstraint Instances.xlib [Instances.S0] s2
        = (Ok ic, s3) /\
      ClosedLoopExperiments.LpOutputConstraint Instances.xlib s3 = (Ok oc0, s4) /\
      ClosedLoopExperiments.get_reachable_set Instances.xlib analyzer' ic oc0 5 s4
        = (Ok (oc, info), s5) /\
      ClosedLoopExperiments.get_error Instances.xlib analyzer' ic oc s5
        = (Ok (error, avg_error), rng w').
Proof.
  refine (ex_intro _ _ (ex_intro _ _ (ex_intro _ _ (ex_intro _ _ (ex_intro _ _
            (conj row_run _)))))).
  exact (row_is_computed_from_its_hyperparameters Instances.xlib
           Instances.experiment_analyzer [Instances.S0] 3%positive 4%positive
           Instances.no_partitioner Instances.ibp_propagator 5 Instances.once_world
           _ _ _ _ _ eq_refl eq_refl row_run).
Defined.

Lemma example_new_analyzer_eq (L : ExampleCfg.Lib) (controller : ExampleCfg.Controller L)
    (dyn : ExampleCfg.Dyn L) (w : world) :
  ExampleCfg.new_cl_analyzer L controller dyn w
    = (Ok (ClosedLoopAnalyzer (Analyzer controller None None) dyn), w).
Proof. reflexivity. Qed.

(** X22.  What the forward driver analyses when it is run once.  The
    generator is seeded with 0; the dynamics are those of [system.type]
    and [system.feedback], the controller the one [system.controller]
    names for them; the partitioner and the propagator are made by the
    registered constructors from [analysis.partitioner] and
    [analysis.propagator] (their entries other than ["type"]), the
    propagator with the controller as its network; the initial set is
    built from [analysis.initial_state_range] and the ["boundary_type"]
    of the propagator; and the ["reachable_sets"] of the result are what
    [get_reachable_set] returns for this analyzer, this set and
    [analysis.t_max].  The generator is threaded through these calls in
    this order. *)
Theorem main_forward_analyses_the_configuration (L : ExampleCfg.Lib)
    (p ls la lp lq : loc) (dp ds da dpart dprop : gmap string value)
    (ty fb name lit bt tm v : value) (w w' : world)
    (stats : gmap string (ExampleCfg.stat L)) (info : gmap string value) :
  heap w !! p = Some dp ->
  dp !! "system" = Some (VRef ls) -> heap w !! ls = Some ds ->
  ds !! "type" = Some ty -> ds !! "feedback" = Some fb -> ds !! "controller" = Some name ->
  dp !! "analysis" = Some (VRef la) -> heap w !! la = Some da ->
  da !! "partitioner" = Some (VRef lp) -> heap w !! lp = Some dpart ->
  da !! "propagator" = Some (VRef lq) -> heap w !! lq = Some dprop ->
  dprop !! "boundary_type" = Some bt ->
  da !! "initial_state_range" = Some lit -> da !! "t_max" = Some tm ->
  da !! "estimate_runtime" = Some v -> (forall w0, truthy v w0 = (Ok false, w0)) ->
  ExampleCfg.main_forward L (VRef p) w = (Ok (stats, info), w') ->
  exists dyn s1 controller s2 typ ctorp part s3 tyq ctorq prop s4 range s5 S0 s6
         sets info0 s7,
    ExampleCfg.get_dynamics_instance L ty fb 0%Z = (Ok dyn, s1) /\
    ExampleCfg.load_controller L dyn name s1 = (Ok controller, s2) /\
    dpart !! "type" = Some (VStr typ) /\
    ExampleCfg.partitioner_dict L !! typ = Some ctorp /\
    ctorp (delete "type" dpart) s2 = (Ok part, s3) /\
    dprop !! "type" = Some (VStr tyq) /\
    ExampleCfg.propagator_dict L !! tyq = Some ctorq /\
    ctorq (delete "type" dprop) s3 = (Ok prop, s4) /\
    ExampleCfg.array_of_literal L lit s4 = (Ok range, s5) /\
    ExampleCfg.state_range_to_constraint L range bt s5 = (Ok S0, s6) /\
    ExampleCfg.get_reachable_set L
      (ClosedLoopAnalyzer
         (Analyzer controller (Some part) (Some (PropagatorObj prop (Some controller))))
         dyn) S0 tm s6 = (Ok (sets, info0), s7) /\
    stats = <["reachable_sets" := ExampleCfg.StSets sets]> ∅.
Proof.
  intros Hp Hsys Hls Hty Hfb Hname Han Hla Hpart Hlp Hprop Hlq Hbt Hlit Htm Hrun Hfalse H.
  unfold ExampleCfg.main_forward in H. invert_run H.
  match type of H with
  | context [match ?r with _ => _ end] => destruct r as [[stats0 rs0] info0]
  end.
  invert_run H. inj H.
  start_run w.
  read_param Hp Hsys Hls Hty. read_param Hp Hsys Hls Hfb. read_param Hp Hsys Hls Hname.
  read_param Hp Han Hla Hpart. read_param Hp Han Hla Hprop.
  read_param Hp Han Hla Hlit. read_param Hp Han Hla Hrun.
  match goal with
  | E : getitem (VRef lq) "boundary_type" ?wa = (Ok _, _), Hx : extends w ?wa |- _ =>
      rewrite (getitem_ref _ _ _ _ _ (extends_lookup _ _ _ _ Hx Hlq) Hbt) in E; inj E
  end.
  match goal with
  | E : truthy _ _ = (Ok _, _), Hf : forall w0, truthy _ w0 = (Ok false, w0) |- _ =>
      rewrite Hf in E; inj E
  end.
  (* the analysis, run once *)
  match goal with
  | E : _ ?wa = (Ok (_, rs0, info0), _) |- _ => cbv iota in E; invert_run E; inj E
  end.
  note_steps. chain_frames w.
  read_param Hp Han Hla Htm.
  (* the analyzer *)
  match goal with
  | E : ExampleCfg.new_cl_analyzer L _ _ _ = (Ok _, _) |- _ =>
      rewrite example_new_analyzer_eq in E; inj E
  end.
  match goal with
  | E : ExampleCfg.set_cl_partitioner L _ (VRef lp) ?wa = (Ok _, _),
    Hx : extends w ?wa |- _ =>
      unfold ExampleCfg.set_cl_partitioner in E;
      apply bind_Ok_inv in E as (b1 & wb1 & E & Eb); inj Eb;
      apply (set_partitioner_inv _ _ _ lp dpart wa _ (extends_lookup _ _ _ _ Hx Hlp)) in E
        as (typ & ctorp & part & Htyp & Hregp & Hctorp & ->)
  end.
  match goal with
  | E : ExampleCfg.set_cl_propagator L _ (VRef lq) ?wa = (Ok _, _),
    Hx : extends w ?wa |- _ =>
      unfold ExampleCfg.set_cl_propagator in E;
      apply bind_Ok_inv in E as (b2 & wb2 & E & Eb); inj Eb;
      apply (set_propagator_inv _ _ _ lq dprop wa _ (extends_lookup _ _ _ _ Hx Hlq)) in E
        as (tyq & ctorq & prop & Htyq & Hregq & Hctorq & ->)
  end.
  repeat match goal with
  | E : time_time _ = (Ok _, _) |- _ => inj E
  end.
  repeat match goal with
  | E : lift _ _ = (Ok _, _) |- _ => apply lift_inv in E as [E _]
  end.
  match goal with
  | E : np_random_seed 0 w = (Ok _, _) |- _ => inj E
  end.
  cbn [rng base cl_dynamics torch_model _partitioner _propagator] in *.

  match goal with
  | x : (ExampleCfg.Sets L * gmap string value)%type |- _ => destruct x as [sets info1]
  end.
  cbn [fst snd] in *.
  do 19 eexists.
  repeat (split; [eassumption || reflexivity|]).
  reflexivity.
Qed.

Lemma main_forward_analyses_the_configuration_witness :
  exists (stats : gmap string (ExampleCfg.stat Instances.lib))
         (info : gmap string value) (w' : world),
    ExampleCfg.main_forward Instances.lib (VRef 1) Instances.once_world
      = (Ok (stats, info), w') /\
    exists dyn s1 controller s2 typ ctorp part s3 tyq ctorq prop s4 range s5 S0 s6
           sets info0 s7,
      ExampleCfg.get_dynamics_instance Instances.lib (VStr "DoubleIntegrator")
        (VStr "FullState") 0%Z = (Ok dyn, s1) /\
      ExampleCfg.load_controller Instances.lib dyn (VStr "brake") s1
        = (Ok controller, s2) /\
      Instances.no_partitioner !! "type" = Some (VStr typ) /\
      ExampleCfg.partitioner_dict Instances.lib !! typ = Some ctorp /\
      ctorp (delete "type" Instances.no_partitioner) s2 = (Ok part, s3) /\
      Instances.ibp_propagator !! "type" = Some (VStr tyq) /\
      ExampleCfg.propagator_dict Instances.lib !! tyq = Some ctorq /\
      ctorq (delete "type" Instances.ibp_propagator) s3 = (Ok prop, s4) /\
      ExampleCfg.array_of_literal Instances.lib (VStr "[[2.5, 3.0], [-0.25, 0.25]]") s4
        = (Ok range, s5) /\
      ExampleCfg.state_range_to_constraint Instances.lib range (VStr "box") s5
        = (Ok S0, s6) /\
      ExampleCfg.get_reachable_set Instances.lib
        (ClosedLoopAnalyzer
           (Analyzer controller (Some part) (Some (PropagatorObj prop (Some controller))))
           dyn) S0 (VInt 5) s6 = (Ok (sets, info0), s7) /\
      stats = <["reachable_sets" := ExampleCfg.StSets sets]> ∅.
Proof.
  refine (ex_intro _ _ (ex_intro _ _ (ex_intro _ _ (conj once_run _)))).
  exact (main_forward_analyses_the_configuration Instances.lib
           1%positive 2%positive 5%positive 3%positive 4%positive
           Cases.params_dict Cases.system_dict (Cases.analysis_of Instances.once_world)
           Instances.no_partitioner Instances.ibp_propagator
           (VStr "DoubleIntegrator") (VStr "FullState") (VStr "brake")
           (VStr "[[2.5, 3.0], [-0.25, 0.25]]") (VStr "box") (VInt 5) (VBool false)
           Instances.once_world _ _ _
           eq_refl eq_refl eq_refl eq_refl eq_refl eq_refl eq_refl eq_refl eq_refl
           eq_refl eq_refl eq_refl eq_refl eq_refl eq_refl eq_refl (fun w0 => eq_refl)
           once_run).
Defined.

(** X23.  What the backward driver analyses when it is run once, for a
    system with state feedback.  The generator is seeded with 0; the
    dynamics, the controller, the partitioner and the propagator are set
    up as in the forward driver; the target set is built from
    [analysis.final_state_range] and the ["boundary_type"] of the
    propagator; and the ["backprojection_sets"] of the result are what
    [get_backprojection_set] returns for this analyzer, this target set,
    [analysis.t_max] and [analysis.overapprox]. *)
Theorem main_backward_analyses_the_configuration (L : ExampleCfg.Lib)
    (p ls la lp lq : loc) (dp ds da dpart dprop : gmap string value)
    (ty fb name lit bt tm ov v : value) (w w' : world)
    (stats : gmap string (ExampleCfg.stat L)) (info : gmap string value) :
  heap w !! p = Some dp ->
  dp !! "system" = Some (VRef ls) -> heap w !! ls = Some ds ->
  ds !! "type" = Some ty -> ds !! "feedback" = Some fb -> ds !! "controller" = Some name ->
  dp !! "analysis" = Some (VRef la) -> heap w !! la = Some da ->
  da !! "partitioner" = Some (VRef lp) -> heap w !! lp = Some dpart ->
  da !! "propagator" = Some (VRef lq) -> heap w !! lq = Some dprop ->
  dprop !! "boundary_type" = Some bt ->
  da !! "final_state_range" = Some lit -> da !! "t_max" = Some tm ->
  da !! "overapprox" = Some ov ->
  da !! "estimate_runtime" = Some v -> (forall w0, truthy v w0 = (Ok false, w0)) ->
  ExampleCfg.main_backward L (VRef p) w = (Ok (stats, info), w') ->
  exists dyn s1 controller s2 typ ctorp part s3 tyq ctorq prop s4 range s5 target s6
         sets info0 s7,
    eq_str fb "FullState" = true /\
    ExampleCfg.get_dynamics_instance L ty fb 0%Z = (Ok dyn, s1) /\
    ExampleCfg.load_controller L dyn name s1 = (Ok controller, s2) /\
    dpart !! "type" = Some (VStr typ) /\
    ExampleCfg.partitioner_dict L !! typ = Some ctorp /\
    ctorp (delete "type" dpart) s2 = (Ok part, s3) /\
    dprop !! "type" = Some (VStr tyq) /\
    ExampleCfg.propagator_dict L !! tyq = Some ctorq /\
    ctorq (delete "type" dprop) s3 = (Ok prop, s4) /\
    ExampleCfg.array_of_literal L lit s4 = (Ok range, s5) /\
    ExampleCfg.state_range_to_constraint L range bt s5 = (Ok target, s6) /\
    ExampleCfg.get_backprojection_set L
      (ClosedLoopAnalyzer
         (Analyzer controller (Some part) (Some (PropagatorObj prop (Some controller))))
         dyn) target tm ov s6 = (Ok (sets, info0), s7) /\
    stats = <["backprojection_sets" := ExampleCfg.StSets sets]> ∅.
Proof.
  intros Hp Hsys Hls Hty Hfb Hname Han Hla Hpart Hlp Hprop Hlq Hbt Hlit Htm Hov Hrun
    Hfalse H.
  unfold ExampleCfg.main_backward in H. invert_run H.
  match type of H with
  | context [match ?r with _ => _ end] => destruct r as [[stats0 sets0] info0]
  end.
  invert_run H. inj H.
  start_run w.
  read_param Hp Hsys Hls Hty. read_param Hp Hsys Hls Hfb. read_param Hp Hsys Hls Hname.
  read_param Hp Han Hla Hpart. read_param Hp Han Hla Hprop.
  read_param Hp Han Hla Hlit. read_param Hp Han Hla Hrun.
  match goal with
  | E : getitem (VRef lq) "boundary_type" ?wa = (Ok _, _), Hx : extends w ?wa |- _ =>
      rewrite (getitem_ref _ _ _ _ _ (extends_lookup _ _ _ _ Hx Hlq) Hbt) in E; inj E
  end.
  match goal with
  | E : truthy _ _ = (Ok _, _), Hf : forall w0, truthy _ w0 = (Ok false, w0) |- _ =>
      rewrite Hf in E; inj E
  end.
  (* the analysis, run once *)
  match goal with
  | E : _ ?wa = (Ok (_, sets0, info0), _) |- _ => cbv iota in E; invert_run E; inj E
  end.
  note_steps. chain_frames w.
  read_param Hp Han Hla Htm. read_param Hp Han Hla Hov.
  (* state feedback *)
  match goal with
  | E : (if eq_str ?x "FullState" then _ else _) _ = (Ok _, _) |- _ =>
      destruct (eq_str x "FullState") eqn:Hstate; [inj E | discriminate E]
  end.
  (* the analyzer *)
  match goal with
  | E : ExampleCfg.new_cl_analyzer L _ _ _ = (Ok _, _) |- _ =>
      rewrite example_new_analyzer_eq in E; inj E
  end.
  match goal with
  | E : ExampleCfg.set_cl_partitioner L _ (VRef lp) ?wa = (Ok _, _),
    Hx : extends w ?wa |- _ =>
      unfold ExampleCfg.set_cl_partitioner in E;
      apply bind_Ok_inv in E as (b1 & wb1 & E & Eb); inj Eb;
      apply (set_partitioner_inv _ _ _ lp dpart wa _ (extends_lookup _ _ _ _ Hx Hlp)) in E
        as (typ & ctorp & part & Htyp & Hregp & Hctorp & ->)
  end.
  match goal with
  | E : ExampleCfg.set_cl_propagator L _ (VRef lq) ?wa = (Ok _, _),
    Hx : extends w ?wa |- _ =>
      unfold ExampleCfg.set_cl_propagator in E;
      apply bind_Ok_inv in E as (b2 & wb2 & E & Eb); inj Eb;
      apply (set_propagator_inv _ _ _ lq dprop wa _ (extends_lookup _ _ _ _ Hx Hlq)) in E
        as (tyq & ctorq & prop & Htyq & Hregq & Hctorq & ->)
  end.
  repeat match goal with
  | E : lift _ _ = (Ok _, _) |- _ => apply lift_inv in E as [E _]
  end.
  match goal with
  | E : np_random_seed 0 w = (Ok _, _) |- _ => inj E
  end.
  cbn [rng base cl_dynamics torch_model _partitioner _propagator] in *.
  match goal with
  | x : (ExampleCfg.Sets L * gmap string value)%type |- _ => destruct x as [sets info1]
  end.
  cbn [fst snd] in *.
  do 19 eexists.
  repeat (split; [eassumption || reflexivity|]).
  reflexivity.
Qed.

Lemma backward_run :
  ExampleCfg.main_backward Cases.backward_lib (VRef 1) Cases.backward_only_world
    = Cases.backward_result.
Proof. reflexivity. Qed.

Lemma main_backward_analyses_the_configuration_witness :
  exists (stats : gmap string (ExampleCfg.stat Cases.backward_lib))
         (info : gmap string value) (w' : world),
    ExampleCfg.main_backward Cases.backward_lib (VRef 1) Cases.backward_only_world
      = (Ok (stats, info), w') /\
    exists dyn s1 controller s2 typ ctorp part s3 tyq ctorq prop s4 range s5 target s6
           sets info0 s7,
      eq_str (VStr "FullState") "FullState" = true /\
      ExampleCfg.get_dynamics_instance Cases.backward_lib (VStr "DoubleIntegrator")
        (VStr "FullState") 0%Z = (Ok dyn, s1) /\
      ExampleCfg.load_controller Cases.backward_lib dyn (VStr "brake") s1
        = (Ok controller, s2) /\
      Instances.no_partitioner !! "type" = Some (VStr typ) /\
      ExampleCfg.partitioner_dict Cases.backward_lib !! typ = Some ctorp /\
      ctorp (delete "type" Instances.no_partitioner) s2 = (Ok part, s3) /\
      Instances.ibp_propagator !! "type" = Some (VStr tyq) /\
      ExampleCfg.propagator_dict Cases.backward_lib !! tyq = Some ctorq /\
      ctorq (delete "type" Instances.ibp_propagator) s3 = (Ok prop, s4) /\
      ExampleCfg.array_of_literal Cases.backward_lib
        (VStr "[[4.5, 5.0], [-0.25, 0.25]]") s4 = (Ok range, s5) /\
      ExampleCfg.state_range_to_constraint Cases.backward_lib range (VStr "box") s5
        = (Ok target, s6) /\
      ExampleCfg.get_backprojection_set Cases.backward_lib
        (ClosedLoopAnalyzer
           (Analyzer controller (Some part) (Some (PropagatorObj prop (Some controller))))
           dyn) target (VInt 5) (VBool true) s6 = (Ok (sets, info0), s7) /\
      stats = <["backprojection_sets" := ExampleCfg.StSets sets]> ∅.
Proof.
  refine (ex_intro _ _ (ex_intro _ _ (ex_intro _ _ (conj backward_run _)))).
  exact (main_backward_analyses_the_configuration Cases.backward_lib
           1%positive 2%positive 5%positive 3%positive 4%positive
           Cases.params_dict Cases.system_dict
           (Cases.analysis_of Cases.backward_only_world)
           Instances.no_partitioner Instances.ibp_propagator
           (VStr "DoubleIntegrator") (VStr "FullState") (VStr "brake")
           (VStr "[[4.5, 5.0], [-0.25, 0.25]]") (VStr "box") (VInt 5) (VBool true)
           (VBool false) Cases.backward_only_world _ _ _
           eq_refl eq_refl eq_refl eq_refl eq_refl eq_refl eq_refl eq_refl eq_refl
           eq_refl eq_refl eq_refl eq_refl eq_refl eq_refl eq_refl eq_refl
           (fun w0 => eq_refl) backward_run).
Defined.
